(** * Agenda Inteligente: the CSP scheduling core of [solver.py]

    A shallow embedding of [solve_schedule] and of the helpers it calls,
    followed by the properties of the candidate-domain builder, the cost
    model, the conflict pre-check and the result projector.

    Conventions of the embedding.
    - A [datetime] is the wall-clock reading of an aware Python datetime in
      the user's time zone, counted in microseconds since 1970-01-01T00:00
      of that wall clock.  Every datetime the solver handles carries the same
      [ZoneInfo] object, and Python compares, subtracts and shifts such
      values on their wall-clock fields, so this is the arithmetic the code
      performs.  ISO parsing and formatting stay outside.
    - Python's float quotient followed by [math.floor] / [math.ceil] is the
      exact integer floor / ceiling.
    - A raised exception ([AssertionError] of [Horizon.__post_init__],
      [KeyError] of a dictionary subscript) is [None].
    - The CP-SAT engine and the clock ([datetime.now]) are arguments. *)

From Stdlib Require Import ZArith Lia.
From stdpp Require Import gmap strings list sorting pretty.

Local Open Scope Z_scope.

(* ===================================================================== *)
(** ** Time and slots *)
(* ===================================================================== *)

Definition datetime := Z.

Definition us_per_minute : Z := 60000000.
Definition us_per_day : Z := 86400000000.

(** [timedelta(minutes=m)] and [timedelta(days=d)]. *)
Definition timedelta_minutes (m : Z) : Z := m * us_per_minute.
Definition timedelta_days (d : Z) : Z := d * us_per_day.

(** [math.ceil(a / b)] for a positive [b]. *)
Definition ceil_div (a b : Z) : Z := - ((- a) / b).

(** [range(a, b)]. *)
Definition py_range (a b : Z) : list Z := seqZ a (b - a).

(** The proleptic Gregorian calendar of the [datetime] module: the civil
    date of a day number (days since 1970-01-01) and back. *)
Definition civil_from_days (z0 : Z) : Z * Z * Z :=
  let z := z0 + 719468 in
  let era := z / 146097 in
  let doe := z - era * 146097 in
  let yoe := (doe - doe / 1460 + doe / 36524 - doe / 146096) / 365 in
  let y := yoe + era * 400 in
  let doy := doe - (365 * yoe + yoe / 4 - yoe / 100) in
  let mp := (5 * doy + 2) / 153 in
  let d := doy - (153 * mp + 2) / 5 + 1 in
  let m := if mp <? 10 then mp + 3 else mp - 9 in
  (if m <=? 2 then y + 1 else y, m, d).

Definition days_from_civil (y0 m d : Z) : Z :=
  let y := if m <=? 2 then y0 - 1 else y0 in
  let era := y / 400 in
  let yoe := y - era * 400 in
  let doy := (153 * (if 2 <? m then m - 3 else m + 9) + 2) / 5 + d - 1 in
  let doe := yoe * 365 + yoe / 4 - yoe / 100 + doy in
  era * 146097 + doe - 719468.

Definition day_number (dt : datetime) : Z := dt / us_per_day.

(** [dt.replace(hour=0, minute=0, second=0, microsecond=0)]. *)
Definition midnight (dt : datetime) : datetime := day_number dt * us_per_day.

(** [dt.replace(hour=hh, minute=mm, second=0, microsecond=0)]. *)
Definition replace_hm (dt : datetime) (hh mm : Z) : datetime :=
  midnight dt + timedelta_minutes (hh * 60 + mm).

(** [dt.weekday()]: Monday is 0; 1970-01-01 was a Thursday. *)
Definition weekday (dt : datetime) : Z := (day_number dt + 3) `mod` 7.

Definition isoweekday (dt : datetime) : Z := weekday dt + 1.

Definition dt_year (dt : datetime) : Z := (civil_from_days (day_number dt)).1.1.
Definition dt_month (dt : datetime) : Z := (civil_from_days (day_number dt)).1.2.

(** [datetime(y, m, 1, 0, 0, 0, 0)] on the wall clock. *)
Definition first_of_month (y m : Z) : datetime := days_from_civil y m 1 * us_per_day.

Record Horizon := {
  start_dt : datetime;
  end_dt : datetime;
  slot_minutes : Z
}.

(** The assertions of [Horizon.__post_init__]; both instants are aware by
    construction. *)
Definition post_init (h : Horizon) : bool :=
  (start_dt h <=? end_dt h) && (0 <? slot_minutes h).

Definition slot_delta (h : Horizon) : Z := timedelta_minutes (slot_minutes h).

Definition dt_to_slot (h : Horizon) (dt : datetime) : Z :=
  (dt - start_dt h) / slot_delta h.

Definition slot_to_dt (h : Horizon) (s : Z) : datetime :=
  start_dt h + s * slot_delta h.

Definition dt_to_next_slot (h : Horizon) (dt : datetime) : Z :=
  let base := dt_to_slot h dt in
  if slot_to_dt h base <? dt then base + 1 else base.

Definition total_slots (h : Horizon) : Z :=
  ceil_div (end_dt h - start_dt h) (slot_delta h).

Definition slots_in_interval (h : Horizon) (a b : datetime) : list Z :=
  let sa := dt_to_slot h a in
  let sb := dt_to_slot h b in
  let sb := if slot_to_dt h sb <? b then sb + 1 else sb in
  let sa := Z.max sa 0 in
  let sb := Z.min sb (total_slots h) in
  py_range sa (Z.max sa sb).

Definition day_index (dt : datetime) : Z * Z * Z :=
  civil_from_days (day_number (midnight dt)).

(** [parse_hhmm] once the value has been split into two integers; [None]
    stands for a value of another shape (or one [int] rejects). *)
Definition parse_hhmm (value : option (Z * Z)) (default : Z * Z) : Z * Z :=
  match value with
  | Some (hh, mm) =>
      if (0 <=? hh) && (hh <=? 23) && (0 <=? mm) && (mm <=? 59) then (hh, mm)
      else default
  | None => default
  end.

Definition safe_positive_int (value : option Z) (default : Z) : Z :=
  match value with
  | None => default
  | Some n => Z.max 0 n
  end.


(* ===================================================================== *)
(** ** The problem's structures *)
(* ===================================================================== *)

Record FixedEvent := {
  fx_id : string;
  start_slot : Z;
  end_slot : Z;
  blocks_capacity : bool
}.

Record FlexibleEvent := {
  id : string;
  priority : string;
  duration_slots : Z;
  overlap : bool;
  current_start_slot : option Z;
  window : string;
  window_start : option Z;
  window_end : option Z
}.

Record Costs := {
  total : Z;
  dist : Z;
  offpref : Z;
  crossday : Z;
  movecost : Z
}.

(** The input document, after JSON decoding and ISO parsing.  An absent
    key is [None]; flags are read with the defaults of the [.get] calls. *)
Record FixedJson := {
  fj_id : string;
  fj_start : datetime;
  fj_end : datetime;
  fj_isInPerson : option bool;
  fj_canOverlap : option bool;
  fj_blocksCapacity : option bool
}.

Record FlexJson := {
  ej_id : string;
  ej_priority : string;
  ej_durationMin : Z;
  ej_isInPerson : option bool;
  ej_canOverlap : option bool;
  ej_currentStart : option datetime;
  ej_window : string;
  ej_windowStart : option datetime;
  ej_windowEnd : option datetime
}.

Record Weights := {
  move_w : gmap string Z;
  dist_w : gmap string Z;
  offpref_w : gmap string Z;
  crossday_w : gmap string Z
}.

Record Policy := {
  activeDays : list Z;
  dayStart : option (Z * Z);
  dayEnd : option (Z * Z);
  eventBufferMinutes : option Z;
  schedulingLeadMinutes : option Z
}.

Record Payload := {
  horizon_start : datetime;
  horizon_end : datetime;
  slotMinutes : Z;
  preferred : list (datetime * datetime);
  ev_fixed : list FixedJson;
  ev_newFixed : list FixedJson;
  ev_movable : list FlexJson;
  ev_new : list FlexJson;
  weights : Weights;
  policy : Policy
}.

(** The output document; instants are left unformatted. *)
Record PlacedRec := { pl_id : string; pl_start : datetime; pl_end : datetime }.

Record MovedRec := {
  mv_id : string;
  mv_fromStart : datetime;
  mv_toStart : datetime;
  mv_reason : string
}.

Record UnplacedRec := { un_id : string; un_reason : string }.

Record Diagnostics := { hardConflicts : list string; summary : string }.

Record Output := {
  placed : list PlacedRec;
  moved : list MovedRec;
  unplaced : list UnplacedRec;
  score : option Z;
  diagnostics : Diagnostics
}.

(* ===================================================================== *)
(** ** Candidate generation *)
(* ===================================================================== *)

Definition is_weekend (dt : datetime) : bool := 5 <=? weekday dt.

Definition expand_window_slots (ev : FlexibleEvent) (h : Horizon) (now_slot : Z)
  : list Z :=
  if String.eqb (window ev) "PRONTO" then
    let a := Z.max now_slot 0 in
    let b := Z.min (now_slot + ceil_div (48 * 60) (slot_minutes h)) (total_slots h) in
    py_range a b
  else if String.eqb (window ev) "SEMANA" then
    let start := start_dt h in
    let wd := isoweekday start in
    let monday := midnight (start - timedelta_days (wd - 1)) in
    let sunday_end := monday + timedelta_days 7 in
    let a := Z.max (dt_to_slot h monday) 0 in
    let b := Z.min (dt_to_slot h sunday_end) (total_slots h) in
    py_range a b
  else if String.eqb (window ev) "MES" then
    let start := start_dt h in
    let month_start := first_of_month (dt_year start) (dt_month start) in
    let next_month :=
      if dt_month start =? 12 then first_of_month (dt_year start + 1) 1
      else first_of_month (dt_year start) (dt_month start + 1) in
    let a := Z.max (dt_to_slot h month_start) 0 in
    let b := Z.min (dt_to_slot h next_month) (total_slots h) in
    py_range a b
  else if String.eqb (window ev) "RANGO" then
    match window_start ev, window_end ev with
    | Some ws, Some we =>
        let a := Z.max ws 0 in
        let b := Z.min we (total_slots h) in
        py_range a b
    | _, _ => py_range 0 0
    end
  else py_range 0 (total_slots h).

(** The inner loop of [remove_conflicting_starts]: does start [s] collide
    with one of the blocking intervals of [fixed]? *)
Fixpoint has_conflict (s dur : Z) (fixed : list FixedEvent) (buffer_slots : Z) : bool :=
  match fixed with
  | [] => false
  | f :: rest =>
      if negb (blocks_capacity f) then has_conflict s dur rest buffer_slots
      else if negb ((s + dur + buffer_slots <=? start_slot f)
                    || (end_slot f + buffer_slots <=? s))
      then true
      else has_conflict s dur rest buffer_slots
  end.

Fixpoint remove_conflicting_loop (starts : list Z) (dur : Z)
    (fixed : list FixedEvent) (buffer_slots : Z) : list Z :=
  match starts with
  | [] => []
  | s :: rest =>
      if has_conflict s dur fixed buffer_slots
      then remove_conflicting_loop rest dur fixed buffer_slots
      else s :: remove_conflicting_loop rest dur fixed buffer_slots
  end.

Definition remove_conflicting_starts (starts : list Z) (dur : Z)
    (fixed : list FixedEvent) (buffer_slots : Z) : list Z :=
  match fixed with
  | [] => starts
  | _ => remove_conflicting_loop starts dur fixed buffer_slots
  end.

Definition reduce_candidates (priority : string) (starts : list Z) (k : nat) : list Z :=
  take k starts.

(* ===================================================================== *)
(** ** Costs *)
(* ===================================================================== *)

Definition count_offpref_slots (s dur : Z) (preferred_set : gset Z) : Z :=
  foldr (fun t acc => if decide (t ∈ preferred_set) then acc else 1 + acc)
        0 (py_range s (s + dur)).

Definition crosses_day (s dur : Z) (h : Horizon) : Z :=
  if dur <=? 0 then 0
  else
    let d1 := day_index (slot_to_dt h s) in
    let d2 := day_index (slot_to_dt h (s + dur - 1)) in
    if decide (d1 = d2) then 0 else 1.

(* ===================================================================== *)
(** ** The CP-SAT model, as far as [solve_schedule] builds and reads it *)
(* ===================================================================== *)

(** A Boolean variable is the index of its [NewBoolVar] call. *)
Record IntervalVar := {
  iv_start : Z;
  iv_size : Z;
  iv_end : Z;
  iv_presence : option nat;   (* the literal of an optional interval *)
  iv_name : string
}.

Record CpModel := {
  bool_vars : list string;            (* names, in creation order *)
  sum_eq_one : list (list nat);       (* one [Add(sum(xs) == 1)] per event *)
  no_overlap : list (list IntervalVar);  (* the [AddNoOverlap] calls *)
  minimize : list (Z * nat)           (* the terms [c * x]; none is the constant 0 *)
}.

Inductive CpStatus := UNKNOWN | MODEL_INVALID | FEASIBLE | INFEASIBLE | OPTIMAL.

Record CpSolverResponse := {
  status : CpStatus;
  Value : nat -> Z
}.

(** [status in (cp_model.OPTIMAL, cp_model.FEASIBLE)]. *)
Definition status_ok (st : CpStatus) : bool :=
  match st with
  | OPTIMAL | FEASIBLE => true
  | _ => false
  end.

(** What the constraints mean, for stating what a solver owes its caller. *)
Definition interval_active (val : nat -> Z) (iv : IntervalVar) : Prop :=
  match iv_presence iv with
  | None => True
  | Some v => val v = 1
  end.

Definition intervals_disjoint (a b : IntervalVar) : Prop :=
  iv_end a <= iv_start b \/ iv_end b <= iv_start a.

Definition no_overlap_holds (val : nat -> Z) (ivs : list IntervalVar) : Prop :=
  forall (i j : nat) (a b : IntervalVar),
    (i < j)%nat -> ivs !! i = Some a -> ivs !! j = Some b ->
    interval_active val a -> interval_active val b -> intervals_disjoint a b.

Definition is_boolean (val : nat -> Z) (m : CpModel) : Prop :=
  forall v : nat, (v < length (bool_vars m))%nat -> val v = 0 \/ val v = 1.

Definition cp_satisfies (val : nat -> Z) (m : CpModel) : Prop :=
  is_boolean val m
  /\ Forall (fun xs => foldr (fun v acc => val v + acc) 0 xs = 1) (sum_eq_one m)
  /\ Forall (no_overlap_holds val) (no_overlap m).

Definition cp_satisfiable (m : CpModel) : Prop := exists val, cp_satisfies val m.

(** A solver that finds an assignment whenever there is one. *)
Definition solver_complete (Solve : CpModel -> CpSolverResponse) : Prop :=
  forall m, cp_satisfiable m -> status_ok (status (Solve m)) = true.

(** A solver that never reports success on a model without solution. *)
Definition solver_sound (Solve : CpModel -> CpSolverResponse) : Prop :=
  forall m, status_ok (status (Solve m)) = true -> cp_satisfies (Value (Solve m)) m.

(* ===================================================================== *)
(** ** [solve_schedule], stage by stage *)
(* ===================================================================== *)

(** *** Policy and preferred slots *)

Definition allowed_days_of (pol : Policy) : gset Z :=
  let allowed := list_to_set (List.filter (fun v => (0 <=? v) && (v <=? 6)) (activeDays pol)) in
  if decide (allowed = ∅) then list_to_set (py_range 0 7) else allowed.

Definition buffer_slots_of (pol : Policy) (slot_min : Z) : Z :=
  let buffer_minutes := safe_positive_int (eventBufferMinutes pol) 0 in
  if buffer_minutes =? 0 then 0 else ceil_div buffer_minutes slot_min.

Definition now_slot_of (h : Horizon) (pol : Policy) (now_local : datetime) : Z :=
  let lead_minutes := safe_positive_int (schedulingLeadMinutes pol) 0 in
  Z.max 0 (dt_to_next_slot h (now_local + timedelta_minutes lead_minutes)).

Fixpoint preferred_from_ranges (h : Horizon) (ranges : list (datetime * datetime))
    (acc : gset Z) : gset Z :=
  match ranges with
  | [] => acc
  | (a, b) :: rest =>
      preferred_from_ranges h rest (acc ∪ list_to_set (slots_in_interval h a b))
  end.

(** The [while cur < horizon.end_dt] loop of the fallback; [cur] moves to the
    next midnight at every turn, so [fallback_fuel] turns are enough. *)
Fixpoint preferred_fallback (fuel : nat) (h : Horizon) (allowed_days : gset Z)
    (day_start_tuple day_end_tuple : Z * Z) (cur : datetime) (acc : gset Z) : gset Z :=
  match fuel with
  | O => acc
  | S fuel' =>
      if cur <? end_dt h then
        let acc' :=
          if decide (weekday cur ∈ allowed_days) then
            let a := replace_hm cur day_start_tuple.1 day_start_tuple.2 in
            let b := replace_hm cur day_end_tuple.1 day_end_tuple.2 in
            let ab := if b <=? a
                      then (midnight cur, midnight cur + timedelta_days 1)
                      else (a, b) in
            acc ∪ list_to_set (slots_in_interval h ab.1 ab.2)
          else acc in
        preferred_fallback fuel' h allowed_days day_start_tuple day_end_tuple
          (midnight (cur + timedelta_days 1)) acc'
      else acc
  end.

Definition fallback_fuel (h : Horizon) : nat :=
  Z.to_nat (day_number (end_dt h) - day_number (start_dt h) + 2).

Definition preferred_slots_of (h : Horizon) (pol : Policy)
    (ranges : list (datetime * datetime)) : gset Z :=
  match ranges with
  | [] =>
      preferred_fallback (fallback_fuel h) h (allowed_days_of pol)
        (parse_hhmm (dayStart pol) (9, 0)) (parse_hhmm (dayEnd pol) (18, 0))
        (start_dt h) ∅
  | _ => preferred_from_ranges h ranges ∅
  end.

(** *** Fixed events *)

Definition flag (o : option bool) (default : bool) : bool :=
  match o with Some b => b | None => default end.

Definition ingest_fixed_one (h : Horizon) (f : FixedJson) : option FixedEvent :=
  let s := dt_to_slot h (fj_start f) in
  let e := dt_to_slot h (fj_end f) in
  let e := if slot_to_dt h e <? fj_end f then e + 1 else e in
  let s := Z.max s 0 in
  let e := Z.min e (total_slots h) in
  if e <=? s then None
  else Some {| fx_id := fj_id f;
               start_slot := s;
               end_slot := e;
               blocks_capacity :=
                 flag (fj_isInPerson f) true
                 && negb (flag (fj_canOverlap f) false)
                 && flag (fj_blocksCapacity f) true |}.

Fixpoint ingest_fixed (h : Horizon) (fixed_json : list FixedJson) : list FixedEvent :=
  match fixed_json with
  | [] => []
  | f :: rest =>
      match ingest_fixed_one h f with
      | None => ingest_fixed h rest
      | Some fe => fe :: ingest_fixed h rest
      end
  end.

Definition blocking_of (fixed : list FixedEvent) : list FixedEvent :=
  List.filter blocks_capacity fixed.

(** *** UI/UI conflicts *)

Definition ui_overlap (a b : FixedEvent) : bool :=
  negb ((end_slot a <=? start_slot b) || (end_slot b <=? start_slot a)).

Definition conflict_message (a b : FixedEvent) : string :=
  "UI/UI conflict: " +:+ fx_id a +:+ " vs " +:+ fx_id b.

(** The inner loop, [j] from [i + 1]. *)
Fixpoint conflicts_of (a : FixedEvent) (later : list FixedEvent) : list string :=
  match later with
  | [] => []
  | b :: rest =>
      if ui_overlap a b then conflict_message a b :: conflicts_of a rest
      else conflicts_of a rest
  end.

(** The outer loop, [i] over the blocking list. *)
Fixpoint hard_conflicts_of (blocking : list FixedEvent) : list string :=
  match blocking with
  | [] => []
  | a :: rest => conflicts_of a rest ++ hard_conflicts_of rest
  end.

Definition ui_conflict_output (hard_conflicts : list string) : Output :=
  {| placed := [];
     moved := [];
     unplaced := [];
     score := None;
     diagnostics := {| hardConflicts := hard_conflicts;
                       summary := "Infeasible: UI/UI conflict" |} |}.

(** *** Flexible events *)

Definition duration_to_slots (slot_min mins : Z) : Z :=
  Z.max 1 (ceil_div mins slot_min).

Definition ingest_movable (h : Horizon) (m : FlexJson) : FlexibleEvent :=
  {| id := ej_id m;
     priority := ej_priority m;
     duration_slots := duration_to_slots (slot_minutes h) (ej_durationMin m);
     overlap := negb (flag (ej_isInPerson m) true) || flag (ej_canOverlap m) false;
     current_start_slot := dt_to_slot h <$> ej_currentStart m;
     window := ej_window m;
     window_start := dt_to_slot h <$> ej_windowStart m;
     window_end := dt_to_slot h <$> ej_windowEnd m |}.

Definition ingest_new (h : Horizon) (n : FlexJson) : FlexibleEvent :=
  {| id := ej_id n;
     priority := ej_priority n;
     duration_slots := duration_to_slots (slot_minutes h) (ej_durationMin n);
     overlap := negb (flag (ej_isInPerson n) true) || flag (ej_canOverlap n) false;
     current_start_slot := None;
     window := ej_window n;
     window_start := dt_to_slot h <$> ej_windowStart n;
     window_end := dt_to_slot h <$> ej_windowEnd n |}.

Definition ingest_flex (h : Horizon) (p : Payload) : list FlexibleEvent :=
  (ingest_movable h <$> ev_movable p) ++ (ingest_new h <$> ev_new p).

(** *** Candidate domains and the cost table *)

(** The variables of [solve_schedule] that its nested helpers and the
    candidate loop read. *)
Record Env := {
  horizon : Horizon;
  now_slot : Z;
  buffer_slots : Z;
  allowed_days : gset Z;
  preferred_slots : gset Z;
  fixed_blocking : list FixedEvent;
  env_weights : Weights
}.

(** The inner [for t in range(s, s + dur)] loop with its [break]. *)
Definition fully_preferred (preferred_set : gset Z) (dur s : Z) : bool :=
  forallb (fun t => bool_decide (t ∈ preferred_set)) (py_range s (s + dur)).

Definition filter_to_preferred_if_possible (preferred_set : gset Z)
    (starts : list Z) (dur : Z) : list Z :=
  let preferred_starts :=
    List.filter (fully_preferred preferred_set dur) starts in
  match preferred_starts with
  | [] => starts
  | _ => preferred_starts
  end.

Definition day_allowed (h : Horizon) (allowed : gset Z) (dur s : Z) : bool :=
  bool_decide (weekday (slot_to_dt h s) ∈ allowed)
  && bool_decide (weekday (slot_to_dt h (s + dur - 1)) ∈ allowed).

Definition filter_allowed_days (h : Horizon) (allowed : gset Z)
    (starts : list Z) (dur : Z) : list Z :=
  if (7 <=? size allowed)%nat then starts
  else List.filter (day_allowed h allowed dur) starts.

(** [sorted(set(l))]. *)
Definition sorted_set (l : list Z) : list Z := merge_sort Z.le (remove_dups l).

(** Lines 503-515: the minimum lead time. *)
Definition lead_time_filter (e : FlexibleEvent) (now : Z) (base_range : list Z)
  : list Z :=
  if (String.eqb (priority e) "UnI" || String.eqb (priority e) "InU") && (0 <? now)
  then
    let filtered := List.filter (fun s => now <=? s) base_range in
    let filtered :=
      match current_start_slot e with
      | Some c =>
          if (c <? now) && bool_decide (c ∈ base_range)
          then filtered ++ [c] else filtered
      | None => filtered
      end in
    match filtered with
    | [] => filtered
    | _ => sorted_set filtered
    end
  else base_range.

(** Lines 519-521: the filter against the blocking fixed intervals. *)
Definition fixed_collision_filter (e : FlexibleEvent) (blocking : list FixedEvent)
    (buffer_for_event : Z) (starts : list Z) : list Z :=
  if negb (overlap e) && (match blocking with [] => false | _ => true end)
  then remove_conflicting_starts starts (duration_slots e) blocking buffer_for_event
  else starts.

Definition buffer_for (env : Env) (e : FlexibleEvent) : Z :=
  if overlap e then 0 else buffer_slots env.

Definition latest_start_of (env : Env) (e : FlexibleEvent) : Z :=
  total_slots (horizon env) - (duration_slots e + buffer_for env e).

(** Lines 498-528, for an event whose [latest_start] is not negative. *)
Definition event_starts (env : Env) (e : FlexibleEvent) : list Z :=
  let base_range := expand_window_slots e (horizon env) (now_slot env) in
  let base_range :=
    List.filter (fun s => (0 <=? s) && (s <=? latest_start_of env e)) base_range in
  let base_range :=
    filter_allowed_days (horizon env) (allowed_days env) base_range (duration_slots e) in
  let base_range := lead_time_filter e (now_slot env) base_range in
  let starts := base_range in
  let starts := fixed_collision_filter e (fixed_blocking env) (buffer_for env e) starts in
  let starts :=
    filter_to_preferred_if_possible (preferred_slots env) starts (duration_slots e) in
  let starts := merge_sort Z.le starts in
  reduce_candidates (priority e) starts 300.

(** Lines 532-546: the cost record of candidate [s].  A weight is read only
    where the source evaluates its subscript. *)
Definition candidate_cost (env : Env) (e : FlexibleEvent) (s : Z) : option Costs :=
  wd ← dist_w (env_weights env) !! priority e;
  let dist_cost := Z.max 0 (s - now_slot env) * wd in
  let offpref_slots := count_offpref_slots s (duration_slots e) (preferred_slots env) in
  wo ← offpref_w (env_weights env) !! priority e;
  let offpref_cost := offpref_slots * wo in
  cross_cost ←
    (if crosses_day s (duration_slots e) (horizon env) =? 0 then Some 0
     else crossday_w (env_weights env) !! priority e);
  move_cost ←
    match current_start_slot e with
    | None => Some 0
    | Some c => if s =? c then Some 0 else move_w (env_weights env) !! priority e
    end;
  let total := dist_cost + offpref_cost + cross_cost + move_cost in
  Some {| total := total;
          dist := dist_cost;
          offpref := offpref_cost;
          crossday := cross_cost;
          movecost := move_cost |}.

Fixpoint cost_loop (env : Env) (e : FlexibleEvent) (starts : list Z)
    (costs : gmap (string * Z) Costs) : option (gmap (string * Z) Costs) :=
  match starts with
  | [] => Some costs
  | s :: rest =>
      c ← candidate_cost env e s;
      cost_loop env e rest (<[(id e, s) := c]> costs)
  end.

(** One turn of [for e in flex] (lines 489-548). *)
Definition candidates_step (env : Env) (e : FlexibleEvent)
    (st : gmap string (list Z) * gmap (string * Z) Costs)
  : option (gmap string (list Z) * gmap (string * Z) Costs) :=
  if latest_start_of env e <? 0 then Some (<[id e := []]> st.1, st.2)
  else
    let starts := event_starts env e in
    costs ← cost_loop env e starts st.2;
    Some (<[id e := starts]> st.1, costs).

Fixpoint candidates_loop (env : Env) (flex : list FlexibleEvent)
    (st : gmap string (list Z) * gmap (string * Z) Costs)
  : option (gmap string (list Z) * gmap (string * Z) Costs) :=
  match flex with
  | [] => Some st
  | e :: rest =>
      st' ← candidates_step env e st;
      candidates_loop env rest st'
  end.

(** [candidates.get(ev.id)] read as a truth value. *)
Definition has_candidates (candidates : gmap string (list Z)) (ev : FlexibleEvent) : bool :=
  match candidates !! id ev with
  | Some (_ :: _) => true
  | _ => false
  end.

Definition immediate_unplaced_of (candidates : gmap string (list Z))
    (flex : list FlexibleEvent) : list UnplacedRec :=
  (fun ev => {| un_id := id ev; un_reason := "NoFeasibleCandidates" |})
    <$> List.filter (fun ev => negb (has_candidates candidates ev)) flex.

Definition with_candidates (candidates : gmap string (list Z))
    (flex : list FlexibleEvent) : list FlexibleEvent :=
  List.filter (has_candidates candidates) flex.

(** *** Building the model *)

Record Builder := {
  b_vars : list string;
  b_x_vars : gmap (string * Z) nat;
  b_intervals : list IntervalVar;
  b_sums : list (list nat)
}.

Definition var_name (ev : FlexibleEvent) (s : Z) : string :=
  "x_" +:+ id ev +:+ "_" +:+ pretty s.

Definition interval_name (ev : FlexibleEvent) (s : Z) : string :=
  "I_" +:+ id ev +:+ "_" +:+ pretty s.

(** The inner loop of lines 563-575; [xs] collects the event's literals. *)
Fixpoint vars_loop (buf : Z) (ev : FlexibleEvent) (cands : list Z)
    (b : Builder) (xs : list nat) : Builder * list nat :=
  match cands with
  | [] => (b, xs)
  | s :: rest =>
      let v := length (b_vars b) in
      let ivs :=
        if negb (overlap ev) then
          let extra := if negb (overlap ev) then buf else 0 in
          let start := s in
          let duration := duration_slots ev + extra in
          let end_ := s + duration in
          b_intervals b ++ [ {| iv_start := start; iv_size := duration; iv_end := end_;
                                iv_presence := Some v;
                                iv_name := interval_name ev s |} ]
        else b_intervals b in
      vars_loop buf ev rest
        {| b_vars := b_vars b ++ [var_name ev s];
           b_x_vars := <[(id ev, s) := v]> (b_x_vars b);
           b_intervals := ivs;
           b_sums := b_sums b |}
        (xs ++ [v])
  end.

Fixpoint events_loop (buf : Z) (candidates : gmap string (list Z))
    (flex : list FlexibleEvent) (b : Builder) : option Builder :=
  match flex with
  | [] => Some b
  | ev :: rest =>
      cands ← candidates !! id ev;
      let '(b', xs) := vars_loop buf ev cands b [] in
      events_loop buf candidates rest
        {| b_vars := b_vars b';
           b_x_vars := b_x_vars b';
           b_intervals := b_intervals b';
           b_sums := b_sums b' ++ [xs] |}
  end.

Definition fixed_interval (f : FixedEvent) : IntervalVar :=
  {| iv_start := start_slot f;
     iv_size := end_slot f - start_slot f;
     iv_end := end_slot f;
     iv_presence := None;
     iv_name := "F_" +:+ fx_id f |}.

Fixpoint objective_inner (costs : gmap (string * Z) Costs)
    (x_vars : gmap (string * Z) nat) (ev : FlexibleEvent) (cands : list Z)
    (obj_terms : list (Z * nat)) : option (list (Z * nat)) :=
  match cands with
  | [] => Some obj_terms
  | s :: rest =>
      c ← total <$> costs !! (id ev, s);
      if c =? 0 then objective_inner costs x_vars ev rest obj_terms
      else
        v ← x_vars !! (id ev, s);
        objective_inner costs x_vars ev rest (obj_terms ++ [(c, v)])
  end.

Fixpoint objective_loop (candidates : gmap string (list Z))
    (costs : gmap (string * Z) Costs) (x_vars : gmap (string * Z) nat)
    (flex : list FlexibleEvent) (obj_terms : list (Z * nat))
  : option (list (Z * nat)) :=
  match flex with
  | [] => Some obj_terms
  | ev :: rest =>
      cands ← candidates !! id ev;
      terms ← objective_inner costs x_vars ev cands obj_terms;
      objective_loop candidates costs x_vars rest terms
  end.

(** Lines 555-599: the model and the literal table. *)
Definition build_model (buf : Z) (blocking : list FixedEvent)
    (candidates : gmap string (list Z)) (costs : gmap (string * Z) Costs)
    (flex : list FlexibleEvent) : option (CpModel * gmap (string * Z) nat) :=
  b ← events_loop buf candidates flex
         {| b_vars := []; b_x_vars := ∅; b_intervals := []; b_sums := [] |};
  let intervals_to_block := b_intervals b ++ (fixed_interval <$> blocking) in
  obj_terms ← objective_loop candidates costs (b_x_vars b) flex [];
  Some ({| bool_vars := b_vars b;
           sum_eq_one := b_sums b;
           no_overlap := match intervals_to_block with
                         | [] => []
                         | _ => [intervals_to_block]
                         end;
           minimize := obj_terms |},
        b_x_vars b).

(** *** Reading the assignment back *)

(** The inner loop of lines 617-621: the first candidate whose literal is 1,
    with its total cost. *)
Fixpoint chosen_start (resp : CpSolverResponse) (x_vars : gmap (string * Z) nat)
    (costs : gmap (string * Z) Costs) (ev : FlexibleEvent) (cands : list Z)
  : option (option (Z * Z)) :=
  match cands with
  | [] => Some None
  | s :: rest =>
      v ← x_vars !! (id ev, s);
      if Value resp v =? 1 then
        c ← total <$> costs !! (id ev, s);
        Some (Some (s, c))
      else chosen_start resp x_vars costs ev rest
  end.

Record Projection := {
  r_placed : list PlacedRec;
  r_moved : list MovedRec;
  r_unplaced : list UnplacedRec;
  r_total_cost : Z
}.

Definition moved_record (h : Horizon) (ev : FlexibleEvent) (chosen_s : Z)
  : list MovedRec :=
  match current_start_slot ev with
  | Some c =>
      if negb (c =? chosen_s) then
        [ {| mv_id := id ev;
             mv_fromStart := slot_to_dt h c;
             mv_toStart := slot_to_dt h chosen_s;
             mv_reason := "RepositionedByPolicy" |} ]
      else []
  | None => []
  end.

(** The loop of lines 615-638. *)
Fixpoint project_loop (h : Horizon) (resp : CpSolverResponse)
    (candidates : gmap string (list Z)) (costs : gmap (string * Z) Costs)
    (x_vars : gmap (string * Z) nat) (flex : list FlexibleEvent) (r : Projection)
  : option Projection :=
  match flex with
  | [] => Some r
  | ev :: rest =>
      cands ← candidates !! id ev;
      chosen ← chosen_start resp x_vars costs ev cands;
      match chosen with
      | None =>
          project_loop h resp candidates costs x_vars rest
            {| r_placed := r_placed r;
               r_moved := r_moved r;
               r_unplaced := r_unplaced r
                 ++ [ {| un_id := id ev; un_reason := "NoChosenStart" |} ];
               r_total_cost := r_total_cost r |}
      | Some (chosen_s, c) =>
          project_loop h resp candidates costs x_vars rest
            {| r_placed := r_placed r
                 ++ [ {| pl_id := id ev;
                         pl_start := slot_to_dt h chosen_s;
                         pl_end := slot_to_dt h (chosen_s + duration_slots ev) |} ];
               r_moved := r_moved r ++ moved_record h ev chosen_s;
               r_unplaced := r_unplaced r;
               r_total_cost := r_total_cost r + c |}
      end
  end.

Definition success_summary (n_placed n_moved n_unplaced : nat) : string :=
  "Placed " +:+ pretty n_placed +:+ ", moved " +:+ pretty n_moved
    +:+ ", unplaced " +:+ pretty n_unplaced.

Definition infeasible_output (unplaced_now : list UnplacedRec) : Output :=
  {| placed := [];
     moved := [];
     unplaced := unplaced_now;
     score := None;
     diagnostics := {| hardConflicts := ["Infeasible model"];
                       summary := "No solution" |} |}.

(** *** The pieces of the pipeline, named for the statements below *)

Definition horizon_of (p : Payload) : Horizon :=
  {| start_dt := horizon_start p; end_dt := horizon_end p; slot_minutes := slotMinutes p |}.

Definition fixed_of (p : Payload) : list FixedEvent :=
  ingest_fixed (horizon_of p) (ev_fixed p ++ ev_newFixed p).

Definition env_of (now_local : datetime) (p : Payload) : Env :=
  let h := horizon_of p in
  {| horizon := h;
     now_slot := now_slot_of h (policy p) now_local;
     buffer_slots := buffer_slots_of (policy p) (slotMinutes p);
     allowed_days := allowed_days_of (policy p);
     preferred_slots := preferred_slots_of h (policy p) (preferred p);
     fixed_blocking := blocking_of (fixed_of p);
     env_weights := weights p |}.

(** Lines 608-647, after [solver.Solve]. *)
Definition project (h : Horizon) (resp : CpSolverResponse)
    (candidates : gmap string (list Z)) (costs : gmap (string * Z) Costs)
    (x_vars : gmap (string * Z) nat) (immediate_unplaced : list UnplacedRec)
    (flex : list FlexibleEvent) : option Output :=
  if status_ok (status resp) then
    r ← project_loop h resp candidates costs x_vars flex
          {| r_placed := []; r_moved := []; r_unplaced := immediate_unplaced;
             r_total_cost := 0 |};
    Some {| placed := r_placed r;
            moved := r_moved r;
            unplaced := r_unplaced r;
            score := Some (r_total_cost r);
            diagnostics :=
              {| hardConflicts := [];
                 summary := success_summary (length (r_placed r)) (length (r_moved r))
                              (length (r_unplaced r)) |} |}
  else Some (infeasible_output immediate_unplaced).

Definition solve_schedule (Solve : CpModel -> CpSolverResponse)
    (now_local : datetime) (payload : Payload) : option Output :=
  let h := horizon_of payload in
  if negb (post_init h) then None
  else
    let env := env_of now_local payload in
    let hard_conflicts := hard_conflicts_of (blocking_of (fixed_of payload)) in
    match hard_conflicts with
    | _ :: _ => Some (ui_conflict_output hard_conflicts)
    | [] =>
        let flex := ingest_flex h payload in
        '(candidates, costs) ← candidates_loop env flex (∅, ∅);
        let immediate_unplaced := immediate_unplaced_of candidates flex in
        let flex := with_candidates candidates flex in
        '(model, x_vars) ←
          build_model (buffer_slots env) (fixed_blocking env) candidates costs flex;
        let resp := Solve model in
        project h resp candidates costs x_vars immediate_unplaced flex
    end.

(** *** Notions used to state the properties *)

(** The slot interval of a fixed event after rounding outwards and clamping
    to the grid [0, total_slots). *)
Definition clamped_span (h : Horizon) (f : FixedJson) : Z * Z :=
  (Z.max (dt_to_slot h (fj_start f)) 0,
   Z.min (dt_to_next_slot h (fj_end f)) (total_slots h)).

(** The payload with other fixed and newFixed lists. *)
Definition set_fixed (p : Payload) (fixed newFixed : list FixedJson) : Payload :=
  {| horizon_start := horizon_start p;
     horizon_end := horizon_end p;
     slotMinutes := slotMinutes p;
     preferred := preferred p;
     ev_fixed := fixed;
     ev_newFixed := newFixed;
     ev_movable := ev_movable p;
     ev_new := ev_new p;
     weights := weights p;
     policy := policy p |}.

(** The pairs of positions [i < j] of a list, in the order of the two nested
    index loops, and those pairs of blocking intervals that overlap. *)
Definition index_pairs (n : nat) : list (nat * nat) :=
  flat_map (fun i => (fun j => (i, j)) <$> seq (S i) (n - S i)) (seq 0 n).

Definition strictly_overlap (a b : FixedEvent) : Prop :=
  ~ (end_slot a <= start_slot b \/ end_slot b <= start_slot a).

Definition offending_pairs (blocking : list FixedEvent) : list (FixedEvent * FixedEvent) :=
  omap (fun ij : nat * nat =>
          a ← blocking !! ij.1;
          b ← blocking !! ij.2;
          if decide (strictly_overlap a b) then Some (a, b) else None)
       (index_pairs (length blocking)).

(** *** Sample inputs *)

(** A movable event currently placed at slot 3. *)
Definition ev_c4 : FlexibleEvent :=
  {| id := "m"; priority := "InU"; duration_slots := 2; overlap := false;
     current_start_slot := Some 3; window := "SEMANA";
     window_start := None; window_end := None |}.

(** *** The tables and the model of a run *)

(** The candidate domain the loop records for [e]. *)
Definition domain_of (env : Env) (e : FlexibleEvent) : list Z :=
  if latest_start_of env e <? 0 then [] else event_starts env e.

(** The candidate and cost tables [solve_schedule] has built when it
    reaches line 550. *)
Definition tables_of (now_local : datetime) (p : Payload)
  : option (gmap string (list Z) * gmap (string * Z) Costs) :=
  candidates_loop (env_of now_local p) (ingest_flex (horizon_of p) p) (∅, ∅).

(** The model it hands to the solver, with the literal table. *)
Definition model_of (now_local : datetime) (p : Payload)
  : option (CpModel * gmap (string * Z) nat) :=
  '(candidates, costs) ← tables_of now_local p;
  build_model (buffer_slots (env_of now_local p)) (fixed_blocking (env_of now_local p))
    candidates costs (with_candidates candidates (ingest_flex (horizon_of p) p)).

Definition no_ui_conflict (p : Payload) : Prop :=
  hard_conflicts_of (blocking_of (fixed_of p)) = [].

Definition weights_nonneg (w : Weights) : Prop :=
  forall (m : gmap string Z) (k : string) (v : Z),
    m ∈ [move_w w; dist_w w; offpref_w w; crossday_w w] ->
    m !! k = Some v -> 0 <= v.


(** The number of slots of [s, s + dur) outside the preference set. *)
Definition offpref_count (preferred_set : gset Z) (s dur : Z) : Z :=
  Z.of_nat (length (filter (fun t => t ∉ preferred_set) (py_range s (s + dur)))).

(** The start the projector reads for [ev], with its total cost. *)
Definition choice (resp : CpSolverResponse) (candidates : gmap string (list Z))
    (costs : gmap (string * Z) Costs) (x_vars : gmap (string * Z) nat)
    (ev : FlexibleEvent) : option (Z * Z) :=
  match candidates !! id ev ≫= chosen_start resp x_vars costs ev with
  | Some (Some sc) => Some sc
  | _ => None
  end.

(** The total cost the table holds for a placed record. *)
Definition placed_slot (h : Horizon) (r : PlacedRec) : Z := dt_to_slot h (pl_start r).

Definition table_total (costs : gmap (string * Z) Costs) (h : Horizon) (r : PlacedRec) : Z :=
  match costs !! (pl_id r, placed_slot h r) with
  | Some c => total c
  | None => 0
  end.

Definition sum_list (l : list Z) : Z := foldr Z.add 0 l.

(** Every event of [flex] is in exactly one of [placed] and [unplaced], and
    every moved record belongs to a placed event. *)
Definition unplaced_complete (flex : list FlexibleEvent) (out : Output) : Prop :=
  (forall e, e ∈ flex ->
     (id e ∈ (pl_id <$> placed out) /\ (id e ∉ (un_id <$> unplaced out)))
     \/ ((id e ∉ (pl_id <$> placed out)) /\ id e ∈ (un_id <$> unplaced out)))
  /\ (forall m, m ∈ moved out -> mv_id m ∈ (pl_id <$> placed out)).

(** Monday 2025-01-06, 00:00, and a time of that day. *)
Definition day0 : datetime := 20094 * us_per_day.
Definition at_time (hh mm : Z) : datetime := day0 + timedelta_minutes (hh * 60 + mm).

Definition per_priority (uni inu : Z) : gmap string Z :=
  <["UnI" := uni]> (<["InU" := inu]> ∅).

Definition sample_weights : Weights :=
  {| move_w := per_priority 20 10;
     dist_w := per_priority 4 1;
     offpref_w := per_priority 1 3;
     crossday_w := per_priority 2 1 |}.

Definition default_policy : Policy :=
  {| activeDays := []; dayStart := None; dayEnd := None;
     eventBufferMinutes := None; schedulingLeadMinutes := None |}.

Definition new_event (name window_tag : string) (duration_min : Z)
    (ws we : option datetime) : FlexJson :=
  {| ej_id := name; ej_priority := "UnI"; ej_durationMin := duration_min;
     ej_isInPerson := Some true; ej_canOverlap := Some false;
     ej_currentStart := None; ej_window := window_tag;
     ej_windowStart := ws; ej_windowEnd := we |}.

Definition fixed_event (name : string) (a b : datetime) : FixedJson :=
  {| fj_id := name; fj_start := a; fj_end := b;
     fj_isInPerson := None; fj_canOverlap := None; fj_blocksCapacity := Some true |}.

Definition one_day (fixed : list FixedJson) (movable new : list FlexJson) : Payload :=
  {| horizon_start := day0;
     horizon_end := day0 + us_per_day;
     slotMinutes := 30;
     preferred := [(at_time 9 0, at_time 18 0)];
     ev_fixed := fixed;
     ev_newFixed := [];
     ev_movable := movable;
     ev_new := new;
     weights := sample_weights;
     policy := default_policy |}.

(** One new one-hour event, "soon". *)
Definition happy_payload : Payload :=
  one_day [] [] [new_event "a" "PRONTO" 60 None None].

(** Two blocking fixed events, 10:00-11:00 and 10:30-11:30, and one new event. *)
Definition conflict_payload : Payload :=
  one_day [fixed_event "f1" (at_time 10 0) (at_time 11 0);
           fixed_event "f2" (at_time 10 30) (at_time 11 30)]
          [] [new_event "a" "PRONTO" 60 None None].

(** Two new half-hour events that can only start at 10:00. *)
Definition clash_payload : Payload :=
  one_day [] []
    [new_event "a" "RANGO" 30 (Some (at_time 10 0)) (Some (at_time 10 30));
     new_event "b" "RANGO" 30 (Some (at_time 10 0)) (Some (at_time 10 30))].

(** Two new half-hour events under one identifier, one of each priority. *)
Definition repeat_payload : Payload :=
  one_day [] []
    [new_event "a" "RANGO" 30 (Some (at_time 10 0)) (Some (at_time 10 30));
     {| ej_id := "a"; ej_priority := "InU"; ej_durationMin := 30;
        ej_isInPerson := Some true; ej_canOverlap := Some false;
        ej_currentStart := None; ej_window := "RANGO";
        ej_windowStart := Some (at_time 10 0);
        ej_windowEnd := Some (at_time 11 0) |}].

Definition first_a : FlexibleEvent :=
  ingest_new (horizon_of repeat_payload)
    (new_event "a" "RANGO" 30 (Some (at_time 10 0)) (Some (at_time 10 30))).

Definition second_a : FlexibleEvent :=
  ingest_new (horizon_of repeat_payload)
    {| ej_id := "a"; ej_priority := "InU"; ej_durationMin := 30;
       ej_isInPerson := Some true; ej_canOverlap := Some false;
       ej_currentStart := None; ej_window := "RANGO";
       ej_windowStart := Some (at_time 10 0);
       ej_windowEnd := Some (at_time 11 0) |}.

(** A blocking fixed event at noon and two new half-hour events, each with
    one possible start. *)
Definition pair_payload : Payload :=
  one_day [fixed_event "f1" (at_time 12 0) (at_time 13 0)] []
    [new_event "a" "RANGO" 30 (Some (at_time 10 0)) (Some (at_time 10 30));
     new_event "b" "RANGO" 30 (Some (at_time 11 0)) (Some (at_time 11 30))].

Definition pair_a : FlexibleEvent :=
  ingest_new (horizon_of pair_payload)
    (new_event "a" "RANGO" 30 (Some (at_time 10 0)) (Some (at_time 10 30))).

Definition pair_b : FlexibleEvent :=
  ingest_new (horizon_of pair_payload)
    (new_event "b" "RANGO" 30 (Some (at_time 11 0)) (Some (at_time 11 30))).

(** A movable half-hour event now at 10:00 that may start at 10:00 or 10:30. *)
Definition shift_payload : Payload :=
  one_day []
    [ {| ej_id := "m"; ej_priority := "InU"; ej_durationMin := 30;
         ej_isInPerson := Some true; ej_canOverlap := Some false;
         ej_currentStart := Some (at_time 10 0); ej_window := "RANGO";
         ej_windowStart := Some (at_time 10 0);
         ej_windowEnd := Some (at_time 11 0) |} ]
    [].

(** A fixed event and a new event whose explicit range has no bounds. *)
Definition no_domain_payload : Payload :=
  one_day [fixed_event "f1" (at_time 10 0) (at_time 11 0)] []
          [new_event "a" "RANGO" 60 None None].

(** A movable one-hour event now at 14:00, "this week". *)
Definition movable_payload : Payload :=
  one_day [] 
    [ {| ej_id := "m"; ej_priority := "InU"; ej_durationMin := 60;
         ej_isInPerson := Some true; ej_canOverlap := Some false;
         ej_currentStart := Some (at_time 14 0); ej_window := "SEMANA";
         ej_windowStart := None; ej_windowEnd := None |} ]
    [new_event "a" "PRONTO" 60 None None].

(** Solvers for the sample runs: one that sets the literals listed in
    [ones], one that gives up. *)
Definition solver_setting (ones : list nat) (m : CpModel) : CpSolverResponse :=
  {| status := OPTIMAL; Value := fun v => if bool_decide (v ∈ ones) then 1 else 0 |}.

Definition solver_infeasible (m : CpModel) : CpSolverResponse :=
  {| status := INFEASIBLE; Value := fun _ => 0 |}.

(** What the cost model asks of the record [c] of candidate [(e, s)]. *)
Definition cost_spec (env : Env) (e : FlexibleEvent) (s : Z) (c : Costs) : Prop :=
  let w := env_weights env in
  let first_day := day_index (slot_to_dt (horizon env) s) in
  let last_day := day_index (slot_to_dt (horizon env) (s + duration_slots e - 1)) in
  total c = dist c + offpref c + crossday c + movecost c
  /\ (exists wd, dist_w w !! priority e = Some wd
                 /\ dist c = Z.max 0 (s - now_slot env) * wd)
  /\ (exists wo, offpref_w w !! priority e = Some wo
                 /\ offpref c
                    = offpref_count (preferred_slots env) s (duration_slots e) * wo)
  /\ (first_day <> last_day -> crossday_w w !! priority e = Some (crossday c))
  /\ (first_day = last_day -> crossday c = 0)
  /\ (current_start_slot e = None \/ current_start_slot e = Some s -> movecost c = 0)
  /\ (forall c0, current_start_slot e = Some c0 -> c0 <> s ->
                 move_w w !! priority e = Some (movecost c))
  /\ (weights_nonneg w ->
      0 <= dist c /\ 0 <= offpref c /\ 0 <= crossday c /\ 0 <= movecost c).

(** The records the projector emits for [ev] placed at [chosen_s]. *)
Definition placed_record (h : Horizon) (ev : FlexibleEvent) (chosen_s : Z) : PlacedRec :=
  {| pl_id := id ev;
     pl_start := slot_to_dt h chosen_s;
     pl_end := slot_to_dt h (chosen_s + duration_slots ev) |}.

Definition no_chosen_start (ev : FlexibleEvent) : UnplacedRec :=
  {| un_id := id ev; un_reason := "NoChosenStart" |}.

Definition no_feasible_candidates (ev : FlexibleEvent) : UnplacedRec :=
  {| un_id := id ev; un_reason := "NoFeasibleCandidates" |}.

(** The tables hold what the later subscripts read: a cost record for every
    recorded candidate, a literal for every candidate of a modelled event. *)
Definition costs_cover (candidates : gmap string (list Z))
    (costs : gmap (string * Z) Costs) : Prop :=
  forall (i : string) (starts : list Z) (s : Z),
    candidates !! i = Some starts -> s ∈ starts -> is_Some (costs !! (i, s)).

Definition vars_cover (candidates : gmap string (list Z))
    (x_vars : gmap (string * Z) nat) (flex : list FlexibleEvent) : Prop :=
  forall (ev : FlexibleEvent) (starts : list Z) (s : Z),
    ev ∈ flex -> candidates !! id ev = Some starts -> s ∈ starts ->
    is_Some (x_vars !! (id ev, s)).

(** What the projection loop adds to its four accumulators. *)
Definition placed_of (h : Horizon) (resp : CpSolverResponse)
    (candidates : gmap string (list Z)) (costs : gmap (string * Z) Costs)
    (x_vars : gmap (string * Z) nat) (flex : list FlexibleEvent) : list PlacedRec :=
  omap (fun ev => (fun sc : Z * Z => placed_record h ev sc.1)
                    <$> choice resp candidates costs x_vars ev) flex.

Definition moved_of (h : Horizon) (resp : CpSolverResponse)
    (candidates : gmap string (list Z)) (costs : gmap (string * Z) Costs)
    (x_vars : gmap (string * Z) nat) (flex : list FlexibleEvent) : list MovedRec :=
  flat_map (fun ev => match choice resp candidates costs x_vars ev with
                      | Some sc => moved_record h ev sc.1
                      | None => []
                      end) flex.

Definition unchosen_of (resp : CpSolverResponse)
    (candidates : gmap string (list Z)) (costs : gmap (string * Z) Costs)
    (x_vars : gmap (string * Z) nat) (flex : list FlexibleEvent) : list UnplacedRec :=
  omap (fun ev => match choice resp candidates costs x_vars ev with
                  | Some _ => None
                  | None => Some (no_chosen_start ev)
                  end) flex.

Definition cost_of (resp : CpSolverResponse)
    (candidates : gmap string (list Z)) (costs : gmap (string * Z) Costs)
    (x_vars : gmap (string * Z) nat) (flex : list FlexibleEvent) : Z :=
  sum_list (omap (fun ev => snd <$> choice resp candidates costs x_vars ev) flex).

(** The model of [clash_payload]: both events have the single candidate 20. *)
Definition clash_model : CpModel :=
  {| bool_vars := ["x_a_20"; "x_b_20"];
     sum_eq_one := [[0%nat]; [1%nat]];
     no_overlap :=
       [[ {| iv_start := 20; iv_size := 1; iv_end := 21;
             iv_presence := Some 0%nat; iv_name := "I_a_20" |};
          {| iv_start := 20; iv_size := 1; iv_end := 21;
             iv_presence := Some 1%nat; iv_name := "I_b_20" |} ]];
     minimize := [(16, 0%nat); (16, 1%nat)] |}.

(** A movable event now at 23:30, whose hour no longer fits the day. *)
Definition late_event : FlexJson :=
  {| ej_id := "m"; ej_priority := "InU"; ej_durationMin := 60;
     ej_isInPerson := Some true; ej_canOverlap := Some false;
     ej_currentStart := Some (at_time 23 30); ej_window := "SEMANA";
     ej_windowStart := None; ej_windowEnd := None |}.

Definition late_payload : Payload := one_day [] [late_event] [].

(** A new event whose priority has no weight. *)
Definition odd_event : FlexJson :=
  {| ej_id := "x"; ej_priority := "UI"; ej_durationMin := 60;
     ej_isInPerson := Some true; ej_canOverlap := Some false;
     ej_currentStart := None; ej_window := "PRONTO";
     ej_windowStart := None; ej_windowEnd := None |}.

(** A horizon of 45 minutes: two 30-minute slots, the second one partial. *)
Definition short_horizon : Horizon :=
  {| start_dt := day0; end_dt := day0 + timedelta_minutes 45; slot_minutes := 30 |}.

(** *** Notions used to state the further properties *)

(** The preferred window of the day with number [d] under the fallback:
    from [day_start] to [day_end], or the whole day when the end is not
    after the start. *)
Definition day_window (day_start day_end : Z * Z) (d : Z) : datetime * datetime :=
  let a := d * us_per_day + timedelta_minutes (day_start.1 * 60 + day_start.2) in
  let b := d * us_per_day + timedelta_minutes (day_end.1 * 60 + day_end.2) in
  if b <=? a then (d * us_per_day, d * us_per_day + timedelta_days 1) else (a, b).

(** The days the fallback visits: the day of the horizon start when the
    horizon is not empty, and every later day whose midnight is before the
    horizon end. *)
Definition day_visited (h : Horizon) (d : Z) : Prop :=
  (d = day_number (start_dt h) /\ start_dt h < end_dt h)
  \/ (day_number (start_dt h) < d /\ d * us_per_day < end_dt h).

(** The optional interval the builder creates for candidate [s] of [ev]
    under literal [v]. *)
Definition event_interval (buf : Z) (ev : FlexibleEvent) (s : Z) (v : nat) : IntervalVar :=
  {| iv_start := s;
     iv_size := duration_slots ev + buf;
     iv_end := s + (duration_slots ev + buf);
     iv_presence := Some v;
     iv_name := interval_name ev s |}.

(** Every literal of the table is a created variable, and no two keys share
    a literal. *)
Definition vars_bounded (b : Builder) : Prop :=
  forall k v, b_x_vars b !! k = Some v -> (v < length (b_vars b))%nat.

Definition vars_injective (x_vars : gmap (string * Z) nat) : Prop :=
  forall k1 k2 v, x_vars !! k1 = Some v -> x_vars !! k2 = Some v -> k1 = k2.

(** The candidate table gives every event of [flex] a duplicate-free list. *)
Definition candidates_ready (candidates : gmap string (list Z))
    (flex : list FlexibleEvent) : Prop :=
  forall ev, ev ∈ flex -> exists cands, candidates !! id ev = Some cands /\ NoDup cands.

(** What the builder owes each event of [flex]: a literal per candidate,
    with its interval when the event may not overlap, and an exactly-one
    constraint over exactly those literals. *)
Definition event_modelled (buf : Z) (candidates : gmap string (list Z))
    (b : Builder) (ev : FlexibleEvent) : Prop :=
  exists cands xs,
    candidates !! id ev = Some cands
    /\ xs ∈ b_sums b
    /\ (forall v, v ∈ xs <-> exists s, s ∈ cands /\ b_x_vars b !! (id ev, s) = Some v)
    /\ forall s, s ∈ cands ->
         exists v, b_x_vars b !! (id ev, s) = Some v
                   /\ (overlap ev = false -> event_interval buf ev s v ∈ b_intervals b).

(** The number of candidates the table holds for the events of [flex]. *)
Definition candidate_total (candidates : gmap string (list Z))
    (flex : list FlexibleEvent) : nat :=
  foldr (fun ev n => (length (default [] (candidates !! id ev)) + n)%nat) 0%nat flex.

(* ===================================================================== *)
(** * Properties *)
(* ===================================================================== *)

(** ** The calendar and the grid on known dates *)

Example civil_epoch : civil_from_days 0 = (1970, 1, 1).
Proof. reflexivity. Qed.

Example civil_2025 : civil_from_days 20094 = (2025, 1, 6).
Proof. reflexivity. Qed.

Example days_2025 : days_from_civil 2025 1 6 = 20094.
Proof. reflexivity. Qed.

Example weekday_2025 : weekday (20094 * us_per_day) = 0.
Proof. reflexivity. Qed.

Example civil_leap : civil_from_days (days_from_civil 2024 2 29) = (2024, 2, 29).
Proof. reflexivity. Qed.

Example civil_1969 : civil_from_days (-1) = (1969, 12, 31).
Proof. reflexivity. Qed.

Section Grid.
Variable h : Horizon.
Hypothesis Hh : post_init h = true.

Lemma slot_minutes_pos : 0 < slot_minutes h.
Proof using Hh.
  unfold post_init in Hh. apply andb_prop in Hh as [_ H]. lia.
Qed.


Lemma slot_delta_pos : 0 < slot_delta h.
Proof using Hh.
  unfold slot_delta, timedelta_minutes, us_per_minute.
  pose proof slot_minutes_pos. lia.
Qed.




Lemma dt_to_slot_bounds (dt : datetime) :
  slot_to_dt h (dt_to_slot h dt) <= dt < slot_to_dt h (dt_to_slot h dt + 1).
Proof using Hh.
  unfold slot_to_dt, dt_to_slot.
  pose proof slot_delta_pos as Hp.
  pose proof (Z.div_mod (dt - start_dt h) (slot_delta h) ltac:(lia)) as E.
  pose proof (Z.mod_pos_bound (dt - start_dt h) (slot_delta h) Hp) as B.
  nia.
Qed.

Lemma dt_to_slot_to_dt (s : Z) : dt_to_slot h (slot_to_dt h s) = s.
Proof using Hh.
  unfold slot_to_dt, dt_to_slot.
  replace (start_dt h + s * slot_delta h - start_dt h) with (s * slot_delta h) by lia.
  apply Z.div_mul. pose proof slot_delta_pos. lia.
Qed.

Lemma slot_to_dt_mono (s t : Z) : s <= t -> slot_to_dt h s <= slot_to_dt h t.
Proof using Hh.
  unfold slot_to_dt. pose proof slot_delta_pos. nia.
Qed.

Lemma dt_to_slot_mono (a b : datetime) : a <= b -> dt_to_slot h a <= dt_to_slot h b.
Proof using Hh.
  intros. unfold dt_to_slot. apply Z.div_le_mono; [apply slot_delta_pos | lia].
Qed.
End Grid.

(** ** The fallback loop of the preferred slots ends within its fuel *)

Lemma day_number_next_midnight (cur : datetime) :
  day_number (midnight (cur + timedelta_days 1)) = day_number cur + 1.
Proof.
  unfold midnight, day_number, timedelta_days.
  rewrite Z.div_add by (unfold us_per_day; lia).
  rewrite Z.div_mul by (unfold us_per_day; lia). reflexivity.
Qed.

Lemma past_last_day (h : Horizon) (cur : datetime) :
  day_number (end_dt h) < day_number cur -> end_dt h <= cur.
Proof.
  unfold day_number. intros H.
  destruct (Z.le_gt_cases (end_dt h) cur) as [|Hlt]; [assumption | exfalso].
  assert (cur / us_per_day <= end_dt h / us_per_day)
    by (apply Z.div_le_mono; unfold us_per_day; lia).
  lia.
Qed.

(** More turns than [fallback_fuel] change nothing: the loop has left
    through its [while] condition. *)
Lemma preferred_fallback_fuel (h : Horizon) (allowed : gset Z) (ds de : Z * Z)
    (fuel extra : nat) (cur : datetime) (acc : gset Z) :
  day_number (end_dt h) - day_number cur < Z.of_nat fuel ->
  preferred_fallback (fuel + extra) h allowed ds de cur acc
  = preferred_fallback fuel h allowed ds de cur acc.
Proof.
  revert cur acc. induction fuel as [|fuel IH]; intros cur acc Hfuel.
  - assert (Hend : end_dt h <= cur) by (apply past_last_day; lia).
    destruct extra as [|extra]; [reflexivity|]. cbn.
    destruct (Z.ltb_spec cur (end_dt h)); [lia | reflexivity].
  - cbn. destruct (Z.ltb_spec cur (end_dt h)); [|reflexivity].
    apply IH. rewrite day_number_next_midnight. lia.
Qed.

Lemma preferred_fallback_enough (h : Horizon) (allowed : gset Z) (ds de : Z * Z)
    (extra : nat) :
  preferred_fallback (fallback_fuel h + extra) h allowed ds de (start_dt h) ∅
  = preferred_fallback (fallback_fuel h) h allowed ds de (start_dt h) ∅.
Proof.
  apply preferred_fallback_fuel. unfold fallback_fuel.
  destruct (Z.le_gt_cases 0 (day_number (end_dt h) - day_number (start_dt h) + 2)); lia.
Qed.

(** ** Fixed-event ingest *)

Lemma ingest_fixed_app (h : Horizon) (l1 l2 : list FixedJson) :
  ingest_fixed h (l1 ++ l2) = ingest_fixed h l1 ++ ingest_fixed h l2.
Proof.
  induction l1 as [|f l1 IH]; simpl; [reflexivity|].
  destruct (ingest_fixed_one h f); simpl; congruence.
Qed.

Lemma elem_of_ingest_fixed (h : Horizon) (l : list FixedJson) (fe : FixedEvent) :
  fe ∈ ingest_fixed h l <-> exists f, f ∈ l /\ ingest_fixed_one h f = Some fe.
Proof.
  induction l as [|f l IH]; simpl.
  - split; [intros H; inversion H | intros (f & H & _); inversion H].
  - destruct (ingest_fixed_one h f) as [fe'|] eqn:E.
    + rewrite elem_of_cons, IH. split.
      * intros [-> | (f' & Hin & Hf')]; [exists f | exists f']; split; auto.
        -- left.
        -- right; assumption.
      * intros (f' & Hin & Hf'). apply elem_of_cons in Hin as [-> | Hin].
        -- left. congruence.
        -- right. exists f'. auto.
    + rewrite IH. split.
      * intros (f' & Hin & Hf'). exists f'. split; [right|]; assumption.
      * intros (f' & Hin & Hf'). apply elem_of_cons in Hin as [-> | Hin].
        -- congruence.
        -- exists f'. auto.
Qed.

Lemma ingest_fixed_one_span (h : Horizon) (f : FixedJson) :
  ingest_fixed_one h f =
    if (clamped_span h f).2 <=? (clamped_span h f).1 then None
    else Some {| fx_id := fj_id f;
                 start_slot := (clamped_span h f).1;
                 end_slot := (clamped_span h f).2;
                 blocks_capacity :=
                   flag (fj_isInPerson f) true
                   && negb (flag (fj_canOverlap f) false)
                   && flag (fj_blocksCapacity f) true |}.
Proof. reflexivity. Qed.

Lemma ingest_fixed_one_bounds (h : Horizon) (f : FixedJson) (fe : FixedEvent) :
  ingest_fixed_one h f = Some fe ->
  0 <= start_slot fe /\ start_slot fe < end_slot fe /\ end_slot fe <= total_slots h.
Proof.
  rewrite ingest_fixed_one_span. unfold clamped_span. simpl.
  destruct (Z.leb_spec (Z.min (dt_to_next_slot h (fj_end f)) (total_slots h))
                       (Z.max (dt_to_slot h (fj_start f)) 0)); [discriminate|].
  intros [= <-]. simpl. lia.
Qed.

Lemma elem_of_blocking_of (fixed : list FixedEvent) (f : FixedEvent) :
  f ∈ blocking_of fixed <-> f ∈ fixed /\ blocks_capacity f = true.
Proof.
  unfold blocking_of. rewrite !list_elem_of_In, filter_In. reflexivity.
Qed.

Lemma elem_of_conflicts_of (a : FixedEvent) (later : list FixedEvent) (msg : string) :
  msg ∈ conflicts_of a later ->
  exists b, b ∈ later /\ ui_overlap a b = true /\ msg = conflict_message a b.
Proof.
  induction later as [|b later IH]; simpl; [intros H; inversion H|].
  destruct (ui_overlap a b) eqn:E.
  - intros [-> | Hin]%elem_of_cons.
    + exists b. split; [left | auto].
    + destruct (IH Hin) as (b' & ? & ? & ?). exists b'. split; [right|]; auto.
  - intros Hin. destruct (IH Hin) as (b' & ? & ? & ?). exists b'. split; [right|]; auto.
Qed.

Lemma elem_of_hard_conflicts_of (blocking : list FixedEvent) (msg : string) :
  msg ∈ hard_conflicts_of blocking ->
  exists a b, a ∈ blocking /\ b ∈ blocking /\ ui_overlap a b = true
              /\ msg = conflict_message a b.
Proof.
  induction blocking as [|a rest IH]; simpl; [intros H; inversion H|].
  intros [Hin | Hin]%elem_of_app.
  - destruct (elem_of_conflicts_of _ _ _ Hin) as (b & ? & ? & ?).
    exists a, b. repeat split; auto; [left | right; assumption].
  - destruct (IH Hin) as (a' & b & ? & ? & ? & ?).
    exists a', b. repeat split; auto; right; assumption.
Qed.

(** [solve_schedule] reads the fixed lists only through their ingest. *)
Lemma solve_schedule_fixed_ext (Solve : CpModel -> CpSolverResponse)
    (now_local : datetime) (p : Payload) (fixed newFixed : list FixedJson) :
  ingest_fixed (horizon_of p) (fixed ++ newFixed) = fixed_of p ->
  solve_schedule Solve now_local (set_fixed p fixed newFixed)
  = solve_schedule Solve now_local p.
Proof.
  intros E.
  assert (Hf : fixed_of (set_fixed p fixed newFixed) = fixed_of p) by exact E.
  assert (He : env_of now_local (set_fixed p fixed newFixed) = env_of now_local p).
  { unfold env_of. rewrite Hf. reflexivity. }
  unfold solve_schedule. rewrite He, Hf. reflexivity.
Qed.

Lemma dt_to_next_slot_before_start (h : Horizon) (dt : datetime) :
  post_init h = true -> dt <= start_dt h -> dt_to_next_slot h dt <= 0.
Proof.
  intros Hh Hdt. unfold dt_to_next_slot.
  pose proof (dt_to_slot_bounds h Hh dt) as [Hlo Hhi].
  pose proof (slot_delta_pos h Hh) as Hp.
  unfold slot_to_dt in *.
  destruct (Z.ltb_spec (start_dt h + dt_to_slot h dt * slot_delta h) dt); nia.
Qed.

(** An event that ends by the horizon start, or starts at or after the end
    of the last slot, has an empty clamped span. *)
Lemma outside_grid_dropped (h : Horizon) (f : FixedJson) :
  post_init h = true ->
  fj_end f <= start_dt h \/ slot_to_dt h (total_slots h) <= fj_start f ->
  ingest_fixed_one h f = None.
Proof.
  intros Hh Hout. rewrite ingest_fixed_one_span.
  destruct (Z.leb_spec (clamped_span h f).2 (clamped_span h f).1) as [|Hlt];
    [reflexivity | exfalso].
  unfold clamped_span in Hlt. simpl in Hlt.
  destruct Hout as [Hend | Hstart].
  - pose proof (dt_to_next_slot_before_start h _ Hh Hend). lia.
  - pose proof (dt_to_slot_mono h Hh _ _ Hstart) as Hm.
    rewrite dt_to_slot_to_dt in Hm by assumption. lia.
Qed.

(** C10: a fixed or newFixed event kept by the ingest has
    [0 <= start_slot < end_slot <= total_slots]; an event is dropped exactly
    when its slot interval is empty after clamping (in particular when it
    ends by the horizon start or begins at or after the end of the last
    slot); a dropped event leaves the ingested list, hence the blocking
    intervals and the whole result of [solve_schedule], as if it had not
    been in the input, and every UI/UI diagnostic names two kept blocking
    events. *)
Theorem C10_fixed_ingest_bounds_and_drops (h : Horizon) (fixed_json : list FixedJson) :
  (forall fe, fe ∈ ingest_fixed h fixed_json ->
     0 <= start_slot fe /\ start_slot fe < end_slot fe /\ end_slot fe <= total_slots h)
  /\ (forall f, (clamped_span h f).2 <= (clamped_span h f).1 <-> ingest_fixed_one h f = None)
  /\ (post_init h = true ->
      forall f, fj_end f <= start_dt h \/ slot_to_dt h (total_slots h) <= fj_start f ->
                ingest_fixed_one h f = None)
  /\ (forall pre f post,
        fixed_json = pre ++ f :: post -> ingest_fixed_one h f = None ->
        ingest_fixed h fixed_json = ingest_fixed h (pre ++ post))
  /\ (forall msg,
        msg ∈ hard_conflicts_of (blocking_of (ingest_fixed h fixed_json)) ->
        exists fa fb a b,
          fa ∈ fixed_json /\ fb ∈ fixed_json
          /\ ingest_fixed_one h fa = Some a /\ ingest_fixed_one h fb = Some b
          /\ blocks_capacity a = true /\ blocks_capacity b = true
          /\ msg = conflict_message a b)
  /\ (forall Solve now_local p pre f post,
        horizon_of p = h ->
        ev_fixed p ++ ev_newFixed p = pre ++ f :: post ->
        ingest_fixed_one h f = None ->
        solve_schedule Solve now_local p
        = solve_schedule Solve now_local (set_fixed p pre post)).
Proof.
  repeat split.
  - apply elem_of_ingest_fixed in H as (f & _ & Hf).
    apply (ingest_fixed_one_bounds h f fe Hf).
  - apply elem_of_ingest_fixed in H as (f & _ & Hf).
    apply (ingest_fixed_one_bounds h f fe Hf).
  - apply elem_of_ingest_fixed in H as (f & _ & Hf).
    apply (ingest_fixed_one_bounds h f fe Hf).
  - intros Hle. rewrite ingest_fixed_one_span.
    destruct (Z.leb_spec (clamped_span h f).2 (clamped_span h f).1); [reflexivity | lia].
  - rewrite ingest_fixed_one_span.
    destruct (Z.leb_spec (clamped_span h f).2 (clamped_span h f).1);
      [lia | discriminate].
  - intros Hh f Hout. apply outside_grid_dropped; assumption.
  - intros pre f post -> Hf.
    rewrite !ingest_fixed_app. simpl. rewrite Hf. reflexivity.
  - intros msg Hmsg.
    apply elem_of_hard_conflicts_of in Hmsg as (a & b & Ha & Hb & _ & ->).
    apply elem_of_blocking_of in Ha as [Ha Hba].
    apply elem_of_blocking_of in Hb as [Hb Hbb].
    apply elem_of_ingest_fixed in Ha as (fa & Hfa & Ea).
    apply elem_of_ingest_fixed in Hb as (fb & Hfb & Eb).
    exists fa, fb, a, b. repeat split; assumption.
  - intros Solve now_local p pre f post <- Hp Hf.
    symmetry. apply solve_schedule_fixed_ext.
    unfold fixed_of. rewrite Hp, !ingest_fixed_app. simpl. rewrite Hf. reflexivity.
Qed.

(** ** The UI/UI pre-check *)

Lemma ui_overlap_spec (a b : FixedEvent) :
  ui_overlap a b = true <-> strictly_overlap a b.
Proof.
  unfold ui_overlap, strictly_overlap.
  destruct (Z.leb_spec (end_slot a) (start_slot b)),
           (Z.leb_spec (end_slot b) (start_slot a)); simpl; split;
    try discriminate; try reflexivity; intros; lia.
Qed.

Lemma omap_fmap_compose {A B C : Type} (f : B -> option C) (g : A -> B) (l : list A) :
  omap f (g <$> l) = omap (fun x => f (g x)) l.
Proof.
  induction l as [|x l IH]; [reflexivity|].
  cbn. rewrite <- IH. reflexivity.
Qed.

Lemma omap_pointwise {A B : Type} (f g : A -> option B) (l : list A) :
  (forall x, f x = g x) -> omap f l = omap g l.
Proof.
  intros E. induction l as [|x l IH]; [reflexivity|].
  cbn. rewrite E, IH. reflexivity.
Qed.

(** Reading a list through its positions is reading the list. *)
Lemma omap_lookup_seq {A B : Type} (f : A -> option B) (l : list A) :
  omap (fun j => l !! j ≫= f) (seq 0 (length l)) = omap f l.
Proof.
  induction l as [|x l IH]; [reflexivity|].
  cbn [length seq]. rewrite <- fmap_S_seq. cbn [omap list_omap].
  rewrite omap_fmap_compose. cbn.
  destruct (f x); [f_equal|]; exact IH.
Qed.
Lemma index_pairs_tail (n k m : nat) :
  flat_map (fun i => (fun j => (i, j)) <$> seq (S i) (S n - S i)) (seq (S k) m)
  = (fun ij : nat * nat => (S ij.1, S ij.2))
      <$> flat_map (fun i => (fun j => (i, j)) <$> seq (S i) (n - S i)) (seq k m).
Proof.
  revert k. induction m as [|m IH]; intros k; [reflexivity|].
  cbn [seq flat_map]. rewrite fmap_app, IH. f_equal.
  rewrite <- list_fmap_compose.
  replace (S n - S (S k))%nat with (n - S k)%nat by lia.
  rewrite <- (fmap_S_seq (S k)), <- list_fmap_compose. reflexivity.
Qed.

Lemma index_pairs_S (n : nat) :
  index_pairs (S n)
  = ((fun j => (0%nat, j)) <$> seq 1 n)
    ++ ((fun ij : nat * nat => (S ij.1, S ij.2)) <$> index_pairs n).
Proof.
  unfold index_pairs. cbn [seq flat_map].
  rewrite index_pairs_tail.
  replace (S n - 1)%nat with n by lia. reflexivity.
Qed.

Lemma conflicts_of_omap (a : FixedEvent) (later : list FixedEvent) :
  conflicts_of a later
  = (fun ab : FixedEvent * FixedEvent => conflict_message ab.1 ab.2)
      <$> omap (fun b => if decide (strictly_overlap a b) then Some (a, b) else None)
               later.
Proof.
  induction later as [|b later IH]; [reflexivity|].
  cbn. destruct (ui_overlap a b) eqn:E.
  - apply ui_overlap_spec in E. destruct (decide (strictly_overlap a b)); [|tauto].
    cbn. rewrite IH. reflexivity.
  - destruct (decide (strictly_overlap a b)) as [Hs|]; [|assumption].
    apply ui_overlap_spec in Hs. congruence.
Qed.

(** The two nested loops list one message per pair of positions [i < j]
    whose intervals overlap, in the order of the loops. *)
Lemma hard_conflicts_offending (blocking : list FixedEvent) :
  hard_conflicts_of blocking
  = (fun ab : FixedEvent * FixedEvent => conflict_message ab.1 ab.2)
      <$> offending_pairs blocking.
Proof.
  induction blocking as [|a rest IH]; [reflexivity|].
  unfold offending_pairs. cbn [length hard_conflicts_of].
  rewrite index_pairs_S, omap_app, fmap_app. f_equal.
  - rewrite conflicts_of_omap. f_equal.
    rewrite <- fmap_S_seq, !omap_fmap_compose.
    rewrite <- (omap_lookup_seq _ rest). apply omap_pointwise.
    intros j. cbn. destruct (rest !! j); reflexivity.
  - rewrite IH. f_equal. unfold offending_pairs.
    rewrite omap_fmap_compose. apply omap_pointwise.
    intros [i j]. reflexivity.
Qed.

Lemma elem_of_index_pairs (n i j : nat) :
  (i, j) ∈ index_pairs n <-> (i < j < n)%nat.
Proof.
  unfold index_pairs. rewrite list_elem_of_In, in_flat_map. split.
  - intros (i' & Hi' & Hin). apply in_seq in Hi'.
    apply list_elem_of_In, list_elem_of_fmap in Hin as (j' & [= -> ->] & Hj').
    apply list_elem_of_In, in_seq in Hj'. lia.
  - intros Hij. exists i. split; [apply in_seq; lia|].
    apply list_elem_of_In, list_elem_of_fmap. exists j. split; [reflexivity|].
    apply list_elem_of_In, in_seq. lia.
Qed.

Lemma elem_of_offending_pairs (blocking : list FixedEvent) (a b : FixedEvent) :
  (a, b) ∈ offending_pairs blocking
  <-> exists i j, (i < j)%nat /\ blocking !! i = Some a /\ blocking !! j = Some b
                  /\ strictly_overlap a b.
Proof.
  unfold offending_pairs. rewrite list_elem_of_omap. split.
  - intros ([i j] & Hin & Hf). apply elem_of_index_pairs in Hin.
    cbn in Hf. destruct (blocking !! i) as [a'|] eqn:Ea; [|discriminate].
    destruct (blocking !! j) as [b'|] eqn:Eb; [|discriminate]. cbn in Hf.
    destruct (decide (strictly_overlap a' b')); [|discriminate].
    injection Hf as -> ->. exists i, j. repeat split; auto; lia.
  - intros (i & j & Hij & Ha & Hb & Ho). exists (i, j). split.
    + apply elem_of_index_pairs. apply lookup_lt_Some in Hb. lia.
    + cbn. rewrite Ha. cbn. rewrite Hb. cbn.
      destruct (decide (strictly_overlap a b)); [reflexivity | tauto].
Qed.

(** C2: when two capacity-blocking fixed intervals overlap, [solve_schedule]
    returns, whatever the solver, the clock, the flexible events and the
    weights are, the result with empty [placed], [moved] and [unplaced], no
    score, the summary "Infeasible: UI/UI conflict" and one
    "UI/UI conflict: a vs b" entry per overlapping pair of positions
    [i < j] of the blocking list. *)
Theorem C2_ui_conflict_returns_at_once (Solve : CpModel -> CpSolverResponse)
    (now_local : datetime) (p : Payload) (i j : nat) (a b : FixedEvent) :
  post_init (horizon_of p) = true ->
  (i < j)%nat ->
  blocking_of (fixed_of p) !! i = Some a ->
  blocking_of (fixed_of p) !! j = Some b ->
  ~ (end_slot a <= start_slot b \/ end_slot b <= start_slot a) ->
  solve_schedule Solve now_local p
  = Some {| placed := [];
            moved := [];
            unplaced := [];
            score := None;
            diagnostics :=
              {| hardConflicts :=
                   (fun ab : FixedEvent * FixedEvent =>
                      "UI/UI conflict: " +:+ fx_id ab.1 +:+ " vs " +:+ fx_id ab.2)
                     <$> offending_pairs (blocking_of (fixed_of p));
                 summary := "Infeasible: UI/UI conflict" |} |}.
Proof.
  intros Hh Hij Ha Hb Ho.
  assert (Hin : (a, b) ∈ offending_pairs (blocking_of (fixed_of p))).
  { apply elem_of_offending_pairs. exists i, j. auto. }
  unfold solve_schedule. rewrite Hh. cbn [negb].
  rewrite hard_conflicts_offending.
  destruct (offending_pairs (blocking_of (fixed_of p))) as [|ab l] eqn:E.
  - inversion Hin.
  - reflexivity.
Qed.

(** ** The filters of the candidate-domain builder *)

Lemma elem_of_sorted_set (l : list Z) (s : Z) : s ∈ sorted_set l <-> s ∈ l.
Proof.
  unfold sorted_set. rewrite merge_sort_Permutation. apply elem_of_remove_dups.
Qed.

Lemma NoDup_sorted_set (l : list Z) : NoDup (sorted_set l).
Proof.
  unfold sorted_set. rewrite merge_sort_Permutation. apply NoDup_remove_dups.
Qed.

Lemma elem_of_List_filter {A : Type} (f : A -> bool) (l : list A) (x : A) :
  x ∈ List.filter f l <-> x ∈ l /\ f x = true.
Proof. rewrite !list_elem_of_In. apply filter_In. Qed.

Lemma urgent_or_relevant (e : FlexibleEvent) :
  priority e = "UnI" \/ priority e = "InU" ->
  String.eqb (priority e) "UnI" || String.eqb (priority e) "InU" = true.
Proof.
  intros [-> | ->]; reflexivity.
Qed.

(** C4: for an event of priority UnI or InU and a positive [nowSlot],
    the lead-time filter keeps exactly the starts of the incoming domain
    that are at or after [nowSlot], plus the event's current start when it
    lies below [nowSlot] and was in the incoming domain; the result has no
    duplicate. *)
Theorem C4_lead_time_filter (e : FlexibleEvent) (now : Z) (base_range : list Z) :
  priority e = "UnI" \/ priority e = "InU" ->
  0 < now ->
  (forall s, s ∈ lead_time_filter e now base_range
             <-> s ∈ base_range
                 /\ (now <= s \/ (s < now /\ current_start_slot e = Some s)))
  /\ NoDup (lead_time_filter e now base_range).
Proof.
  intros Hprio Hnow. unfold lead_time_filter.
  rewrite (urgent_or_relevant e Hprio).
  destruct (Z.ltb_spec 0 now) as [_|]; [|lia]. cbn [andb].
  set (filtered :=
         match current_start_slot e with
         | Some c =>
             if (c <? now) && bool_decide (c ∈ base_range)
             then List.filter (fun s => now <=? s) base_range ++ [c]
             else List.filter (fun s => now <=? s) base_range
         | None => List.filter (fun s => now <=? s) base_range
         end).
  assert (Hmem : forall s, s ∈ filtered
                   <-> s ∈ base_range
                       /\ (now <= s \/ (s < now /\ current_start_slot e = Some s))).
  { intros s. subst filtered.
    destruct (current_start_slot e) as [c|].
    - destruct (Z.ltb_spec c now) as [Hc|Hc]; cbn [andb].
      + destruct (bool_decide_reflect (c ∈ base_range)) as [Hin|Hnin].
        * rewrite elem_of_app, elem_of_List_filter, list_elem_of_singleton.
          rewrite Z.leb_le. split.
          -- intros [[? ?] | ->]; auto.
          -- intros [? [? | [? [= ->]]]]; auto.
        * rewrite elem_of_List_filter, Z.leb_le. split.
          -- intros [? ?]; auto.
          -- intros [? [? | [? [= ->]]]]; [auto | contradiction].
      + rewrite elem_of_List_filter, Z.leb_le. split.
        * intros [? ?]; auto.
        * intros [? [? | [? [= ->]]]]; [auto | lia].
    - rewrite elem_of_List_filter, Z.leb_le. split.
      + intros [? ?]; auto.
      + intros [? [? | [? [=]]]]; auto. }
  clearbody filtered. destruct filtered as [|x l].
  - split; [exact Hmem | constructor].
  - split.
    + intros s. rewrite elem_of_sorted_set. apply Hmem.
    + apply NoDup_sorted_set.
Qed.


Lemma C4_lead_time_filter_witness :
  (forall s, s ∈ lead_time_filter ev_c4 10 [1; 3; 9; 10; 12; 12]
             <-> s ∈ [1; 3; 9; 10; 12; 12]
                 /\ (10 <= s \/ (s < 10 /\ current_start_slot ev_c4 = Some s)))
  /\ NoDup (lead_time_filter ev_c4 10 [1; 3; 9; 10; 12; 12]).
Proof.
  apply (C4_lead_time_filter ev_c4 10 [1; 3; 9; 10; 12; 12]).
  - right. reflexivity.
  - lia.
Defined.

Example lead_time_filter_run :
  lead_time_filter ev_c4 10 [1; 3; 9; 10; 12; 12] = [3; 10; 12].
Proof. vm_compute. reflexivity. Qed.

Lemma has_conflict_false (s dur : Z) (fixed : list FixedEvent) (buf : Z) :
  has_conflict s dur fixed buf = false
  <-> forall f, f ∈ fixed -> blocks_capacity f = true ->
                s + dur + buf <= start_slot f \/ end_slot f + buf <= s.
Proof.
  induction fixed as [|f fixed IH]; cbn [has_conflict].
  - split; [intros _ f H; inversion H | reflexivity].
  - destruct (blocks_capacity f) eqn:Eb; cbn [negb].
    + destruct (Z.leb_spec (s + dur + buf) (start_slot f)),
               (Z.leb_spec (end_slot f + buf) s); cbn [orb negb];
        try (rewrite IH; split;
             [ intros H' g [-> | Hg]%elem_of_cons Hbg; [lia | auto]
             | intros H' g Hg Hbg; apply H'; [right; assumption | assumption] ]).
      split; [discriminate|]. intros H'.
      specialize (H' f ltac:(left) Eb). lia.
    + rewrite IH. split.
      * intros H' g [-> | Hg]%elem_of_cons Hbg; [congruence | auto].
      * intros H' g Hg Hbg. apply H'; [right; assumption | assumption].
Qed.

Lemma remove_conflicting_loop_filter (starts : list Z) (dur : Z)
    (fixed : list FixedEvent) (buf : Z) :
  remove_conflicting_loop starts dur fixed buf
  = List.filter (fun s => negb (has_conflict s dur fixed buf)) starts.
Proof.
  induction starts as [|s starts IH]; [reflexivity|].
  cbn. destruct (has_conflict s dur fixed buf); cbn; rewrite IH; reflexivity.
Qed.

(** [remove_conflicting_starts] keeps the order and multiplicity of the
    starts it keeps. *)
Lemma remove_conflicting_starts_filter (starts : list Z) (dur : Z)
    (fixed : list FixedEvent) (buf : Z) :
  remove_conflicting_starts starts dur fixed buf
  = List.filter (fun s => negb (has_conflict s dur fixed buf)) starts.
Proof.
  unfold remove_conflicting_starts. destruct fixed as [|f fixed].
  - cbn. induction starts as [|s starts IH]; [reflexivity|].
    cbn. rewrite <- IH. reflexivity.
  - apply remove_conflicting_loop_filter.
Qed.

Lemma elem_of_remove_conflicting_starts (starts : list Z) (dur : Z)
    (fixed : list FixedEvent) (buf s : Z) :
  s ∈ remove_conflicting_starts starts dur fixed buf
  <-> s ∈ starts
      /\ forall f, f ∈ fixed -> blocks_capacity f = true ->
                   s + dur + buf <= start_slot f \/ end_slot f + buf <= s.
Proof.
  rewrite remove_conflicting_starts_filter, elem_of_List_filter.
  rewrite negb_true_iff, has_conflict_false. reflexivity.
Qed.

(** C5: for an event that may not overlap, the fixed-collision filter keeps
    a start [s] exactly when every capacity-blocking fixed interval [f] has
    [s + dur + buf <= f.start_slot] or [s >= f.end_slot + buf]; fixed events
    that do not block capacity remove nothing; an event that may overlap is
    not filtered. *)
Theorem C5_fixed_collision_filter (e : FlexibleEvent) (fixed : list FixedEvent)
    (buf : Z) (starts : list Z) :
  (forall dur s,
     s ∈ remove_conflicting_starts starts dur fixed buf
     <-> s ∈ starts
         /\ forall f, f ∈ fixed -> blocks_capacity f = true ->
                      s + dur + buf <= start_slot f \/ s >= end_slot f + buf)
  /\ (forall dur,
        (forall f, f ∈ fixed -> blocks_capacity f = false) ->
        remove_conflicting_starts starts dur fixed buf = starts)
  /\ (overlap e = false ->
      forall s,
        s ∈ fixed_collision_filter e (blocking_of fixed) buf starts
        <-> s ∈ starts
            /\ forall f, f ∈ fixed -> blocks_capacity f = true ->
                         s + duration_slots e + buf <= start_slot f
                         \/ s >= end_slot f + buf)
  /\ (overlap e = true ->
      fixed_collision_filter e (blocking_of fixed) buf starts = starts).
Proof.
  split; [|split; [|split]].
  - intros dur s. rewrite elem_of_remove_conflicting_starts.
    split; intros [Hs Hf]; (split; [assumption|]); intros f Hin Hb;
      specialize (Hf f Hin Hb); lia.
  - intros dur Hnb. rewrite remove_conflicting_starts_filter.
    induction starts as [|s starts IH]; [reflexivity|].
    cbn. assert (E : has_conflict s dur fixed buf = false).
    { apply has_conflict_false. intros f Hin Hb. rewrite (Hnb f Hin) in Hb. discriminate. }
    rewrite E. cbn. rewrite IH. reflexivity.
  - intros Ho s. unfold fixed_collision_filter. rewrite Ho. cbn [negb andb].
    assert (Hall : forall P : FixedEvent -> Prop,
               (forall f, f ∈ blocking_of fixed -> blocks_capacity f = true -> P f)
               <-> (forall f, f ∈ fixed -> blocks_capacity f = true -> P f)).
    { intros P. split.
      - intros H f Hin Hb. apply H; [apply elem_of_blocking_of; auto | assumption].
      - intros H f [Hin _]%elem_of_blocking_of Hb. auto. }
    destruct (blocking_of fixed) as [|b bl] eqn:Eb.
    + split.
      * intros Hs. split; [assumption|]. intros f Hin Hb.
        assert (Hf : f ∈ blocking_of fixed) by (apply elem_of_blocking_of; auto).
        rewrite Eb in Hf. inversion Hf.
      * intros [Hs _]. assumption.
    + rewrite elem_of_remove_conflicting_starts, Hall.
      split; intros [Hs Hf]; (split; [assumption|]); intros f Hin Hb;
        specialize (Hf f Hin Hb); lia.
  - intros Ho. unfold fixed_collision_filter. rewrite Ho. reflexivity.
Qed.

(** ** Prefer-preferred-if-possible *)

Lemma elem_of_py_range (a b t : Z) : t ∈ py_range a b <-> a <= t < b.
Proof. unfold py_range. rewrite elem_of_seqZ. lia. Qed.

Lemma fully_preferred_spec (preferred_set : gset Z) (dur s : Z) :
  fully_preferred preferred_set dur s = true
  <-> forall t, s <= t < s + dur -> t ∈ preferred_set.
Proof.
  unfold fully_preferred. rewrite forallb_forall. split.
  - intros H t Ht.
    assert (Hin : In t (py_range s (s + dur))).
    { apply list_elem_of_In, elem_of_py_range. assumption. }
    apply H in Hin. apply bool_decide_eq_true in Hin. exact Hin.
  - intros H t Ht. apply bool_decide_eq_true. apply H.
    apply list_elem_of_In, elem_of_py_range in Ht. assumption.
Qed.

(** C6: the prefer-preferred filter computes the starts [s] whose slots
    [s, s + dur) all belong to the preference set; when there is one it
    returns exactly those, in their order, and otherwise it returns the list
    it was given. *)
Theorem C6_filter_to_preferred (preferred_set : gset Z) (starts : list Z) (dur : Z) :
  let preferred_starts := List.filter (fully_preferred preferred_set dur) starts in
  (forall s, s ∈ preferred_starts
             <-> s ∈ starts /\ forall t, s <= t < s + dur -> t ∈ preferred_set)
  /\ (preferred_starts <> [] ->
      filter_to_preferred_if_possible preferred_set starts dur = preferred_starts)
  /\ (preferred_starts = [] ->
      filter_to_preferred_if_possible preferred_set starts dur = starts)
  /\ ((forall s, s ∈ starts -> ~ forall t, s <= t < s + dur -> t ∈ preferred_set) ->
      filter_to_preferred_if_possible preferred_set starts dur = starts).
Proof.
  intros preferred_starts.
  assert (Hmem : forall s, s ∈ preferred_starts
             <-> s ∈ starts /\ forall t, s <= t < s + dur -> t ∈ preferred_set).
  { intros s. unfold preferred_starts.
    rewrite elem_of_List_filter, fully_preferred_spec. reflexivity. }
  assert (Hne : preferred_starts <> [] ->
            filter_to_preferred_if_possible preferred_set starts dur = preferred_starts).
  { unfold filter_to_preferred_if_possible. fold preferred_starts.
    destruct preferred_starts; [congruence | reflexivity]. }
  assert (He : preferred_starts = [] ->
            filter_to_preferred_if_possible preferred_set starts dur = starts).
  { unfold filter_to_preferred_if_possible. fold preferred_starts.
    intros ->. reflexivity. }
  split; [exact Hmem | split; [exact Hne | split; [exact He |]]].
  intros Hnone. apply He.
  destruct preferred_starts as [|s l] eqn:E; [reflexivity | exfalso].
    assert (Hs : s ∈ s :: l) by left.
    apply Hmem in Hs as [Hs Ht]. exact (Hnone s Hs Ht).
Qed.

(** ** The cost model *)

Lemma count_offpref_slots_spec (s dur : Z) (preferred_set : gset Z) :
  count_offpref_slots s dur preferred_set = offpref_count preferred_set s dur.
Proof.
  unfold count_offpref_slots, offpref_count.
  induction (py_range s (s + dur)) as [|t l IH]; [reflexivity|].
  cbn [foldr]. rewrite filter_cons, IH.
  destruct (decide (t ∈ preferred_set)) as [Hin|Hnin];
    destruct (decide (t ∉ preferred_set)) as [Hn|Hn]; try tauto.
  cbn [length]. lia.
Qed.

Lemma offpref_count_nonneg (preferred_set : gset Z) (s dur : Z) :
  0 <= offpref_count preferred_set s dur.
Proof. unfold offpref_count. lia. Qed.

Lemma crosses_day_spec (s dur : Z) (h : Horizon) :
  1 <= dur ->
  (day_index (slot_to_dt h s) = day_index (slot_to_dt h (s + dur - 1))
   -> crosses_day s dur h = 0)
  /\ (day_index (slot_to_dt h s) <> day_index (slot_to_dt h (s + dur - 1))
      -> crosses_day s dur h = 1).
Proof.
  intros Hd. unfold crosses_day.
  destruct (Z.leb_spec dur 0); [lia|].
  destruct (decide (day_index (slot_to_dt h s) = day_index (slot_to_dt h (s + dur - 1))));
    split; intros; tauto.
Qed.

Lemma candidate_cost_spec (env : Env) (e : FlexibleEvent) (s : Z) (c : Costs) :
  1 <= duration_slots e ->
  candidate_cost env e s = Some c -> cost_spec env e s c.
Proof.
  intros Hd. unfold candidate_cost, cost_spec.
  destruct (dist_w (env_weights env) !! priority e) as [wd|] eqn:Ed; [|discriminate].
  destruct (offpref_w (env_weights env) !! priority e) as [wo|] eqn:Eo; [|discriminate].
  cbn [mbind option_bind].
  destruct (crosses_day_spec s (duration_slots e) (horizon env) Hd) as [Hsame Hdiff].
  set (cross := if crosses_day s (duration_slots e) (horizon env) =? 0 then Some 0
                else crossday_w (env_weights env) !! priority e).
  destruct cross as [cx|] eqn:Ec; [|discriminate]. subst cross.
  set (mv := match current_start_slot e with
             | Some c0 => if s =? c0 then Some 0
                          else move_w (env_weights env) !! priority e
             | None => Some 0
             end).
  destruct mv as [mc|] eqn:Em; [|discriminate]. subst mv.
  cbn [mbind option_bind]. intros [= <-]. cbn.
  rewrite count_offpref_slots_spec.
  assert (Hcx1 : day_index (slot_to_dt (horizon env) s)
                 <> day_index (slot_to_dt (horizon env) (s + duration_slots e - 1))
                 -> crossday_w (env_weights env) !! priority e = Some cx).
  { intros Hne. rewrite (Hdiff Hne) in Ec. exact Ec. }
  assert (Hcx0 : day_index (slot_to_dt (horizon env) s)
                 = day_index (slot_to_dt (horizon env) (s + duration_slots e - 1))
                 -> cx = 0).
  { intros Heq. rewrite (Hsame Heq) in Ec. cbn in Ec. congruence. }
  assert (Hmv0 : current_start_slot e = None \/ current_start_slot e = Some s -> mc = 0).
  { intros [E | E]; rewrite E in Em; [congruence|].
    rewrite Z.eqb_refl in Em. congruence. }
  assert (Hmv1 : forall c0, current_start_slot e = Some c0 -> c0 <> s ->
                            move_w (env_weights env) !! priority e = Some mc).
  { intros c0 E Hne. rewrite E in Em.
    destruct (Z.eqb_spec s c0); [congruence | exact Em]. }
  split; [reflexivity|].
  split; [exists wd; split; reflexivity|].
  split; [exists wo; split; reflexivity|].
  split; [exact Hcx1|]. split; [exact Hcx0|].
  split; [exact Hmv0|]. split; [exact Hmv1|].
  intros Hw.
  pose proof (offpref_count_nonneg (preferred_slots env) s (duration_slots e)).
  assert (0 <= wd) by (apply (Hw (dist_w (env_weights env)) (priority e));
                        [set_solver | assumption]).
  assert (0 <= wo) by (apply (Hw (offpref_w (env_weights env)) (priority e));
                        [set_solver | assumption]).
  assert (0 <= cx).
  { destruct (decide (day_index (slot_to_dt (horizon env) s)
                      = day_index (slot_to_dt (horizon env) (s + duration_slots e - 1))))
      as [Heq|Hne].
    - rewrite (Hcx0 Heq). lia.
    - apply (Hw (crossday_w (env_weights env)) (priority e)); [set_solver | auto]. }
  assert (0 <= mc).
  { destruct (current_start_slot e) as [c0|] eqn:E.
    - destruct (decide (c0 = s)) as [->|Hne].
      + rewrite Hmv0 by auto. lia.
      + apply (Hw (move_w (env_weights env)) (priority e)); [set_solver | eauto].
    - rewrite Hmv0 by auto. lia. }
  repeat split; try assumption; nia.
Qed.

(** ** The candidate loop and its two tables *)

Lemma duration_to_slots_pos (slot_min mins : Z) : 1 <= duration_to_slots slot_min mins.
Proof. unfold duration_to_slots. lia. Qed.

Lemma ingest_flex_duration (h : Horizon) (p : Payload) (e : FlexibleEvent) :
  e ∈ ingest_flex h p -> 1 <= duration_slots e.
Proof.
  unfold ingest_flex. rewrite elem_of_app, !list_elem_of_fmap.
  intros [(j & -> & _) | (j & -> & _)]; apply duration_to_slots_pos.
Qed.

(** After the cost loop of event [e], the keys [(id e, s)] of its starts hold
    the record just computed and every other key is as before. *)
Lemma cost_loop_lookup (env : Env) (e : FlexibleEvent) (starts : list Z)
    (costs costs' : gmap (string * Z) Costs) :
  cost_loop env e starts costs = Some costs' ->
  forall (i : string) (s : Z),
    costs' !! (i, s)
    = if decide (i = id e /\ s ∈ starts) then candidate_cost env e s
      else costs !! (i, s).
Proof.
  revert costs. induction starts as [|s0 rest IH]; intros costs H i s.
  - cbn in H. injection H as <-.
    destruct (decide (i = id e /\ s ∈ [])) as [[_ Hin]|]; [inversion Hin | reflexivity].
  - cbn in H. destruct (candidate_cost env e s0) as [c|] eqn:Ec; [|discriminate].
    cbn in H. rewrite (IH _ H i s).
    destruct (decide (i = id e /\ s ∈ rest)) as [[-> Hin]|Hn].
    + destruct (decide (id e = id e /\ s ∈ s0 :: rest)) as [|Hn']; [reflexivity|].
      exfalso. apply Hn'. split; [reflexivity | right; assumption].
    + destruct (decide (i = id e /\ s ∈ s0 :: rest)) as [[-> Hin]|Hn'].
      * apply elem_of_cons in Hin as [-> | Hin]; [|tauto].
        rewrite lookup_insert_eq. congruence.
      * rewrite lookup_insert_ne; [reflexivity|].
        intros [= <- <-]. apply Hn'. split; [reflexivity | left].
Qed.

Lemma cost_loop_defined (env : Env) (e : FlexibleEvent) (starts : list Z)
    (costs costs' : gmap (string * Z) Costs) :
  cost_loop env e starts costs = Some costs' ->
  forall s, s ∈ starts -> is_Some (candidate_cost env e s).
Proof.
  revert costs. induction starts as [|s0 rest IH]; intros costs H s Hin.
  - inversion Hin.
  - cbn in H. destruct (candidate_cost env e s0) as [c|] eqn:Ec; [|discriminate].
    cbn in H. apply elem_of_cons in Hin as [-> | Hin].
    + rewrite Ec. eauto.
    + eapply IH; eassumption.
Qed.

Lemma candidates_step_spec (env : Env) (e : FlexibleEvent)
    (st st' : gmap string (list Z) * gmap (string * Z) Costs) :
  candidates_step env e st = Some st' ->
  st'.1 = <[id e := domain_of env e]> st.1
  /\ (forall s, s ∈ domain_of env e -> is_Some (candidate_cost env e s))
  /\ forall (i : string) (s : Z),
       st'.2 !! (i, s)
       = if decide (i = id e /\ s ∈ domain_of env e) then candidate_cost env e s
         else st.2 !! (i, s).
Proof.
  unfold candidates_step, domain_of.
  destruct (latest_start_of env e <? 0).
  - intros [= <-]. cbn. split; [reflexivity|]. split.
    + intros s Hin. inversion Hin.
    + intros i s.
      destruct (decide (i = id e /\ s ∈ [])) as [[_ Hin]|]; [inversion Hin | reflexivity].
  - destruct (cost_loop env e (event_starts env e) st.2) as [costs|] eqn:E;
      [|discriminate].
    cbn. intros [= <-]. cbn. split; [reflexivity|]. split.
    + eapply cost_loop_defined; eassumption.
    + eapply cost_loop_lookup; eassumption.
Qed.

(** Events with other identifiers leave the entries of [i] alone. *)
Lemma candidates_loop_frame (env : Env) (flex : list FlexibleEvent)
    (st st' : gmap string (list Z) * gmap (string * Z) Costs) (i : string) :
  candidates_loop env flex st = Some st' ->
  i ∉ (id <$> flex) ->
  st'.1 !! i = st.1 !! i /\ forall s, st'.2 !! (i, s) = st.2 !! (i, s).
Proof.
  revert st. induction flex as [|e rest IH]; intros st H Hni.
  - cbn in H. injection H as <-. auto.
  - cbn in H. destruct (candidates_step env e st) as [st1|] eqn:E1; [|discriminate].
    cbn in H. rewrite fmap_cons, not_elem_of_cons in Hni. destruct Hni as [Hne Hni].
    destruct (IH _ H Hni) as [Hc Hk].
    destruct (candidates_step_spec _ _ _ _ E1) as (Hc1 & _ & Hk1).
    split.
    + rewrite Hc, Hc1. apply lookup_insert_ne. congruence.
    + intros s. rewrite Hk, Hk1.
      destruct (decide (i = id e /\ s ∈ domain_of env e)) as [[-> _]|]; [congruence|].
      reflexivity.
Qed.

(** The tables hold, under an identifier of the input, the domain and the
    cost records of an event that carries it (the last one in input order). *)
Lemma candidates_loop_last (env : Env) (flex : list FlexibleEvent)
    (st st' : gmap string (list Z) * gmap (string * Z) Costs) (i : string) :
  candidates_loop env flex st = Some st' ->
  i ∈ (id <$> flex) ->
  exists e', e' ∈ flex /\ id e' = i
    /\ st'.1 !! i = Some (domain_of env e')
    /\ forall s, s ∈ domain_of env e' ->
                 is_Some (candidate_cost env e' s)
                 /\ st'.2 !! (i, s) = candidate_cost env e' s.
Proof.
  revert st. induction flex as [|e0 rest IH]; intros st H Hin; [inversion Hin|].
  cbn in H. destruct (candidates_step env e0 st) as [st1|] eqn:E1; [|discriminate].
  cbn in H. destruct (decide (i ∈ (id <$> rest))) as [Hlater|Hfresh].
  - destruct (IH _ H Hlater) as (e' & He' & Hid & Hdom & Hcost).
    exists e'. split; [right; assumption | auto].
  - rewrite fmap_cons in Hin. apply elem_of_cons in Hin as [-> | Hin]; [|contradiction].
    destruct (candidates_loop_frame _ _ _ _ (id e0) H Hfresh) as [Hc Hk].
    destruct (candidates_step_spec _ _ _ _ E1) as (Hc1 & Hd1 & Hk1).
    exists e0. split; [left|]. split; [reflexivity|]. split.
    + rewrite Hc, Hc1. apply lookup_insert_eq.
    + intros s Hs. split; [auto|]. rewrite Hk, Hk1.
      destruct (decide (id e0 = id e0 /\ s ∈ domain_of env e0)); tauto.
Qed.

(** The loop over a concatenation runs the first part, then the second. *)
Lemma candidates_loop_app (env : Env) (pre post : list FlexibleEvent)
    (st : gmap string (list Z) * gmap (string * Z) Costs) :
  candidates_loop env (pre ++ post) st
  = candidates_loop env pre st ≫= candidates_loop env post.
Proof.
  revert st. induction pre as [|e0 rest IH]; intros st; [reflexivity|].
  cbn. destruct (candidates_step env e0 st) as [st1|]; [|reflexivity].
  cbn. apply IH.
Qed.

(** C7: for every flexible event [e] and each of its candidate starts [s],
    the record the candidate loop stores under [(e.id, s)] in the turn of [e]
    ([pre] are the events the loop has handled before, [post] the ones it
    handles after) has [total = dist + offPref + crossDay + move], with
    [dist = max(0, s - nowSlot) * distancePerSlot[priority]],
    [offPref] = (slots of [s, s + dur) outside the preference set)
    [* offPreferencePerSlot[priority]], [crossDay = crossDayPerEvent[priority]]
    when the first and the last occupied slot are on different calendar days
    and 0 otherwise, [move = 0] when there is no current start or it is [s]
    and [move[priority]] otherwise; with non-negative weights the four
    components are non-negative.  The table is keyed by [(id, start)]: the
    record is still the entry of the finished table unless a later event
    carries the same identifier. *)
Theorem C7_cost_table (now_local : datetime) (p : Payload)
    (candidates : gmap string (list Z)) (costs : gmap (string * Z) Costs)
    (pre post : list FlexibleEvent) (e : FlexibleEvent) (s : Z) :
  tables_of now_local p = Some (candidates, costs) ->
  ingest_flex (horizon_of p) p = pre ++ e :: post ->
  s ∈ domain_of (env_of now_local p) e ->
  exists st st' c,
    candidates_loop (env_of now_local p) pre (∅, ∅) = Some st
    /\ candidates_step (env_of now_local p) e st = Some st'
    /\ candidates_loop (env_of now_local p) post st' = Some (candidates, costs)
    /\ st'.1 !! id e = Some (domain_of (env_of now_local p) e)
    /\ st'.2 !! (id e, s) = Some c
    /\ cost_spec (env_of now_local p) e s c
    /\ (id e ∉ (id <$> post) ->
        candidates !! id e = Some (domain_of (env_of now_local p) e)
        /\ costs !! (id e, s) = Some c).
Proof.
  intros Ht Hsplit Hs. unfold tables_of in Ht.
  assert (He : e ∈ ingest_flex (horizon_of p) p)
    by (rewrite Hsplit; apply elem_of_app; right; left).
  rewrite Hsplit, candidates_loop_app in Ht.
  destruct (candidates_loop (env_of now_local p) pre (∅, ∅)) as [st|] eqn:Epre;
    [|discriminate].
  cbn in Ht.
  destruct (candidates_step (env_of now_local p) e st) as [st'|] eqn:Estep;
    [|discriminate].
  cbn in Ht.
  destruct (candidates_step_spec _ _ _ _ Estep) as (Hc & Hd & Hk).
  destruct (Hd s Hs) as [c Ec].
  assert (Hrec : st'.2 !! (id e, s) = Some c).
  { rewrite Hk.
    destruct (decide (id e = id e /\ s ∈ domain_of (env_of now_local p) e));
      [assumption | tauto]. }
  assert (Hdom : st'.1 !! id e = Some (domain_of (env_of now_local p) e))
    by (rewrite Hc; apply lookup_insert_eq).
  exists st, st', c.
  split; [reflexivity|]. split; [exact Estep|]. split; [exact Ht|].
  split; [exact Hdom|]. split; [exact Hrec|]. split.
  - apply candidate_cost_spec; [|assumption].
    eapply ingest_flex_duration; eassumption.
  - intros Hfresh.
    destruct (candidates_loop_frame _ _ _ _ (id e) Ht Hfresh) as [Hc' Hk'].
    cbn in Hc', Hk'. rewrite Hc', Hk'. auto.
Qed.

(** ** The tables cover every later subscript *)

Lemma candidates_step_cover (env : Env) (e : FlexibleEvent)
    (st st' : gmap string (list Z) * gmap (string * Z) Costs) :
  candidates_step env e st = Some st' ->
  costs_cover st.1 st.2 -> costs_cover st'.1 st'.2.
Proof.
  intros H Hcov. destruct (candidates_step_spec _ _ _ _ H) as (Hc & Hd & Hk).
  intros i starts s Hi Hs. rewrite Hk. rewrite Hc in Hi.
  destruct (decide (i = id e)) as [->|Hne].
  - rewrite lookup_insert_eq in Hi. injection Hi as <-.
    destruct (decide (id e = id e /\ s ∈ domain_of env e)); [auto | tauto].
  - rewrite lookup_insert_ne in Hi by congruence.
    destruct (decide (i = id e /\ s ∈ domain_of env e)); [tauto|].
    eapply Hcov; eassumption.
Qed.

Lemma candidates_loop_cover (env : Env) (flex : list FlexibleEvent)
    (st st' : gmap string (list Z) * gmap (string * Z) Costs) :
  candidates_loop env flex st = Some st' ->
  costs_cover st.1 st.2 -> costs_cover st'.1 st'.2.
Proof.
  revert st. induction flex as [|e rest IH]; intros st H Hcov.
  - cbn in H. injection H as <-. assumption.
  - cbn in H. destruct (candidates_step env e st) as [st1|] eqn:E1; [|discriminate].
    cbn in H. apply (IH _ H). eapply candidates_step_cover; eassumption.
Qed.

Lemma tables_of_cover (now_local : datetime) (p : Payload)
    (candidates : gmap string (list Z)) (costs : gmap (string * Z) Costs) :
  tables_of now_local p = Some (candidates, costs) -> costs_cover candidates costs.
Proof.
  intros H. apply (candidates_loop_cover _ _ _ _ H).
  intros i starts s Hi. cbn in Hi. rewrite lookup_empty in Hi. discriminate.
Qed.





(** ** The model builder *)

Lemma vars_loop_keys (buf : Z) (ev : FlexibleEvent) (cands : list Z)
    (b : Builder) (xs : list nat) :
  let b' := (vars_loop buf ev cands b xs).1 in
  (forall k, is_Some (b_x_vars b !! k) -> is_Some (b_x_vars b' !! k))
  /\ (forall s, s ∈ cands -> is_Some (b_x_vars b' !! (id ev, s))).
Proof.
  revert b xs. induction cands as [|s0 rest IH]; intros b xs; cbn.
  - split; [auto | intros s Hs; inversion Hs].
  - match goal with |- context [vars_loop buf ev rest ?b1 ?xs1] =>
      destruct (IH b1 xs1) as [Hold Hnew] end.
    cbn in Hold. split.
    + intros k Hk. apply Hold.
      destruct (decide (k = (id ev, s0))) as [->|Hne].
      * rewrite lookup_insert_eq. eauto.
      * rewrite lookup_insert_ne by congruence. assumption.
    + intros s [-> | Hs]%elem_of_cons; [|auto].
      apply Hold. rewrite lookup_insert_eq. eauto.
Qed.

Lemma events_loop_total (buf : Z) (candidates : gmap string (list Z))
    (flex : list FlexibleEvent) (b : Builder) :
  (forall ev, ev ∈ flex -> is_Some (candidates !! id ev)) ->
  exists b', events_loop buf candidates flex b = Some b'
             /\ (forall k, is_Some (b_x_vars b !! k) -> is_Some (b_x_vars b' !! k))
             /\ vars_cover candidates (b_x_vars b') flex.
Proof.
  revert b. induction flex as [|ev rest IH]; intros b Hc; cbn.
  - exists b. split; [reflexivity|]. split; [auto|].
    intros ev starts s Hin. inversion Hin.
  - destruct (Hc ev ltac:(left)) as [cands Ecands]. rewrite Ecands. cbn.
    pose proof (vars_loop_keys buf ev cands b []) as Hkeys.
    destruct (vars_loop buf ev cands b []) as [b1 xs] eqn:Ev. cbn in Hkeys.
    destruct Hkeys as [Hold Hnew].
    match goal with |- context [events_loop buf candidates rest ?b2] =>
      destruct (IH b2) as (b' & Eb' & Hold' & Hcov') end.
    { intros ev' Hev'. apply Hc. right. assumption. }
    cbn in Hold'. exists b'. split; [assumption|]. split.
    + intros k Hk. auto.
    + intros ev' starts s [-> | Hev']%elem_of_cons Hst Hs.
      * apply Hold'. apply Hnew. congruence.
      * eapply Hcov'; eassumption.
Qed.

Lemma objective_inner_total (costs : gmap (string * Z) Costs)
    (x_vars : gmap (string * Z) nat) (ev : FlexibleEvent) (cands : list Z)
    (obj_terms : list (Z * nat)) :
  (forall s, s ∈ cands -> is_Some (costs !! (id ev, s)) /\ is_Some (x_vars !! (id ev, s))) ->
  is_Some (objective_inner costs x_vars ev cands obj_terms).
Proof.
  revert obj_terms. induction cands as [|s rest IH]; intros obj_terms H; cbn; [eauto|].
  destruct (H s ltac:(left)) as [[c Ec] [v Ev]]. rewrite Ec. cbn.
  assert (Hrest : forall s', s' ∈ rest ->
            is_Some (costs !! (id ev, s')) /\ is_Some (x_vars !! (id ev, s'))).
  { intros s' Hs'. apply H. right. assumption. }
  destruct (total c =? 0); [auto|]. rewrite Ev. cbn. auto.
Qed.

Lemma objective_loop_total (candidates : gmap string (list Z))
    (costs : gmap (string * Z) Costs) (x_vars : gmap (string * Z) nat)
    (flex : list FlexibleEvent) (obj_terms : list (Z * nat)) :
  (forall ev, ev ∈ flex -> is_Some (candidates !! id ev)) ->
  costs_cover candidates costs ->
  vars_cover candidates x_vars flex ->
  is_Some (objective_loop candidates costs x_vars flex obj_terms).
Proof.
  revert obj_terms. induction flex as [|ev rest IH]; intros obj_terms Hc Hk Hv; cbn;
    [eauto|].
  destruct (Hc ev ltac:(left)) as [cands Ecands]. rewrite Ecands. cbn.
  destruct (objective_inner_total costs x_vars ev cands obj_terms) as [terms Et].
  { intros s Hs. split; [eapply Hk | eapply Hv]; try eassumption. left. }
  rewrite Et. cbn. apply IH.
  - intros ev' Hev'. apply Hc. right. assumption.
  - assumption.
  - intros ev' starts s Hev'. apply Hv. right. assumption.
Qed.

Lemma with_candidates_has (candidates : gmap string (list Z))
    (flex : list FlexibleEvent) (ev : FlexibleEvent) :
  ev ∈ with_candidates candidates flex
  <-> ev ∈ flex /\ has_candidates candidates ev = true.
Proof. apply elem_of_List_filter. Qed.

Lemma has_candidates_lookup (candidates : gmap string (list Z)) (ev : FlexibleEvent) :
  has_candidates candidates ev = true ->
  exists s starts, candidates !! id ev = Some (s :: starts).
Proof.
  unfold has_candidates. destruct (candidates !! id ev) as [[|s starts]|];
    try discriminate. eauto.
Qed.

Lemma build_model_total (buf : Z) (blocking : list FixedEvent)
    (candidates : gmap string (list Z)) (costs : gmap (string * Z) Costs)
    (flex : list FlexibleEvent) :
  costs_cover candidates costs ->
  exists model x_vars,
    build_model buf blocking candidates costs (with_candidates candidates flex)
    = Some (model, x_vars)
    /\ vars_cover candidates x_vars (with_candidates candidates flex).
Proof.
  intros Hk. unfold build_model.
  assert (Hc : forall ev, ev ∈ with_candidates candidates flex ->
                          is_Some (candidates !! id ev)).
  { intros ev [_ Hh]%with_candidates_has.
    destruct (has_candidates_lookup _ _ Hh) as (s & starts & E). eauto. }
  destruct (events_loop_total buf candidates (with_candidates candidates flex)
              {| b_vars := []; b_x_vars := ∅; b_intervals := []; b_sums := [] |} Hc)
    as (b & Eb & _ & Hv).
  rewrite Eb. cbn.
  destruct (objective_loop_total candidates costs (b_x_vars b)
              (with_candidates candidates flex) [] Hc Hk Hv) as [terms Et].
  rewrite Et. cbn. eauto.
Qed.

Lemma model_of_total (now_local : datetime) (p : Payload)
    (candidates : gmap string (list Z)) (costs : gmap (string * Z) Costs) :
  tables_of now_local p = Some (candidates, costs) ->
  exists model x_vars,
    model_of now_local p = Some (model, x_vars)
    /\ vars_cover candidates x_vars
         (with_candidates candidates (ingest_flex (horizon_of p) p)).
Proof.
  intros Ht. unfold model_of. rewrite Ht. cbn.
  apply build_model_total. eapply tables_of_cover; eassumption.
Qed.

(** ** Reading the assignment back *)

Lemma chosen_start_spec (resp : CpSolverResponse) (x_vars : gmap (string * Z) nat)
    (costs : gmap (string * Z) Costs) (ev : FlexibleEvent) (cands : list Z) (s c : Z) :
  chosen_start resp x_vars costs ev cands = Some (Some (s, c)) ->
  s ∈ cands
  /\ exists v cst, x_vars !! (id ev, s) = Some v /\ Value resp v = 1
                   /\ costs !! (id ev, s) = Some cst /\ total cst = c.
Proof.
  induction cands as [|s0 rest IH]; cbn; [discriminate|].
  destruct (x_vars !! (id ev, s0)) as [v|] eqn:Ev; [|discriminate]. cbn.
  destruct (Z.eqb_spec (Value resp v) 1) as [Hone|Hnot].
  - destruct (costs !! (id ev, s0)) as [cst|] eqn:Ec; [|discriminate]. cbn.
    intros [= <- <-]. split; [left|]. exists v, cst. auto.
  - intros H. destruct (IH H) as [Hin Hex]. split; [right; assumption | assumption].
Qed.

Lemma chosen_start_total (resp : CpSolverResponse) (x_vars : gmap (string * Z) nat)
    (costs : gmap (string * Z) Costs) (ev : FlexibleEvent) (cands : list Z) :
  (forall s, s ∈ cands -> is_Some (costs !! (id ev, s)) /\ is_Some (x_vars !! (id ev, s))) ->
  is_Some (chosen_start resp x_vars costs ev cands).
Proof.
  induction cands as [|s rest IH]; intros H; cbn; [eauto|].
  destruct (H s ltac:(left)) as [[c Ec] [v Ev]]. rewrite Ev. cbn.
  destruct (Value resp v =? 1).
  - rewrite Ec. cbn. eauto.
  - apply IH. intros s' Hs'. apply H. right. assumption.
Qed.

Lemma chosen_start_ext (resp : CpSolverResponse) (x_vars : gmap (string * Z) nat)
    (costs : gmap (string * Z) Costs) (ev1 ev2 : FlexibleEvent) (cands : list Z) :
  id ev1 = id ev2 ->
  chosen_start resp x_vars costs ev1 cands = chosen_start resp x_vars costs ev2 cands.
Proof.
  intros E. induction cands as [|s rest IH]; cbn; [reflexivity|].
  rewrite E, IH. reflexivity.
Qed.

Lemma choice_ext (resp : CpSolverResponse) (candidates : gmap string (list Z))
    (costs : gmap (string * Z) Costs) (x_vars : gmap (string * Z) nat)
    (ev1 ev2 : FlexibleEvent) :
  id ev1 = id ev2 ->
  choice resp candidates costs x_vars ev1 = choice resp candidates costs x_vars ev2.
Proof.
  intros E. unfold choice. rewrite E.
  destruct (candidates !! id ev2) as [cands|]; [|reflexivity]. cbn.
  rewrite (chosen_start_ext _ _ _ ev1 ev2 cands E). reflexivity.
Qed.

Lemma has_candidates_ext (candidates : gmap string (list Z)) (ev1 ev2 : FlexibleEvent) :
  id ev1 = id ev2 -> has_candidates candidates ev1 = has_candidates candidates ev2.
Proof. intros E. unfold has_candidates. rewrite E. reflexivity. Qed.

Lemma choice_spec (resp : CpSolverResponse) (candidates : gmap string (list Z))
    (costs : gmap (string * Z) Costs) (x_vars : gmap (string * Z) nat)
    (ev : FlexibleEvent) (s c : Z) :
  choice resp candidates costs x_vars ev = Some (s, c) ->
  exists starts v cst,
    candidates !! id ev = Some starts /\ s ∈ starts
    /\ x_vars !! (id ev, s) = Some v /\ Value resp v = 1
    /\ costs !! (id ev, s) = Some cst /\ total cst = c.
Proof.
  unfold choice. destruct (candidates !! id ev) as [starts|]; [|discriminate]. cbn.
  destruct (chosen_start resp x_vars costs ev starts) as [[[s' c']|]|] eqn:E;
    try discriminate.
  intros [= -> ->]. destruct (chosen_start_spec _ _ _ _ _ _ _ E) as (Hin & v & cst & ?).
  exists starts, v, cst. tauto.
Qed.

Lemma project_loop_spec (h : Horizon) (resp : CpSolverResponse)
    (candidates : gmap string (list Z)) (costs : gmap (string * Z) Costs)
    (x_vars : gmap (string * Z) nat) (flex : list FlexibleEvent) (r r' : Projection) :
  project_loop h resp candidates costs x_vars flex r = Some r' ->
  r_placed r' = r_placed r ++ placed_of h resp candidates costs x_vars flex
  /\ r_moved r' = r_moved r ++ moved_of h resp candidates costs x_vars flex
  /\ r_unplaced r' = r_unplaced r ++ unchosen_of resp candidates costs x_vars flex
  /\ r_total_cost r' = r_total_cost r + cost_of resp candidates costs x_vars flex.
Proof.
  revert r. induction flex as [|ev rest IH]; intros r H.
  - cbn in H. injection H as <-.
    unfold placed_of, moved_of, unchosen_of, cost_of. cbn.
    rewrite !app_nil_r. repeat split; try reflexivity.
    symmetry. apply Z.add_0_r.
  - cbn in H.
    destruct (candidates !! id ev) as [cands|] eqn:Ec; [|discriminate]. cbn in H.
    destruct (chosen_start resp x_vars costs ev cands) as [ch|] eqn:Ech; [|discriminate].
    cbn in H.
    assert (Hchoice : choice resp candidates costs x_vars ev = ch).
    { unfold choice. rewrite Ec. cbn. rewrite Ech. destruct ch; reflexivity. }
    unfold placed_of, moved_of, unchosen_of, cost_of.
    cbn [omap list_omap flat_map]. rewrite Hchoice.
    destruct ch as [[s c]|]; destruct (IH _ H) as (Hp & Hm & Hu & Ht);
      cbn in Hp, Hm, Hu, Ht; cbn.
    + rewrite Hp, Hm, Hu, Ht. rewrite <- !app_assoc. cbn.
      unfold placed_of, moved_of, unchosen_of, cost_of, placed_record.
      repeat split; try reflexivity. unfold sum_list. lia.
    + rewrite Hp, Hm, Hu, Ht. rewrite <- !app_assoc. cbn.
      unfold placed_of, moved_of, unchosen_of, cost_of, no_chosen_start.
      repeat split; reflexivity.
Qed.

Lemma project_loop_total (h : Horizon) (resp : CpSolverResponse)
    (candidates : gmap string (list Z)) (costs : gmap (string * Z) Costs)
    (x_vars : gmap (string * Z) nat) (flex : list FlexibleEvent) (r : Projection) :
  (forall ev, ev ∈ flex -> is_Some (candidates !! id ev)) ->
  costs_cover candidates costs ->
  vars_cover candidates x_vars flex ->
  is_Some (project_loop h resp candidates costs x_vars flex r).
Proof.
  revert r. induction flex as [|ev rest IH]; intros r Hc Hk Hv; cbn; [eauto|].
  destruct (Hc ev ltac:(left)) as [cands Ecands]. rewrite Ecands. cbn.
  destruct (chosen_start_total resp x_vars costs ev cands) as [ch Ech].
  { intros s Hs. split; [eapply Hk | eapply Hv]; try eassumption. left. }
  rewrite Ech. cbn.
  assert (Hc' : forall ev', ev' ∈ rest -> is_Some (candidates !! id ev')).
  { intros ev' Hev'. apply Hc. right. assumption. }
  assert (Hv' : vars_cover candidates x_vars rest).
  { intros ev' starts s Hev'. apply Hv. right. assumption. }
  destruct ch as [[s c]|]; apply IH; assumption.
Qed.

(** ** [solve_schedule] end to end *)

Lemma solve_schedule_invalid_horizon (Solve : CpModel -> CpSolverResponse)
    (now_local : datetime) (p : Payload) :
  post_init (horizon_of p) = false -> solve_schedule Solve now_local p = None.
Proof. intros H. unfold solve_schedule. rewrite H. reflexivity. Qed.

Lemma solve_schedule_run (Solve : CpModel -> CpSolverResponse)
    (now_local : datetime) (p : Payload)
    (candidates : gmap string (list Z)) (costs : gmap (string * Z) Costs)
    (model : CpModel) (x_vars : gmap (string * Z) nat) :
  post_init (horizon_of p) = true ->
  no_ui_conflict p ->
  tables_of now_local p = Some (candidates, costs) ->
  model_of now_local p = Some (model, x_vars) ->
  solve_schedule Solve now_local p
  = project (horizon_of p) (Solve model) candidates costs x_vars
      (immediate_unplaced_of candidates (ingest_flex (horizon_of p) p))
      (with_candidates candidates (ingest_flex (horizon_of p) p)).
Proof.
  intros Hh Hnc Ht Hm. unfold solve_schedule. rewrite Hh. cbn [negb].
  unfold no_ui_conflict in Hnc. rewrite Hnc.
  unfold model_of in Hm. rewrite Ht in Hm. cbn in Hm.
  unfold tables_of in Ht. rewrite Ht. cbn. rewrite Hm. reflexivity.
Qed.

(** What [solve_schedule] returns when the solver reports no solution: the
    events without candidates, and nothing about the events of the model. *)
Lemma solve_schedule_infeasible (Solve : CpModel -> CpSolverResponse)
    (now_local : datetime) (p : Payload)
    (candidates : gmap string (list Z)) (costs : gmap (string * Z) Costs)
    (model : CpModel) (x_vars : gmap (string * Z) nat) :
  post_init (horizon_of p) = true ->
  no_ui_conflict p ->
  tables_of now_local p = Some (candidates, costs) ->
  model_of now_local p = Some (model, x_vars) ->
  status_ok (status (Solve model)) = false ->
  solve_schedule Solve now_local p
  = Some {| placed := [];
            moved := [];
            unplaced := no_feasible_candidates
                          <$> List.filter (fun ev => negb (has_candidates candidates ev))
                                (ingest_flex (horizon_of p) p);
            score := None;
            diagnostics := {| hardConflicts := ["Infeasible model"];
                              summary := "No solution" |} |}.
Proof.
  intros Hh Hnc Ht Hm Hst.
  rewrite (solve_schedule_run _ _ _ _ _ _ _ Hh Hnc Ht Hm).
  unfold project. rewrite Hst. reflexivity.
Qed.

(** What it returns when the solver reports OPTIMAL or FEASIBLE. *)
Lemma solve_schedule_success (Solve : CpModel -> CpSolverResponse)
    (now_local : datetime) (p : Payload)
    (candidates : gmap string (list Z)) (costs : gmap (string * Z) Costs)
    (model : CpModel) (x_vars : gmap (string * Z) nat) :
  post_init (horizon_of p) = true ->
  no_ui_conflict p ->
  tables_of now_local p = Some (candidates, costs) ->
  model_of now_local p = Some (model, x_vars) ->
  status_ok (status (Solve model)) = true ->
  let h := horizon_of p in
  let flex := ingest_flex h p in
  let modelled := with_candidates candidates flex in
  let placed_now := placed_of h (Solve model) candidates costs x_vars modelled in
  let moved_now := moved_of h (Solve model) candidates costs x_vars modelled in
  let unplaced_now :=
    immediate_unplaced_of candidates flex
    ++ unchosen_of (Solve model) candidates costs x_vars modelled in
  solve_schedule Solve now_local p
  = Some {| placed := placed_now;
            moved := moved_now;
            unplaced := unplaced_now;
            score := Some (cost_of (Solve model) candidates costs x_vars modelled);
            diagnostics :=
              {| hardConflicts := [];
                 summary := success_summary (length placed_now) (length moved_now)
                              (length unplaced_now) |} |}.
Proof.
  intros Hh Hnc Ht Hm Hst h flex modelled placed_now moved_now unplaced_now.
  rewrite (solve_schedule_run _ _ _ _ _ _ _ Hh Hnc Ht Hm).
  unfold project. rewrite Hst.
  destruct (model_of_total _ _ _ _ Ht) as (model' & x_vars' & Hm' & Hv).
  rewrite Hm in Hm'. injection Hm' as <- <-.
  destruct (project_loop_total (horizon_of p) (Solve model) candidates costs x_vars
              (with_candidates candidates (ingest_flex (horizon_of p) p))
              {| r_placed := []; r_moved := [];
                 r_unplaced := immediate_unplaced_of candidates
                                 (ingest_flex (horizon_of p) p);
                 r_total_cost := 0 |}) as [r Er].
  - intros ev [_ Hhas]%with_candidates_has.
    destruct (has_candidates_lookup _ _ Hhas) as (s & starts & E). eauto.
  - eapply tables_of_cover; eassumption.
  - assumption.
  - rewrite Er. cbn.
    destruct (project_loop_spec _ _ _ _ _ _ _ _ Er) as (Hp & Hmv & Hu & Hc).
    cbn in Hp, Hmv, Hu, Hc. rewrite Hp, Hmv, Hu, Hc. reflexivity.
Qed.


(** ** The score *)

Lemma sum_list_cons (x : Z) (l : list Z) : sum_list (x :: l) = x + sum_list l.
Proof. reflexivity. Qed.

Lemma placed_total_sum (h : Horizon) (resp : CpSolverResponse)
    (candidates : gmap string (list Z)) (costs : gmap (string * Z) Costs)
    (x_vars : gmap (string * Z) nat) (flex : list FlexibleEvent) :
  post_init h = true ->
  sum_list (table_total costs h <$> placed_of h resp candidates costs x_vars flex)
  = cost_of resp candidates costs x_vars flex.
Proof.
  intros Hh. unfold placed_of, cost_of.
  induction flex as [|ev rest IH]; [reflexivity|].
  cbn [omap list_omap].
  destruct (choice resp candidates costs x_vars ev) as [[s c]|] eqn:E; cbn.
  - unfold sum_list in IH. rewrite IH. f_equal.
    destruct (choice_spec _ _ _ _ _ _ _ E) as (starts & v & cst & _ & _ & _ & _ & Hc & Ht).
    unfold table_total, placed_slot, placed_record. cbn.
    rewrite dt_to_slot_to_dt by assumption. rewrite Hc. assumption.
  - exact IH.
Qed.

Lemma placed_of_candidates (h : Horizon) (resp : CpSolverResponse)
    (candidates : gmap string (list Z)) (costs : gmap (string * Z) Costs)
    (x_vars : gmap (string * Z) nat) (flex : list FlexibleEvent) (r : PlacedRec) :
  post_init h = true ->
  r ∈ placed_of h resp candidates costs x_vars flex ->
  exists starts c,
    candidates !! pl_id r = Some starts /\ placed_slot h r ∈ starts
    /\ costs !! (pl_id r, placed_slot h r) = Some c.
Proof.
  intros Hh. unfold placed_of. rewrite list_elem_of_omap.
  intros (ev & _ & Hev).
  destruct (choice resp candidates costs x_vars ev) as [[s c]|] eqn:E; [|discriminate].
  cbn in Hev. injection Hev as <-.
  destruct (choice_spec _ _ _ _ _ _ _ E) as (starts & v & cst & Hst & Hin & _ & _ & Hc & _).
  unfold placed_slot, placed_record. cbn.
  rewrite dt_to_slot_to_dt by assumption. eauto.
Qed.

(** C8: on a successful solve the score is an integer, the sum over the
    placed records of the total the cost table holds for the record's event
    and start slot, which is one of that event's candidates. *)
Theorem C8_score_is_sum_of_chosen_costs (Solve : CpModel -> CpSolverResponse)
    (now_local : datetime) (p : Payload)
    (candidates : gmap string (list Z)) (costs : gmap (string * Z) Costs)
    (model : CpModel) (x_vars : gmap (string * Z) nat) :
  post_init (horizon_of p) = true ->
  no_ui_conflict p ->
  tables_of now_local p = Some (candidates, costs) ->
  model_of now_local p = Some (model, x_vars) ->
  status_ok (status (Solve model)) = true ->
  exists out,
    solve_schedule Solve now_local p = Some out
    /\ score out = Some (sum_list (table_total costs (horizon_of p) <$> placed out))
    /\ forall r, r ∈ placed out ->
         exists starts c,
           candidates !! pl_id r = Some starts
           /\ placed_slot (horizon_of p) r ∈ starts
           /\ costs !! (pl_id r, placed_slot (horizon_of p) r) = Some c.
Proof.
  intros Hh Hnc Ht Hm Hst.
  pose proof (solve_schedule_success Solve _ _ _ _ _ _ Hh Hnc Ht Hm Hst) as Hrun.
  cbv zeta in Hrun. eexists. split; [exact Hrun|]. cbn. split.
  - rewrite placed_total_sum by assumption. reflexivity.
  - intros r Hr. eapply placed_of_candidates; eassumption.
Qed.

(** ** Every flexible event is accounted for *)

Lemma elem_of_placed_ids (h : Horizon) (resp : CpSolverResponse)
    (candidates : gmap string (list Z)) (costs : gmap (string * Z) Costs)
    (x_vars : gmap (string * Z) nat) (flex : list FlexibleEvent) (i : string) :
  i ∈ (pl_id <$> placed_of h resp candidates costs x_vars flex)
  <-> exists ev, ev ∈ flex /\ id ev = i
                 /\ is_Some (choice resp candidates costs x_vars ev).
Proof.
  unfold placed_of. rewrite list_elem_of_fmap. split.
  - intros (r & -> & Hr). apply list_elem_of_omap in Hr as (ev & Hev & Hc).
    exists ev. destruct (choice resp candidates costs x_vars ev) as [sc|];
      [|discriminate].
    cbn in Hc. injection Hc as <-. split; [assumption|]. split; [reflexivity | eauto].
  - intros (ev & Hev & <- & [sc Hsc]). exists (placed_record h ev sc.1).
    split; [reflexivity|]. apply list_elem_of_omap. exists ev.
    split; [assumption|]. rewrite Hsc. reflexivity.
Qed.

Lemma elem_of_unchosen_ids (resp : CpSolverResponse)
    (candidates : gmap string (list Z)) (costs : gmap (string * Z) Costs)
    (x_vars : gmap (string * Z) nat) (flex : list FlexibleEvent) (i : string) :
  i ∈ (un_id <$> unchosen_of resp candidates costs x_vars flex)
  <-> exists ev, ev ∈ flex /\ id ev = i
                 /\ choice resp candidates costs x_vars ev = None.
Proof.
  unfold unchosen_of. rewrite list_elem_of_fmap. split.
  - intros (r & -> & Hr). apply list_elem_of_omap in Hr as (ev & Hev & Hc).
    exists ev. destruct (choice resp candidates costs x_vars ev) as [sc|];
      [discriminate|].
    injection Hc as <-. auto.
  - intros (ev & Hev & <- & Hnone). exists (no_chosen_start ev).
    split; [reflexivity|]. apply list_elem_of_omap. exists ev.
    split; [assumption|]. rewrite Hnone. reflexivity.
Qed.

Lemma elem_of_immediate_ids (candidates : gmap string (list Z))
    (flex : list FlexibleEvent) (i : string) :
  i ∈ (un_id <$> immediate_unplaced_of candidates flex)
  <-> exists ev, ev ∈ flex /\ id ev = i /\ has_candidates candidates ev = false.
Proof.
  unfold immediate_unplaced_of. rewrite <- list_fmap_compose, list_elem_of_fmap. split.
  - intros (ev & -> & Hev). apply elem_of_List_filter in Hev as [Hev Hh].
    exists ev. apply negb_true_iff in Hh. auto.
  - intros (ev & Hev & <- & Hh). exists ev. split; [reflexivity|].
    apply elem_of_List_filter. rewrite Hh. auto.
Qed.

Lemma moved_of_placed (h : Horizon) (resp : CpSolverResponse)
    (candidates : gmap string (list Z)) (costs : gmap (string * Z) Costs)
    (x_vars : gmap (string * Z) nat) (flex : list FlexibleEvent) (m : MovedRec) :
  m ∈ moved_of h resp candidates costs x_vars flex ->
  exists r, r ∈ placed_of h resp candidates costs x_vars flex
            /\ pl_id r = mv_id m /\ pl_start r = mv_toStart m.
Proof.
  unfold moved_of, placed_of. rewrite list_elem_of_In, in_flat_map.
  intros (ev & Hev & Hm). apply list_elem_of_In in Hev.
  destruct (choice resp candidates costs x_vars ev) as [[s c]|] eqn:E;
    [|inversion Hm].
  unfold moved_record in Hm. cbn in Hm.
  destruct (current_start_slot ev) as [c0|]; [|inversion Hm].
  destruct (negb (c0 =? s)); [|inversion Hm].
  destruct Hm as [<- | []].
  exists (placed_record h ev s). split; [|split; reflexivity].
  apply list_elem_of_omap. exists ev. split; [assumption|]. rewrite E. reflexivity.
Qed.

Lemma placed_unchosen_perm (h : Horizon) (resp : CpSolverResponse)
    (candidates : gmap string (list Z)) (costs : gmap (string * Z) Costs)
    (x_vars : gmap (string * Z) nat) (flex : list FlexibleEvent) :
  (pl_id <$> placed_of h resp candidates costs x_vars flex)
  ++ (un_id <$> unchosen_of resp candidates costs x_vars flex)
  ≡ₚ id <$> flex.
Proof.
  unfold placed_of, unchosen_of. induction flex as [|ev rest IH]; [reflexivity|].
  cbn [omap list_omap].
  destruct (choice resp candidates costs x_vars ev) as [sc|]; cbn.
  - constructor. exact IH.
  - rewrite <- Permutation_middle. constructor. exact IH.
Qed.

Lemma immediate_modelled_perm (candidates : gmap string (list Z))
    (flex : list FlexibleEvent) :
  (un_id <$> immediate_unplaced_of candidates flex)
  ++ (id <$> with_candidates candidates flex)
  ≡ₚ id <$> flex.
Proof.
  unfold immediate_unplaced_of, with_candidates.
  induction flex as [|ev rest IH]; [reflexivity|].
  cbn. destruct (has_candidates candidates ev); cbn.
  - rewrite <- Permutation_middle. constructor. exact IH.
  - constructor. exact IH.
Qed.

(** C3 as the code has it: without a UI/UI conflict and with a solver
    status OPTIMAL or FEASIBLE, [solve_schedule] returns a result in which
    every flexible event of the input is in exactly one of [placed] and
    [unplaced], with one record per event, and every [moved] record belongs
    to a placed event and gives its new start. *)
Theorem C3_every_event_placed_or_unplaced (Solve : CpModel -> CpSolverResponse)
    (now_local : datetime) (p : Payload)
    (candidates : gmap string (list Z)) (costs : gmap (string * Z) Costs)
    (model : CpModel) (x_vars : gmap (string * Z) nat) :
  post_init (horizon_of p) = true ->
  no_ui_conflict p ->
  tables_of now_local p = Some (candidates, costs) ->
  model_of now_local p = Some (model, x_vars) ->
  status_ok (status (Solve model)) = true ->
  exists out,
    solve_schedule Solve now_local p = Some out
    /\ unplaced_complete (ingest_flex (horizon_of p) p) out
    /\ (pl_id <$> placed out) ++ (un_id <$> unplaced out)
       ≡ₚ id <$> ingest_flex (horizon_of p) p
    /\ forall m, m ∈ moved out ->
         exists r, r ∈ placed out /\ pl_id r = mv_id m /\ pl_start r = mv_toStart m.
Proof.
  intros Hh Hnc Ht Hm Hst.
  pose proof (solve_schedule_success Solve _ _ _ _ _ _ Hh Hnc Ht Hm Hst) as Hrun.
  cbv zeta in Hrun. eexists. split; [exact Hrun|].
  unfold unplaced_complete. cbn [placed moved unplaced score].
  set (h := horizon_of p). set (flex := ingest_flex h p).
  set (resp := Solve model).
  split; [split|split].
  - intros e He.
    destruct (has_candidates candidates e) eqn:Hhas.
    + assert (Hmod : e ∈ with_candidates candidates flex)
        by (apply with_candidates_has; auto).
      destruct (choice resp candidates costs x_vars e) as [sc|] eqn:Ech.
      * left. split.
        -- apply elem_of_placed_ids. exists e. rewrite Ech. eauto.
        -- rewrite fmap_app, elem_of_app. intros [Hi | Hu].
           ++ apply elem_of_immediate_ids in Hi as (ev & _ & Hid & Hf).
              rewrite (has_candidates_ext _ _ _ Hid) in Hf. congruence.
           ++ apply elem_of_unchosen_ids in Hu as (ev & _ & Hid & Hn).
              rewrite (choice_ext _ _ _ _ _ _ Hid) in Hn. congruence.
      * right. split.
        -- intros Hp. apply elem_of_placed_ids in Hp as (ev & _ & Hid & [sc Hsc]).
           rewrite (choice_ext _ _ _ _ _ _ Hid) in Hsc. congruence.
        -- rewrite fmap_app, elem_of_app. right.
           apply elem_of_unchosen_ids. exists e. auto.
    + right. split.
      * intros Hp. apply elem_of_placed_ids in Hp as (ev & Hev & Hid & _).
        apply with_candidates_has in Hev as [_ Ht'].
        rewrite (has_candidates_ext _ _ _ Hid) in Ht'. congruence.
      * rewrite fmap_app, elem_of_app. left.
        apply elem_of_immediate_ids. exists e. auto.
  - intros m Hmv. destruct (moved_of_placed _ _ _ _ _ _ _ Hmv) as (r & Hr & Hid & _).
    rewrite <- Hid. apply list_elem_of_fmap. eauto.
  - rewrite fmap_app.
    rewrite (Permutation_app_swap_app (pl_id <$> _) (un_id <$> _) (un_id <$> _)).
    rewrite placed_unchosen_perm. apply immediate_modelled_perm.
  - intros m Hmv. eapply moved_of_placed. eassumption.
Qed.

(** C3, as stated, fails on the UI/UI early return: the new event "a" of
    [conflict_payload] is in neither list. *)
Lemma C3_counterexample_ui_conflict :
  exists out,
    solve_schedule (solver_setting []) (at_time 9 0) conflict_payload = Some out
    /\ ~ unplaced_complete
           (ingest_flex (horizon_of conflict_payload) conflict_payload) out.
Proof.
  eexists. split; [vm_compute; reflexivity|].
  intros [Hall _].
  destruct (Hall (ingest_new (horizon_of conflict_payload)
                    (new_event "a" "PRONTO" 60 None None)) ltac:(left))
    as [[H _] | [_ H]]; inversion H.
Qed.

(** ** The solver reports no solution *)

(** C1 on [clash_payload]: the two events "a" and "b" survive ingest with the
    single candidate 20, the model admits no assignment (so a sound solver
    cannot report success), and for every solver that reports a status
    other than OPTIMAL or FEASIBLE the result
    has [hardConflicts = ["Infeasible model"]], empty [placed] and [moved],
    and an empty [unplaced]: the two events are in no list. *)
Theorem C1_infeasible_result_omits_modelled_events :
  id <$> ingest_flex (horizon_of clash_payload) clash_payload = ["a"; "b"]
  /\ (exists x_vars, model_of (at_time 8 0) clash_payload = Some (clash_model, x_vars))
  /\ ~ cp_satisfiable clash_model
  /\ (forall Solve : CpModel -> CpSolverResponse,
        solver_sound Solve -> status_ok (status (Solve clash_model)) = false)
  /\ forall Solve : CpModel -> CpSolverResponse,
       status_ok (status (Solve clash_model)) = false ->
       solve_schedule Solve (at_time 8 0) clash_payload
       = Some {| placed := [];
                 moved := [];
                 unplaced := [];
                 score := None;
                 diagnostics := {| hardConflicts := ["Infeasible model"];
                                   summary := "No solution" |} |}.
Proof.
  assert (Hm : exists x_vars,
             model_of (at_time 8 0) clash_payload = Some (clash_model, x_vars)).
  { destruct (model_of (at_time 8 0) clash_payload) as [[m xv]|] eqn:E;
      [|vm_compute in E; discriminate].
    exists xv. f_equal. f_equal.
    assert (Hfst : fst <$> model_of (at_time 8 0) clash_payload = Some clash_model)
      by (vm_compute; reflexivity).
    rewrite E in Hfst. cbn in Hfst. congruence. }
  assert (Hunsat : ~ cp_satisfiable clash_model).
  { intros (val & _ & Hsum & Hno).
    cbn in Hsum, Hno.
    apply Forall_cons in Hsum as [H0 Hsum]. apply Forall_cons in Hsum as [H1 _].
    apply Forall_cons in Hno as [Hno _]. cbn in H0, H1.
    specialize (Hno 0%nat 1%nat _ _ ltac:(lia) eq_refl eq_refl).
    unfold interval_active, intervals_disjoint in Hno. cbn in Hno.
    destruct Hno; lia. }
  split; [vm_compute; reflexivity|]. split; [exact Hm|]. split; [exact Hunsat|].
  split.
  - intros Solve Hsound.
    destruct (status_ok (status (Solve clash_model))) eqn:Est; [exfalso | reflexivity].
    apply Hunsat. exists (Value (Solve clash_model)). apply Hsound. exact Est.
  - intros Solve Hst. destruct Hm as [x_vars Hm].
    destruct (tables_of (at_time 8 0) clash_payload) as [[candidates costs]|] eqn:Et;
      [|vm_compute in Et; discriminate].
    rewrite (solve_schedule_infeasible Solve _ _ candidates costs clash_model x_vars);
      try assumption; try (vm_compute; reflexivity).
    vm_compute in Et. injection Et as <- <-. vm_compute. reflexivity.
Qed.

(** ** Every candidate domain is empty *)

Lemma candidates_step_empty (env : Env) (e : FlexibleEvent)
    (st : gmap string (list Z) * gmap (string * Z) Costs) :
  domain_of env e = [] ->
  candidates_step env e st = Some (<[id e := []]> st.1, st.2).
Proof.
  unfold candidates_step, domain_of.
  destruct (latest_start_of env e <? 0); [reflexivity|].
  intros ->. reflexivity.
Qed.

Lemma candidates_loop_all_empty (env : Env) (flex : list FlexibleEvent)
    (st : gmap string (list Z) * gmap (string * Z) Costs) :
  (forall e, e ∈ flex -> domain_of env e = []) ->
  (forall i l, st.1 !! i = Some l -> l = []) ->
  exists candidates,
    candidates_loop env flex st = Some (candidates, st.2)
    /\ forall i l, candidates !! i = Some l -> l = [].
Proof.
  revert st. induction flex as [|e rest IH]; intros [c k] Hdom Hst.
  - exists c. split; [reflexivity | exact Hst].
  - cbn [candidates_loop].
    rewrite (candidates_step_empty env e (c, k)) by (apply Hdom; left). cbn.
    destruct (IH (<[id e := []]> c, k)) as (candidates & Hloop & Hall).
    + intros e' He'. apply Hdom. right. assumption.
    + intros i l. cbn. destruct (decide (i = id e)) as [->|Hne].
      * rewrite lookup_insert_eq. congruence.
      * rewrite lookup_insert_ne by congruence. apply Hst.
    + exists candidates. auto.
Qed.

Lemma has_candidates_none (candidates : gmap string (list Z)) (ev : FlexibleEvent) :
  (forall i l, candidates !! i = Some l -> l = []) ->
  has_candidates candidates ev = false.
Proof.
  intros Hall. unfold has_candidates.
  destruct (candidates !! id ev) as [[|s l]|] eqn:E; try reflexivity.
  specialize (Hall _ _ E). discriminate.
Qed.

Lemma filter_all {A : Type} (f : A -> bool) (l : list A) :
  (forall x, f x = true) -> List.filter f l = l.
Proof.
  intros H. induction l as [|x l IH]; [reflexivity|].
  cbn. rewrite H, IH. reflexivity.
Qed.

Lemma filter_none {A : Type} (f : A -> bool) (l : list A) :
  (forall x, f x = false) -> List.filter f l = [].
Proof.
  intros H. induction l as [|x l IH]; [reflexivity|].
  cbn. rewrite H, IH. reflexivity.
Qed.

(** Blocking intervals without UI/UI conflict satisfy the no-overlap
    constraint under every assignment. *)
Lemma fixed_intervals_no_overlap (blocking : list FixedEvent) (val : nat -> Z) :
  hard_conflicts_of blocking = [] ->
  no_overlap_holds val (fixed_interval <$> blocking).
Proof.
  intros Hnc i j a b Hij Ha Hb _ _.
  rewrite list_lookup_fmap in Ha, Hb.
  destruct (blocking !! i) as [fa|] eqn:Ea; [|discriminate].
  destruct (blocking !! j) as [fb|] eqn:Eb; [|discriminate].
  cbn in Ha, Hb. injection Ha as <-. injection Hb as <-.
  unfold intervals_disjoint. cbn.
  destruct (decide (end_slot fa <= start_slot fb \/ end_slot fb <= start_slot fa))
    as [|Hov]; [assumption | exfalso].
  assert (Hin : (fa, fb) ∈ offending_pairs blocking).
  { apply elem_of_offending_pairs. exists i, j. auto. }
  rewrite hard_conflicts_offending in Hnc.
  destruct (offending_pairs blocking); [inversion Hin | discriminate].
Qed.

(** C9: when no two blocking fixed intervals conflict and every flexible
    event has an empty candidate domain, the model handed to the solver has
    no decision variable, no exactly-one constraint and a constant
    objective, and it is satisfiable; with a solver that reports success on
    satisfiable models, [solve_schedule] returns empty [placed] and [moved],
    every flexible event in [unplaced] with reason "NoFeasibleCandidates",
    and the integer score 0. *)
Theorem C9_all_domains_empty (Solve : CpModel -> CpSolverResponse)
    (now_local : datetime) (p : Payload) :
  post_init (horizon_of p) = true ->
  no_ui_conflict p ->
  (forall e, e ∈ ingest_flex (horizon_of p) p -> domain_of (env_of now_local p) e = []) ->
  solver_complete Solve ->
  exists model x_vars,
    model_of now_local p = Some (model, x_vars)
    /\ bool_vars model = [] /\ sum_eq_one model = [] /\ minimize model = []
    /\ cp_satisfiable model
    /\ status_ok (status (Solve model)) = true
    /\ solve_schedule Solve now_local p
       = Some {| placed := [];
                 moved := [];
                 unplaced :=
                   (fun ev => {| un_id := id ev; un_reason := "NoFeasibleCandidates" |})
                     <$> ingest_flex (horizon_of p) p;
                 score := Some 0;
                 diagnostics :=
                   {| hardConflicts := [];
                      summary := success_summary 0 0
                                   (length (ingest_flex (horizon_of p) p)) |} |}.
Proof.
  intros Hh Hnc Hdom Hsolver.
  destruct (candidates_loop_all_empty (env_of now_local p)
              (ingest_flex (horizon_of p) p) (∅, ∅) Hdom)
    as (candidates & Hloop & Hall).
  { intros i l. cbn. rewrite lookup_empty. discriminate. }
  cbn in Hloop.
  assert (Ht : tables_of now_local p = Some (candidates, ∅)) by exact Hloop.
  assert (Hmod : with_candidates candidates (ingest_flex (horizon_of p) p) = []).
  { apply filter_none. intros ev. apply has_candidates_none. assumption. }
  assert (Himm : immediate_unplaced_of candidates (ingest_flex (horizon_of p) p)
                 = (fun ev => {| un_id := id ev; un_reason := "NoFeasibleCandidates" |})
                     <$> ingest_flex (horizon_of p) p).
  { unfold immediate_unplaced_of. f_equal. apply filter_all.
    intros ev. rewrite has_candidates_none by assumption. reflexivity. }
  remember (fixed_interval <$> fixed_blocking (env_of now_local p)) as ivs eqn:Eivs.
  set (model := {| bool_vars := []; sum_eq_one := [];
                   no_overlap := match ivs with [] => [] | _ => [ivs] end;
                   minimize := [] |}).
  assert (Hm : model_of now_local p = Some (model, ∅)).
  { unfold model_of. rewrite Ht. cbn. rewrite Hmod. subst model ivs. reflexivity. }
  assert (Hsat : cp_satisfiable model).
  { exists (fun _ => 0). split; [|split].
    - intros v Hv. cbn in Hv. lia.
    - constructor.
    - cbn. destruct ivs as [|iv ivs'] eqn:E; constructor; [|constructor].
      rewrite Eivs. apply fixed_intervals_no_overlap. exact Hnc. }
  assert (Hst : status_ok (status (Solve model)) = true) by (apply Hsolver, Hsat).
  exists model, ∅. repeat (split; [assumption || reflexivity|]).
  pose proof (solve_schedule_success Solve _ _ _ _ _ _ Hh Hnc Ht Hm Hst) as Hrun.
  cbv zeta in Hrun. rewrite Hrun, Hmod, Himm. cbn.
  rewrite app_nil_r, length_fmap. reflexivity.
Qed.

Lemma C9_all_domains_empty_witness :
  exists model x_vars,
    model_of (at_time 8 0) no_domain_payload = Some (model, x_vars)
    /\ bool_vars model = [] /\ sum_eq_one model = [] /\ minimize model = []
    /\ cp_satisfiable model
    /\ status_ok (status (solver_setting [] model)) = true
    /\ solve_schedule (solver_setting []) (at_time 8 0) no_domain_payload
       = Some {| placed := [];
                 moved := [];
                 unplaced :=
                   (fun ev => {| un_id := id ev; un_reason := "NoFeasibleCandidates" |})
                     <$> ingest_flex (horizon_of no_domain_payload) no_domain_payload;
                 score := Some 0;
                 diagnostics :=
                   {| hardConflicts := [];
                      summary :=
                        success_summary 0 0
                          (length (ingest_flex (horizon_of no_domain_payload)
                                     no_domain_payload)) |} |}.
Proof.
  apply (C9_all_domains_empty (solver_setting []) (at_time 8 0) no_domain_payload).
  - reflexivity.
  - vm_compute. reflexivity.
  - intros e [-> | H]%elem_of_cons; [vm_compute; reflexivity | inversion H].
  - intros m _. reflexivity.
Defined.

(** ** The statements at sample inputs *)

Lemma C2_ui_conflict_returns_at_once_witness :
  solve_schedule (solver_setting []) (at_time 9 0) conflict_payload
  = Some {| placed := [];
            moved := [];
            unplaced := [];
            score := None;
            diagnostics :=
              {| hardConflicts :=
                   (fun ab : FixedEvent * FixedEvent =>
                      "UI/UI conflict: " +:+ fx_id ab.1 +:+ " vs " +:+ fx_id ab.2)
                     <$> offending_pairs (blocking_of (fixed_of conflict_payload));
                 summary := "Infeasible: UI/UI conflict" |} |}.
Proof.
  apply (C2_ui_conflict_returns_at_once (solver_setting []) (at_time 9 0)
           conflict_payload 0 1
           {| fx_id := "f1"; start_slot := 20; end_slot := 22; blocks_capacity := true |}
           {| fx_id := "f2"; start_slot := 21; end_slot := 23; blocks_capacity := true |}).
  - reflexivity.
  - lia.
  - vm_compute. reflexivity.
  - vm_compute. reflexivity.
  - cbn. lia.
Defined.

Example ui_conflict_messages :
  hard_conflicts_of (blocking_of (fixed_of conflict_payload))
  = ["UI/UI conflict: f1 vs f2"].
Proof. vm_compute. reflexivity. Qed.

Lemma C3_every_event_placed_or_unplaced_witness :
  exists out,
    solve_schedule (solver_setting [12%nat; 17%nat]) (at_time 8 0) movable_payload
    = Some out
    /\ unplaced_complete (ingest_flex (horizon_of movable_payload) movable_payload) out
    /\ (pl_id <$> placed out) ++ (un_id <$> unplaced out)
       ≡ₚ id <$> ingest_flex (horizon_of movable_payload) movable_payload
    /\ forall m, m ∈ moved out ->
         exists r, r ∈ placed out /\ pl_id r = mv_id m /\ pl_start r = mv_toStart m.
Proof.
  destruct (tables_of (at_time 8 0) movable_payload) as [[candidates costs]|] eqn:Et;
    [|vm_compute in Et; discriminate].
  destruct (model_of (at_time 8 0) movable_payload) as [[model x_vars]|] eqn:Em;
    [|vm_compute in Em; discriminate].
  apply (C3_every_event_placed_or_unplaced (solver_setting [12%nat; 17%nat])
           (at_time 8 0) movable_payload candidates costs model x_vars).
  - reflexivity.
  - vm_compute. reflexivity.
  - exact Et.
  - exact Em.
  - reflexivity.
Defined.

Lemma C7_cost_table_witness :
  exists st' c,
    candidates_step (env_of (at_time 8 0) repeat_payload) first_a (∅, ∅) = Some st'
    /\ st'.2 !! ("a", 20) = Some c
    /\ cost_spec (env_of (at_time 8 0) repeat_payload) first_a 20 c.
Proof.
  assert (Ht : exists t, tables_of (at_time 8 0) repeat_payload = Some t)
    by (eexists; vm_compute; reflexivity).
  destruct Ht as [[candidates costs] Ht].
  assert (Hf : ingest_flex (horizon_of repeat_payload) repeat_payload
               = [] ++ first_a :: [second_a]) by (vm_compute; reflexivity).
  assert (Hs : 20 ∈ domain_of (env_of (at_time 8 0) repeat_payload) first_a)
    by (apply (bool_decide_unpack _); vm_compute; exact I).
  destruct (C7_cost_table (at_time 8 0) repeat_payload candidates costs
              [] [second_a] first_a 20 Ht Hf Hs)
    as (st & st' & c & Hpre & Hstep & _ & _ & Hrec & Hspec & _).
  injection Hpre as <-.
  exists st', c.
  split; [exact Hstep|]. split; [exact Hrec | exact Hspec].
Defined.

Example cost_of_candidate_20 :
  candidate_cost (env_of (at_time 9 0) happy_payload)
    (ingest_new (horizon_of happy_payload) (new_event "a" "PRONTO" 60 None None)) 20
  = Some {| total := 8; dist := 8; offpref := 0; crossday := 0; movecost := 0 |}.
Proof. vm_compute. reflexivity. Qed.

(** With a repeated identifier the later turn overwrites the entry: the
    finished table holds under [("a", 20)] the record of the second event. *)
Example repeated_id_overwrites :
  candidate_cost (env_of (at_time 8 0) repeat_payload) first_a 20
  = Some {| total := 16; dist := 16; offpref := 0; crossday := 0; movecost := 0 |}
  /\ (tables_of (at_time 8 0) repeat_payload ≫= fun t => t.2 !! ("a", 20))
     = Some {| total := 4; dist := 4; offpref := 0; crossday := 0; movecost := 0 |}.
Proof. split; vm_compute; reflexivity. Qed.

Lemma C8_score_is_sum_of_chosen_costs_witness :
  exists candidates costs out,
    tables_of (at_time 8 0) movable_payload = Some (candidates, costs)
    /\ solve_schedule (solver_setting [12%nat; 17%nat]) (at_time 8 0) movable_payload
       = Some out
    /\ score out
       = Some (sum_list (table_total costs (horizon_of movable_payload) <$> placed out)).
Proof.
  destruct (tables_of (at_time 8 0) movable_payload) as [[candidates costs]|] eqn:Et;
    [|vm_compute in Et; discriminate].
  destruct (model_of (at_time 8 0) movable_payload) as [[model x_vars]|] eqn:Em;
    [|vm_compute in Em; discriminate].
  destruct (C8_score_is_sum_of_chosen_costs (solver_setting [12%nat; 17%nat])
              (at_time 8 0) movable_payload candidates costs model x_vars)
    as (out & Hrun & Hscore & _).
  - reflexivity.
  - vm_compute. reflexivity.
  - exact Et.
  - exact Em.
  - reflexivity.
  - exists candidates, costs, out. auto.
Defined.

Example movable_run_score :
  score <$> solve_schedule (solver_setting [12%nat; 17%nat]) (at_time 8 0) movable_payload
  = Some (Some 32).
Proof. vm_compute. reflexivity. Qed.

(** The current start is looked up in the domain that reaches the lead-time
    filter: slot 47 is in the week's window of [late_event], the one-hour
    event does not fit from there, and it is not re-admitted. *)
Example readmission_tests_filtered_domain :
  let h := horizon_of late_payload in
  let env := env_of (at_time 23 50) late_payload in
  let e := ingest_movable h late_event in
  current_start_slot e = Some 47
  /\ now_slot env = 48
  /\ 47 ∈ expand_window_slots e h (now_slot env)
  /\ domain_of env e = [].
Proof.
  cbv zeta. split; [reflexivity|]. split; [reflexivity|]. split.
  - apply (bool_decide_unpack _). vm_compute. exact I.
  - vm_compute. reflexivity.
Qed.

(** The grid ends with the last slot, not with the horizon: a fixed event
    that starts after the horizon end and inside the partial last slot is
    kept. *)
Example event_in_partial_last_slot_kept :
  total_slots short_horizon = 2
  /\ end_dt short_horizon
     <= fj_start (fixed_event "late" (day0 + timedelta_minutes 50)
                    (day0 + timedelta_minutes 55))
  /\ ingest_fixed_one short_horizon
       (fixed_event "late" (day0 + timedelta_minutes 50) (day0 + timedelta_minutes 55))
     = Some {| fx_id := "late"; start_slot := 1; end_slot := 2;
               blocks_capacity := true |}.
Proof.
  split; [reflexivity|]. split; [vm_compute; discriminate | reflexivity].
Qed.

(** The UI/UI return comes before any weight is read: the same event whose
    priority has no weight stops the run only when no conflict is found. *)
Example ui_conflict_precedes_weight_lookup :
  solve_schedule (solver_setting []) (at_time 9 0)
    (one_day [fixed_event "f1" (at_time 10 0) (at_time 11 0);
              fixed_event "f2" (at_time 10 30) (at_time 11 30)] [] [odd_event])
  = Some (ui_conflict_output ["UI/UI conflict: f1 vs f2"])
  /\ solve_schedule (solver_setting []) (at_time 9 0) (one_day [] [] [odd_event]) = None.
Proof. split; vm_compute; reflexivity. Qed.

(* ===================================================================== *)
(** * Further properties of the code *)
(* ===================================================================== *)

(** ** The slot grid *)








Lemma StronglySorted_seqZ_lt (m n : Z) : StronglySorted Z.lt (seqZ m n).
Proof.
  remember (Z.to_nat n) as k eqn:Ek. revert m n Ek.
  induction k as [|k IH]; intros m n Ek.
  - rewrite seqZ_nil by lia. constructor.
  - rewrite seqZ_cons by lia. constructor.
    + apply IH. lia.
    + apply Forall_forall. intros x Hx. apply elem_of_seqZ in Hx. lia.
Qed.



(** ** Policy values *)

(** X5: the set of active weekdays is never empty and holds only numbers of
    0..6: the entries of [activeDays] in that range when there is one, all
    seven days otherwise; entries out of range are ignored. *)
Theorem X5_allowed_days_normalised (pol : Policy) :
  allowed_days_of pol <> ∅
  /\ (forall d, d ∈ allowed_days_of pol -> 0 <= d <= 6)
  /\ ((exists d, d ∈ activeDays pol /\ 0 <= d <= 6) ->
      forall d, d ∈ allowed_days_of pol <-> d ∈ activeDays pol /\ 0 <= d <= 6)
  /\ ((forall d, d ∈ activeDays pol -> ~ 0 <= d <= 6) ->
      forall d, d ∈ allowed_days_of pol <-> 0 <= d <= 6).
Proof.
  unfold allowed_days_of.
  set (valid := List.filter (fun v => (0 <=? v) && (v <=? 6)) (activeDays pol)).
  assert (Hvalid : forall d, d ∈ valid <-> d ∈ activeDays pol /\ 0 <= d <= 6).
  { intros d. unfold valid. rewrite elem_of_List_filter. rewrite andb_true_iff.
    rewrite !Z.leb_le. reflexivity. }
  assert (Hall : forall d : Z, d ∈ (list_to_set (py_range 0 7) : gset Z) <-> 0 <= d <= 6).
  { intros d. rewrite elem_of_list_to_set, elem_of_py_range. lia. }
  destruct (decide ((list_to_set valid : gset Z) = ∅)) as [Hempty|Hne].
  - assert (Hnone : forall d, d ∉ valid).
    { intros d Hd. assert (d ∈ (list_to_set valid : gset Z))
        by (apply elem_of_list_to_set; assumption).
      rewrite Hempty in H. set_solver. }
    split; [|split; [|split]].
    + intros Habs. assert (0 ∈ (list_to_set (py_range 0 7) : gset Z)) by (apply Hall; lia).
      rewrite Habs in H. set_solver.
    + intros d. apply Hall.
    + intros (d & Hd & Hr). exfalso. apply (Hnone d). apply Hvalid. auto.
    + intros _ d. apply Hall.
  - split; [assumption|]. split; [|split].
    + intros d Hd. apply elem_of_list_to_set, Hvalid in Hd. tauto.
    + intros _ d. rewrite elem_of_list_to_set. apply Hvalid.
    + intros Hbad. exfalso. apply Hne. apply set_eq. intros d.
      rewrite elem_of_list_to_set, Hvalid. split.
      * intros [Hd Hr]. exfalso. exact (Hbad d Hd Hr).
      * set_solver.
Qed.

(** X6: [parse_hhmm] returns the given pair when its hour is in 0..23 and
    its minute in 0..59 and the default in every other case, so with a valid
    default the result is always a valid time of day. *)
Theorem X6_parse_hhmm_valid (value : option (Z * Z)) (default : Z * Z) :
  let valid := fun hm : Z * Z => 0 <= hm.1 <= 23 /\ 0 <= hm.2 <= 59 in
  (forall hm, value = Some hm -> valid hm -> parse_hhmm value default = hm)
  /\ ((forall hm, value = Some hm -> ~ valid hm) -> parse_hhmm value default = default)
  /\ (valid default -> valid (parse_hhmm value default)).
Proof.
  cbv zeta. unfold parse_hhmm. destruct value as [[hh mm]|].
  - destruct ((0 <=? hh) && (hh <=? 23) && (0 <=? mm) && (mm <=? 59)) eqn:E.
    + apply andb_prop in E as [E E4]. apply andb_prop in E as [E E3].
      apply andb_prop in E as [E1 E2].
      apply Z.leb_le in E1, E2, E3, E4.
      split; [|split].
      * intros hm [= <-] _. reflexivity.
      * intros H. exfalso. apply (H (hh, mm) eq_refl). cbn. lia.
      * intros _. cbn. lia.
    + assert (Hbad : ~ (0 <= hh <= 23 /\ 0 <= mm <= 59)).
      { intros [[H1 H2] [H3 H4]].
        apply Z.leb_le in H1, H2, H3, H4. rewrite H1, H2, H3, H4 in E. discriminate. }
      split; [|split].
      * intros hm [= <-] Hv. contradiction.
      * reflexivity.
      * auto.
  - split; [|split].
    + intros hm [=].
    + reflexivity.
    + auto.
Qed.



(** ** The preferred slots *)

Lemma slots_in_interval_bounds (h : Horizon) (a b : datetime) (t : Z) :
  t ∈ slots_in_interval h a b -> 0 <= t < total_slots h.
Proof.
  unfold slots_in_interval. rewrite elem_of_py_range. lia.
Qed.

Lemma elem_of_preferred_from_ranges (h : Horizon) (ranges : list (datetime * datetime))
    (acc : gset Z) (t : Z) :
  t ∈ preferred_from_ranges h ranges acc
  <-> t ∈ acc \/ exists ab, ab ∈ ranges /\ t ∈ slots_in_interval h ab.1 ab.2.
Proof.
  revert acc. induction ranges as [|[a b] rest IH]; intros acc; cbn.
  - split; [auto | intros [H | (ab & Hab & _)]; [assumption | inversion Hab]].
  - rewrite IH, elem_of_union, elem_of_list_to_set. split.
    + intros [[Hacc | Hnew] | (ab & Hab & Ht)]; [auto | |].
      * right. exists (a, b). split; [left | assumption].
      * right. exists ab. split; [right; assumption | assumption].
    + intros [Hacc | (ab & Hab & Ht)]; [auto|].
      apply elem_of_cons in Hab as [-> | Hab]; [left; right; assumption|].
      right. exists ab. auto.
Qed.

Lemma preferred_fallback_bounds (fuel : nat) (h : Horizon) (allowed : gset Z)
    (ds de : Z * Z) (cur : datetime) (acc : gset Z) :
  (forall t, t ∈ acc -> 0 <= t < total_slots h) ->
  forall t, t ∈ preferred_fallback fuel h allowed ds de cur acc ->
            0 <= t < total_slots h.
Proof.
  revert cur acc. induction fuel as [|fuel IH]; intros cur acc Hacc t; cbn; [apply Hacc|].
  destruct (cur <? end_dt h); [|apply Hacc].
  apply IH. intros t'.
  destruct (decide (weekday cur ∈ allowed)); [|apply Hacc].
  rewrite elem_of_union, elem_of_list_to_set.
  intros [H | H]; [apply Hacc; assumption | eapply slots_in_interval_bounds; eassumption].
Qed.

(** X8: the preference set holds only slots of the grid [0, total_slots),
    whether it comes from the given ranges or from the working-hours
    fallback; from given ranges it is exactly the union of the slots that
    cover each range. *)
Theorem X8_preferred_slots_in_grid (h : Horizon) (pol : Policy)
    (ranges : list (datetime * datetime)) :
  (forall t, t ∈ preferred_slots_of h pol ranges -> 0 <= t < total_slots h)
  /\ (ranges <> [] ->
      forall t, t ∈ preferred_slots_of h pol ranges
                <-> exists ab, ab ∈ ranges /\ t ∈ slots_in_interval h ab.1 ab.2).
Proof.
  split.
  - intros t. unfold preferred_slots_of. destruct ranges as [|r rest].
    + apply preferred_fallback_bounds. intros t' Ht'. set_solver.
    + rewrite elem_of_preferred_from_ranges.
      intros [H | (ab & _ & Ht)]; [set_solver|].
      eapply slots_in_interval_bounds; eassumption.
  - intros Hne t. unfold preferred_slots_of. destruct ranges as [|r rest]; [congruence|].
    rewrite elem_of_preferred_from_ranges. split; [|auto].
    intros [H | H]; [set_solver | assumption].
Qed.

Lemma day_number_of_midnight (d : Z) : day_number (d * us_per_day) = d.
Proof. unfold day_number. apply Z.div_mul. unfold us_per_day. lia. Qed.

Lemma day_bounds (dt : datetime) :
  day_number dt * us_per_day <= dt < (day_number dt + 1) * us_per_day.
Proof.
  unfold day_number.
  pose proof (Z.div_mod dt us_per_day ltac:(unfold us_per_day; lia)).
  pose proof (Z.mod_pos_bound dt us_per_day ltac:(unfold us_per_day; lia)).
  lia.
Qed.

Lemma next_midnight (cur : datetime) :
  midnight (cur + timedelta_days 1) = (day_number cur + 1) * us_per_day.
Proof.
  unfold midnight. f_equal. unfold day_number, timedelta_days.
  apply Z.div_add. unfold us_per_day. lia.
Qed.

(** What the fallback loop adds from [cur] on, given fuel for the days left. *)
Lemma elem_of_preferred_fallback (fuel : nat) (h : Horizon) (allowed : gset Z)
    (ds de : Z * Z) (cur : datetime) (acc : gset Z) (t : Z) :
  day_number (end_dt h) - day_number cur < Z.of_nat fuel ->
  t ∈ preferred_fallback fuel h allowed ds de cur acc
  <-> t ∈ acc
      \/ exists d,
           ((d = day_number cur /\ cur < end_dt h)
            \/ (day_number cur < d /\ d * us_per_day < end_dt h))
           /\ (d + 3) `mod` 7 ∈ allowed
           /\ t ∈ slots_in_interval h (day_window ds de d).1 (day_window ds de d).2.
Proof.
  revert cur acc. induction fuel as [|fuel IH]; intros cur acc Hfuel.
  - assert (Hend : end_dt h <= cur) by (apply past_last_day; lia).
    cbn. split; [auto|]. intros [H | (d & [[-> Hlt] | [Hd Hlt]] & _)]; [assumption | lia |].
    pose proof (day_bounds cur). nia.
  - cbn. destruct (Z.ltb_spec cur (end_dt h)) as [Hlt|Hge].
    + rewrite IH by (rewrite day_number_next_midnight; lia).
      rewrite next_midnight, day_number_of_midnight.
      assert (Hwin : forall hm : Z * Z,
                 replace_hm cur hm.1 hm.2
                 = day_number cur * us_per_day + timedelta_minutes (hm.1 * 60 + hm.2))
        by reflexivity.
      assert (Hacc : forall t',
                 t' ∈ (if decide (weekday cur ∈ allowed)
                       then acc ∪ list_to_set
                              (slots_in_interval h
                                 (if replace_hm cur de.1 de.2 <=? replace_hm cur ds.1 ds.2
                                  then (midnight cur, midnight cur + timedelta_days 1)
                                  else (replace_hm cur ds.1 ds.2, replace_hm cur de.1 de.2)).1
                                 (if replace_hm cur de.1 de.2 <=? replace_hm cur ds.1 ds.2
                                  then (midnight cur, midnight cur + timedelta_days 1)
                                  else (replace_hm cur ds.1 ds.2, replace_hm cur de.1 de.2)).2)
                       else acc)
                 <-> t' ∈ acc
                     \/ ((day_number cur + 3) `mod` 7 ∈ allowed
                         /\ t' ∈ slots_in_interval h (day_window ds de (day_number cur)).1
                                  (day_window ds de (day_number cur)).2)).
      { intros t'. unfold weekday.
        destruct (decide ((day_number cur + 3) `mod` 7 ∈ allowed)) as [Hin|Hnin].
        - rewrite elem_of_union, elem_of_list_to_set. unfold day_window.
          rewrite (Hwin ds), (Hwin de). unfold midnight. tauto.
        - tauto. }
      rewrite Hacc. split.
      * intros [[Ht | [Hw Ht]] | (d & [[-> Hlt'] | [Hd Hlt']] & Hw & Ht)].
        -- left. assumption.
        -- right. exists (day_number cur). auto.
        -- right. exists (day_number cur + 1). split; [right; lia | auto].
        -- right. exists d. split; [right; lia | auto].
      * intros [Ht | (d & [[-> _] | [Hd Hlt']] & Hw & Ht)].
        -- left. left. assumption.
        -- left. right. auto.
        -- right. exists d. split; [|auto].
           destruct (decide (d = day_number cur + 1)) as [->|Hne]; [left | right]; lia.
    + split; [auto|]. intros [H | (d & [[-> Hlt] | [Hd Hlt]] & _)]; [assumption | lia |].
      pose proof (day_bounds cur). nia.
Qed.

(** X9: without given ranges the preference set is the union, over the
    days the horizon touches whose weekday is active, of the slots that
    cover that day's window from [dayStart] to [dayEnd] (the whole day when
    [dayEnd] is not after [dayStart]); the loop that builds it stops by
    itself within the fuel it is given. *)
Theorem X9_fallback_preferred_slots (h : Horizon) (pol : Policy) (t : Z) :
  let day_start := parse_hhmm (dayStart pol) (9, 0) in
  let day_end := parse_hhmm (dayEnd pol) (18, 0) in
  (t ∈ preferred_slots_of h pol []
   <-> exists d,
         day_visited h d
         /\ (d + 3) `mod` 7 ∈ allowed_days_of pol
         /\ t ∈ slots_in_interval h (day_window day_start day_end d).1
                  (day_window day_start day_end d).2)
  /\ forall extra,
       preferred_fallback (fallback_fuel h + extra) h (allowed_days_of pol)
         day_start day_end (start_dt h) ∅
       = preferred_slots_of h pol [].
Proof.
  cbv zeta. split.
  - unfold preferred_slots_of, day_visited.
    rewrite elem_of_preferred_fallback.
    + split.
      * intros [H | H]; [set_solver | exact H].
      * intros H. right. exact H.
    + unfold fallback_fuel.
      destruct (Z.le_gt_cases 0 (day_number (end_dt h) - day_number (start_dt h) + 2)); lia.
  - intros extra. apply preferred_fallback_fuel. unfold fallback_fuel.
    destruct (Z.le_gt_cases 0 (day_number (end_dt h) - day_number (start_dt h) + 2)); lia.
Qed.

(** ** The gross window *)

Lemma StronglySorted_py_range (a b : Z) : StronglySorted Z.lt (py_range a b).
Proof. apply StronglySorted_seqZ_lt. Qed.

Lemma weekday_range (dt : datetime) : 0 <= weekday dt <= 6.
Proof. unfold weekday. pose proof (Z.mod_pos_bound (day_number dt + 3) 7). lia. Qed.

(** X10: whatever the window tag, the gross window is an ascending run of
    slots of the grid [0, total_slots).  "PRONTO" is the part of the grid
    from [nowSlot] to 48 hours later, "RANGO" the part between its two slot
    bounds and empty when one is missing, and any tag other than the four
    known ones gives the whole grid. *)
Theorem X10_gross_window (ev : FlexibleEvent) (h : Horizon) (now : Z) :
  (forall s, s ∈ expand_window_slots ev h now -> 0 <= s < total_slots h)
  /\ StronglySorted Z.lt (expand_window_slots ev h now)
  /\ (window ev = "PRONTO" ->
      forall s, s ∈ expand_window_slots ev h now
                <-> 0 <= s < total_slots h
                    /\ now <= s < now + ceil_div (48 * 60) (slot_minutes h))
  /\ (window ev = "RANGO" ->
      (window_start ev = None \/ window_end ev = None ->
       expand_window_slots ev h now = [])
      /\ forall ws we, window_start ev = Some ws -> window_end ev = Some we ->
           forall s, s ∈ expand_window_slots ev h now
                     <-> 0 <= s < total_slots h /\ ws <= s < we)
  /\ (window ev <> "PRONTO" -> window ev <> "SEMANA" -> window ev <> "MES" ->
      window ev <> "RANGO" ->
      expand_window_slots ev h now = py_range 0 (total_slots h)).
Proof.
  split; [|split; [|split; [|split]]].
  - intros s. unfold expand_window_slots.
    repeat match goal with
           | |- context [String.eqb ?a ?b] => destruct (String.eqb a b)
           | |- context [match ?o with Some _ => _ | None => _ end] => destruct o
           end; rewrite elem_of_py_range; lia.
  - unfold expand_window_slots.
    repeat match goal with
           | |- context [String.eqb ?a ?b] => destruct (String.eqb a b)
           | |- context [match ?o with Some _ => _ | None => _ end] => destruct o
           end; apply StronglySorted_py_range.
  - intros Hw s. unfold expand_window_slots. rewrite Hw.
    change (String.eqb "PRONTO" "PRONTO") with true. cbv iota.
    rewrite elem_of_py_range. lia.
  - intros Hw. unfold expand_window_slots. rewrite Hw.
    change (String.eqb "RANGO" "PRONTO") with false.
    change (String.eqb "RANGO" "SEMANA") with false.
    change (String.eqb "RANGO" "MES") with false.
    change (String.eqb "RANGO" "RANGO") with true. cbv iota. split.
    + intros [-> | Hwe]; [reflexivity|]. rewrite Hwe.
      destruct (window_start ev); reflexivity.
    + intros ws we -> -> s. rewrite elem_of_py_range. lia.
  - intros H1 H2 H3 H4. unfold expand_window_slots.
    apply String.eqb_neq in H1, H2, H3, H4. rewrite H1, H2, H3, H4. reflexivity.
Qed.

(** X11: the start of the "SEMANA" window is the Monday 00:00 of the ISO
    week that holds the horizon start, the window ends seven days later, and
    it is cut to the grid. *)
Theorem X11_week_window (ev : FlexibleEvent) (h : Horizon) (now : Z) :
  window ev = "SEMANA" ->
  let monday := midnight (start_dt h - timedelta_days (isoweekday (start_dt h) - 1)) in
  weekday monday = 0
  /\ monday = day_number monday * us_per_day
  /\ monday <= start_dt h < monday + timedelta_days 7
  /\ forall s, s ∈ expand_window_slots ev h now
               <-> 0 <= s < total_slots h
                   /\ dt_to_slot h monday <= s < dt_to_slot h (monday + timedelta_days 7).
Proof.
  intros Hw. cbv zeta.
  set (start := start_dt h).
  assert (Hdn : day_number (start - timedelta_days (isoweekday start - 1))
                = day_number start - weekday start).
  { unfold isoweekday, timedelta_days, day_number.
    replace (start - (weekday start + 1 - 1) * us_per_day)
      with (start + (- weekday start) * us_per_day) by lia.
    rewrite Z.div_add by (unfold us_per_day; lia). lia. }
  pose proof (weekday_range start) as Hwd.
  pose proof (day_bounds start) as Hsb.
  split; [|split; [|split]].
  - unfold weekday at 1, midnight. rewrite day_number_of_midnight, Hdn.
    unfold weekday.
    replace (day_number start - (day_number start + 3) `mod` 7 + 3)
      with ((day_number start + 3) - (day_number start + 3) `mod` 7) by lia.
    rewrite (Z.div_mod (day_number start + 3) 7) at 1 by lia.
    replace (7 * ((day_number start + 3) / 7) + (day_number start + 3) `mod` 7
             - (day_number start + 3) `mod` 7)
      with (((day_number start + 3) / 7) * 7) by lia.
    apply Z.mod_mul. lia.
  - unfold midnight. rewrite day_number_of_midnight. reflexivity.
  - unfold midnight. rewrite Hdn. unfold timedelta_days, us_per_day in *. lia.
  - intros s. unfold expand_window_slots. rewrite Hw.
    change (String.eqb "SEMANA" "PRONTO") with false.
    change (String.eqb "SEMANA" "SEMANA") with true. cbv iota.
    rewrite elem_of_py_range. fold start. lia.
Qed.

Lemma X11_week_window_witness :
  let ev := ingest_movable (horizon_of late_payload) late_event in
  let h := horizon_of late_payload in
  let monday := midnight (start_dt h - timedelta_days (isoweekday (start_dt h) - 1)) in
  weekday monday = 0
  /\ monday = day_number monday * us_per_day
  /\ monday <= start_dt h < monday + timedelta_days 7
  /\ forall s, s ∈ expand_window_slots ev h 0
               <-> 0 <= s < total_slots h
                   /\ dt_to_slot h monday <= s < dt_to_slot h (monday + timedelta_days 7).
Proof.
  apply (X11_week_window (ingest_movable (horizon_of late_payload) late_event)
           (horizon_of late_payload) 0).
  reflexivity.
Defined.

(** ** The candidate domain of an event *)

Lemma elem_of_filter_allowed_days (h : Horizon) (allowed : gset Z)
    (starts : list Z) (dur s : Z) :
  s ∈ filter_allowed_days h allowed starts dur
  <-> s ∈ starts
      /\ ((size allowed < 7)%nat ->
          weekday (slot_to_dt h s) ∈ allowed
          /\ weekday (slot_to_dt h (s + dur - 1)) ∈ allowed).
Proof.
  unfold filter_allowed_days. destruct (Nat.leb_spec 7 (size allowed)) as [Hge|Hlt].
  - split; [intros Hs; split; [assumption | lia] | tauto].
  - rewrite elem_of_List_filter. unfold day_allowed.
    rewrite andb_true_iff, !bool_decide_eq_true. tauto.
Qed.

Lemma lead_time_applies (e : FlexibleEvent) (now : Z) :
  (String.eqb (priority e) "UnI" || String.eqb (priority e) "InU") && (0 <? now) = true
  <-> (priority e = "UnI" \/ priority e = "InU") /\ 0 < now.
Proof.
  rewrite andb_true_iff, orb_true_iff, !String.eqb_eq, Z.ltb_lt. reflexivity.
Qed.

Lemma elem_of_lead_time_filter (e : FlexibleEvent) (now : Z) (base_range : list Z) (s : Z) :
  s ∈ lead_time_filter e now base_range
  <-> s ∈ base_range
      /\ ((priority e = "UnI" \/ priority e = "InU") -> 0 < now ->
          now <= s \/ (s < now /\ current_start_slot e = Some s)).
Proof.
  unfold lead_time_filter.
  destruct ((String.eqb (priority e) "UnI" || String.eqb (priority e) "InU")
            && (0 <? now)) eqn:Eapp.
  - apply lead_time_applies in Eapp as [Hprio Hnow].
    set (filtered :=
           match current_start_slot e with
           | Some c =>
               if (c <? now) && bool_decide (c ∈ base_range)
               then List.filter (fun s => now <=? s) base_range ++ [c]
               else List.filter (fun s => now <=? s) base_range
           | None => List.filter (fun s => now <=? s) base_range
           end).
    assert (Hmem : s ∈ filtered
                   <-> s ∈ base_range
                       /\ (now <= s \/ (s < now /\ current_start_slot e = Some s))).
    { subst filtered. destruct (current_start_slot e) as [c|].
      - destruct (Z.ltb_spec c now) as [Hc|Hc]; cbn [andb].
        + destruct (bool_decide_reflect (c ∈ base_range)) as [Hin|Hnin].
          * rewrite elem_of_app, elem_of_List_filter, list_elem_of_singleton, Z.leb_le.
            split.
            -- intros [[? ?] | ->]; auto.
            -- intros [? [? | [? [= ->]]]]; auto.
          * rewrite elem_of_List_filter, Z.leb_le. split.
            -- intros [? ?]; auto.
            -- intros [? [? | [? [= ->]]]]; [auto | contradiction].
        + rewrite elem_of_List_filter, Z.leb_le. split.
          * intros [? ?]; auto.
          * intros [? [? | [? [= ->]]]]; [auto | lia].
      - rewrite elem_of_List_filter, Z.leb_le. split.
        + intros [? ?]; auto.
        + intros [? [? | [? [=]]]]; auto. }
    assert (Hres : s ∈ match filtered with [] => filtered | _ => sorted_set filtered end
                   <-> s ∈ filtered).
    { destruct filtered; [reflexivity | apply elem_of_sorted_set]. }
    rewrite Hres, Hmem. tauto.
  - split; [|tauto]. intros Hs. split; [assumption|]. intros Hprio Hnow.
    assert (Htrue : (String.eqb (priority e) "UnI" || String.eqb (priority e) "InU")
                    && (0 <? now) = true) by (apply lead_time_applies; auto).
    congruence.
Qed.

Lemma elem_of_fixed_collision_filter (e : FlexibleEvent) (blocking : list FixedEvent)
    (buf : Z) (starts : list Z) (s : Z) :
  s ∈ fixed_collision_filter e blocking buf starts
  <-> s ∈ starts
      /\ (overlap e = false ->
          forall f, f ∈ blocking -> blocks_capacity f = true ->
                    s + duration_slots e + buf <= start_slot f
                    \/ end_slot f + buf <= s).
Proof.
  unfold fixed_collision_filter. destruct (overlap e); cbn [negb andb].
  - split; [intros Hs; split; [assumption | discriminate] | tauto].
  - destruct blocking as [|b bl].
    + split; [|tauto]. intros Hs. split; [assumption|]. intros _ f Hf. inversion Hf.
    + rewrite elem_of_remove_conflicting_starts. split.
      * intros [Hs Hf]. auto.
      * intros [Hs Hf]. auto.
Qed.

Lemma elem_of_filter_to_preferred (preferred_set : gset Z) (starts : list Z) (dur s : Z) :
  s ∈ filter_to_preferred_if_possible preferred_set starts dur -> s ∈ starts.
Proof.
  unfold filter_to_preferred_if_possible.
  destruct (List.filter (fully_preferred preferred_set dur) starts) as [|x l] eqn:E;
    [auto|].
  rewrite <- E. intros [Hs _]%elem_of_List_filter. assumption.
Qed.

Lemma elem_of_take {A : Type} (n : nat) (l : list A) (x : A) : x ∈ take n l -> x ∈ l.
Proof. intros H. rewrite <- (take_drop n l). apply elem_of_app. auto. Qed.

(** X12: every candidate start of an event passed every hard filter: it
    lies in the event's gross window, the event with its buffer fits in the
    grid from there, its first and last slot fall on active weekdays when
    some weekday is inactive, it respects the lead time (or is the event's
    current start) for priorities UnI and InU, and, for an event that may
    not overlap, it keeps the buffer from every blocking fixed interval. *)
Theorem X12_domain_containment (env : Env) (e : FlexibleEvent) (s : Z) :
  s ∈ domain_of env e ->
  s ∈ expand_window_slots e (horizon env) (now_slot env)
  /\ 0 <= s
  /\ s + duration_slots e + buffer_for env e <= total_slots (horizon env)
  /\ ((size (allowed_days env) < 7)%nat ->
      weekday (slot_to_dt (horizon env) s) ∈ allowed_days env
      /\ weekday (slot_to_dt (horizon env) (s + duration_slots e - 1)) ∈ allowed_days env)
  /\ ((priority e = "UnI" \/ priority e = "InU") -> 0 < now_slot env ->
      now_slot env <= s \/ (s < now_slot env /\ current_start_slot e = Some s))
  /\ (overlap e = false ->
      forall f, f ∈ fixed_blocking env -> blocks_capacity f = true ->
                s + duration_slots e + buffer_for env e <= start_slot f
                \/ end_slot f + buffer_for env e <= s).
Proof.
  unfold domain_of. destruct (latest_start_of env e <? 0); [intros H; inversion H|].
  unfold event_starts, reduce_candidates. intros Hs.
  apply elem_of_take in Hs. rewrite merge_sort_Permutation in Hs.
  apply elem_of_filter_to_preferred in Hs.
  apply elem_of_fixed_collision_filter in Hs as [Hs Hfixed].
  apply elem_of_lead_time_filter in Hs as [Hs Hlead].
  apply elem_of_filter_allowed_days in Hs as [Hs Hdays].
  apply elem_of_List_filter in Hs as [Hs Hfit].
  apply andb_prop in Hfit as [H0 Hlate]. apply Z.leb_le in H0, Hlate.
  unfold latest_start_of in Hlate.
  repeat split; try assumption; try lia.
  - apply Hdays. assumption.
  - apply Hdays. assumption.
Qed.

Lemma X12_domain_containment_witness :
  let env := env_of (at_time 9 0) happy_payload in
  let e := ingest_new (horizon_of happy_payload) (new_event "a" "PRONTO" 60 None None) in
  let s := 20 in
  s ∈ expand_window_slots e (horizon env) (now_slot env)
  /\ 0 <= s
  /\ s + duration_slots e + buffer_for env e <= total_slots (horizon env)
  /\ ((size (allowed_days env) < 7)%nat ->
      weekday (slot_to_dt (horizon env) s) ∈ allowed_days env
      /\ weekday (slot_to_dt (horizon env) (s + duration_slots e - 1)) ∈ allowed_days env)
  /\ ((priority e = "UnI" \/ priority e = "InU") -> 0 < now_slot env ->
      now_slot env <= s \/ (s < now_slot env /\ current_start_slot e = Some s))
  /\ (overlap e = false ->
      forall f, f ∈ fixed_blocking env -> blocks_capacity f = true ->
                s + duration_slots e + buffer_for env e <= start_slot f
                \/ end_slot f + buffer_for env e <= s).
Proof.
  apply (X12_domain_containment (env_of (at_time 9 0) happy_payload)
           (ingest_new (horizon_of happy_payload) (new_event "a" "PRONTO" 60 None None))
           20).
  apply (bool_decide_unpack _). vm_compute. exact I.
Defined.

Lemma StronglySorted_lt_NoDup (l : list Z) : StronglySorted Z.lt l -> NoDup l.
Proof.
  induction 1 as [|x l Hs IH Hall]; constructor; [|assumption].
  intros Hin. rewrite Forall_forall in Hall. specialize (Hall x Hin). lia.
Qed.

Lemma StronglySorted_le_lt (l : list Z) :
  StronglySorted Z.le l -> NoDup l -> StronglySorted Z.lt l.
Proof.
  induction 1 as [|x l Hs IH Hall]; intros Hnd; constructor.
  - apply IH. apply NoDup_cons in Hnd. tauto.
  - apply NoDup_cons in Hnd as [Hx _]. rewrite Forall_forall in *.
    intros y Hy. specialize (Hall y Hy).
    assert (x <> y) by (intros ->; contradiction). lia.
Qed.

Lemma NoDup_List_filter {A : Type} (f : A -> bool) (l : list A) :
  NoDup l -> NoDup (List.filter f l).
Proof.
  induction 1 as [|x l Hx Hnd IH]; cbn; [constructor|].
  destruct (f x); [|assumption].
  constructor; [|assumption].
  intros Hin. apply elem_of_List_filter in Hin. tauto.
Qed.

Lemma NoDup_lead_time_filter (e : FlexibleEvent) (now : Z) (base_range : list Z) :
  NoDup base_range -> NoDup (lead_time_filter e now base_range).
Proof.
  intros Hnd. unfold lead_time_filter.
  destruct ((String.eqb (priority e) "UnI" || String.eqb (priority e) "InU")
            && (0 <? now)); [|assumption].
  match goal with |- NoDup (match ?l with [] => _ | _ => _ end) => destruct l end;
    [constructor | apply NoDup_sorted_set].
Qed.

Lemma NoDup_event_starts_unsorted (env : Env) (e : FlexibleEvent) :
  NoDup (filter_to_preferred_if_possible (preferred_slots env)
           (fixed_collision_filter e (fixed_blocking env) (buffer_for env e)
              (lead_time_filter e (now_slot env)
                 (filter_allowed_days (horizon env) (allowed_days env)
                    (List.filter
                       (fun s => (0 <=? s) && (s <=? latest_start_of env e))
                       (expand_window_slots e (horizon env) (now_slot env)))
                    (duration_slots e))))
           (duration_slots e)).
Proof.
  assert (H1 : NoDup (expand_window_slots e (horizon env) (now_slot env))).
  { apply StronglySorted_lt_NoDup.
    unfold expand_window_slots.
    repeat match goal with
           | |- context [String.eqb ?a ?b] => destruct (String.eqb a b)
           | |- context [match ?o with Some _ => _ | None => _ end] => destruct o
           end; apply StronglySorted_py_range. }
  pose proof (NoDup_List_filter (fun s => (0 <=? s) && (s <=? latest_start_of env e))
                _ H1) as H1'.
  assert (H2 : NoDup (filter_allowed_days (horizon env) (allowed_days env)
                        (List.filter
                           (fun s => (0 <=? s) && (s <=? latest_start_of env e))
                           (expand_window_slots e (horizon env) (now_slot env)))
                        (duration_slots e))).
  { unfold filter_allowed_days. destruct (7 <=? size (allowed_days env))%nat;
      [exact H1' | apply NoDup_List_filter; exact H1']. }
  apply (NoDup_lead_time_filter e (now_slot env)) in H2.
  match type of H2 with NoDup ?l => set (base := l) in * end.
  assert (H3 : NoDup (fixed_collision_filter e (fixed_blocking env) (buffer_for env e) base)).
  { unfold fixed_collision_filter.
    destruct (negb (overlap e) && match fixed_blocking env with [] => false | _ => true end);
      [|assumption].
    rewrite remove_conflicting_starts_filter. apply NoDup_List_filter. assumption. }
  match type of H3 with NoDup ?l => set (starts := l) in * end.
  unfold filter_to_preferred_if_possible.
  destruct (List.filter (fully_preferred (preferred_slots env) (duration_slots e)) starts)
    as [|x l] eqn:E; [assumption|].
  rewrite <- E. apply NoDup_List_filter. assumption.
Qed.

Lemma domain_of_strictly_sorted (env : Env) (e : FlexibleEvent) :
  StronglySorted Z.lt (domain_of env e).
Proof.
  unfold domain_of. destruct (latest_start_of env e <? 0); [constructor|].
  unfold event_starts, reduce_candidates.
  match goal with |- StronglySorted _ (take _ (merge_sort _ ?l)) =>
    set (unsorted := l);
    assert (Hnd : NoDup unsorted) by apply NoDup_event_starts_unsorted
  end.
  assert (Hfull : StronglySorted Z.lt (merge_sort Z.le unsorted)).
  { apply StronglySorted_le_lt.
    - apply StronglySorted_merge_sort; [intros x y z; lia | intros x y; lia].
    - rewrite merge_sort_Permutation. assumption. }
  rewrite <- (take_drop 300 (merge_sort Z.le unsorted)) in Hfull.
  apply StronglySorted_app_1_l in Hfull. assumption.
Qed.

(** X13: the candidate list of an event is strictly ascending, hence free
    of duplicates, and never longer than 300. *)
Theorem X13_domain_sorted_and_bounded (env : Env) (e : FlexibleEvent) :
  StronglySorted Z.lt (domain_of env e)
  /\ NoDup (domain_of env e)
  /\ (length (domain_of env e) <= 300)%nat.
Proof.
  pose proof (domain_of_strictly_sorted env e) as Hsorted.
  split; [assumption|]. split; [apply StronglySorted_lt_NoDup; assumption|].
  unfold domain_of. destruct (latest_start_of env e <? 0); [cbn; lia|].
  unfold event_starts, reduce_candidates. rewrite length_take. lia.
Qed.

Lemma count_offpref_zero (s dur : Z) (preferred_set : gset Z) :
  count_offpref_slots s dur preferred_set = 0
  <-> forall t, s <= t < s + dur -> t ∈ preferred_set.
Proof.
  rewrite count_offpref_slots_spec. unfold offpref_count.
  split.
  - intros Hz t Ht.
    destruct (decide (t ∈ preferred_set)) as [|Hn]; [assumption | exfalso].
    assert (Hin : t ∈ filter (fun t => t ∉ preferred_set) (py_range s (s + dur))).
    { apply list_elem_of_filter. split; [assumption | apply elem_of_py_range; assumption]. }
    destruct (filter (fun t => t ∉ preferred_set) (py_range s (s + dur)));
      [inversion Hin | cbn in Hz; lia].
  - intros Hall.
    destruct (filter (fun t => t ∉ preferred_set) (py_range s (s + dur))) as [|t l] eqn:E;
      [reflexivity | exfalso].
    assert (Hin : t ∈ filter (fun t => t ∉ preferred_set) (py_range s (s + dur)))
      by (rewrite E; left).
    apply list_elem_of_filter in Hin as [Hn Hr]. apply elem_of_py_range in Hr. auto.
Qed.

(** X14: the candidates of an event are never a mix: as soon as one start
    that passed the hard filters lies wholly in the preference set, every
    candidate does, and then every candidate has no off-preference slot. *)
Theorem X14_preferred_all_or_none (env : Env) (e : FlexibleEvent) (s0 : Z) :
  s0 ∈ domain_of env e ->
  (forall t, s0 <= t < s0 + duration_slots e -> t ∈ preferred_slots env) ->
  forall s, s ∈ domain_of env e ->
            (forall t, s <= t < s + duration_slots e -> t ∈ preferred_slots env)
            /\ count_offpref_slots s (duration_slots e) (preferred_slots env) = 0.
Proof.
  unfold domain_of. destruct (latest_start_of env e <? 0); [intros H; inversion H|].
  unfold event_starts, reduce_candidates.
  match goal with |- context [filter_to_preferred_if_possible ?p ?l ?d] =>
    set (starts := l) end.
  intros Hs0 Hpref0 s Hs.
  apply elem_of_take in Hs0, Hs. rewrite merge_sort_Permutation in Hs0, Hs.
  assert (Hin0 : s0 ∈ List.filter (fully_preferred (preferred_slots env) (duration_slots e))
                       starts).
  { apply elem_of_List_filter. split.
    - eapply elem_of_filter_to_preferred. eassumption.
    - apply fully_preferred_spec. assumption. }
  unfold filter_to_preferred_if_possible in Hs.
  destruct (List.filter (fully_preferred (preferred_slots env) (duration_slots e)) starts)
    as [|x l] eqn:E; [inversion Hin0|].
  rewrite <- E in Hs. apply elem_of_List_filter in Hs as [_ Hfp].
  pose proof (proj1 (fully_preferred_spec _ _ _) Hfp) as Hall.
  split; [exact Hall|]. apply count_offpref_zero. exact Hall.
Qed.

Lemma X14_preferred_all_or_none_witness :
  let env := env_of (at_time 9 0) happy_payload in
  let e := ingest_new (horizon_of happy_payload) (new_event "a" "PRONTO" 60 None None) in
  20 ∈ domain_of env e
  /\ forall s, s ∈ domain_of env e ->
                (forall t, s <= t < s + duration_slots e -> t ∈ preferred_slots env)
                /\ count_offpref_slots s (duration_slots e) (preferred_slots env) = 0.
Proof.
  cbv zeta. split; [apply (bool_decide_unpack _); vm_compute; exact I|].
  apply (X14_preferred_all_or_none (env_of (at_time 9 0) happy_payload)
           (ingest_new (horizon_of happy_payload) (new_event "a" "PRONTO" 60 None None))
           20).
  - apply (bool_decide_unpack _). vm_compute. exact I.
  - intros t Ht.
    assert (Hd : duration_slots
                   (ingest_new (horizon_of happy_payload)
                      (new_event "a" "PRONTO" 60 None None)) = 2) by reflexivity.
    rewrite Hd in Ht. assert (Hc : t = 20 \/ t = 21) by lia.
    destruct Hc as [-> | ->]; apply (bool_decide_unpack _); vm_compute; exact I.
Defined.



(** ** The structure of the model *)

Lemma vars_loop_vars (buf : Z) (ev : FlexibleEvent) (cands : list Z)
    (b : Builder) (xs : list nat) :
  b_vars (vars_loop buf ev cands b xs).1 = b_vars b ++ (var_name ev <$> cands)
  /\ (vars_loop buf ev cands b xs).2 = xs ++ seq (length (b_vars b)) (length cands)
  /\ b_sums (vars_loop buf ev cands b xs).1 = b_sums b.
Proof.
  revert b xs. induction cands as [|s rest IH]; intros b xs; cbn [vars_loop].
  - cbn. rewrite !app_nil_r. auto.
  - match goal with |- context [vars_loop buf ev rest ?b1 ?xs1] =>
      destruct (IH b1 xs1) as (Hv & Hx & Hs) end.
    rewrite Hv, Hx, Hs. cbn [b_vars b_sums]. rewrite <- !app_assoc.
    rewrite length_app. cbn. rewrite Nat.add_1_r. auto.
Qed.

Lemma vars_loop_frame (buf : Z) (ev : FlexibleEvent) (cands : list Z)
    (b : Builder) (xs : list nat) (k : string * Z) :
  (forall s, s ∈ cands -> k <> (id ev, s)) ->
  b_x_vars (vars_loop buf ev cands b xs).1 !! k = b_x_vars b !! k.
Proof.
  revert b xs. induction cands as [|s rest IH]; intros b xs Hk; cbn [vars_loop];
    [reflexivity|].
  rewrite IH by (intros s' Hs'; apply Hk; right; assumption).
  cbn [b_x_vars]. apply lookup_insert_ne. intros E. apply (Hk s); [left | auto].
Qed.

Lemma vars_loop_intervals_mono (buf : Z) (ev : FlexibleEvent) (cands : list Z)
    (b : Builder) (xs : list nat) (iv : IntervalVar) :
  iv ∈ b_intervals b -> iv ∈ b_intervals (vars_loop buf ev cands b xs).1.
Proof.
  revert b xs. induction cands as [|s rest IH]; intros b xs Hin; cbn [vars_loop];
    [assumption|].
  apply IH. cbn [b_intervals]. destruct (negb (overlap ev)); [|assumption].
  apply elem_of_app. auto.
Qed.

(** The literal of the candidate at position [i] is the [i]-th variable
    created in this turn, and its interval is recorded. *)
Lemma vars_loop_positions (buf : Z) (ev : FlexibleEvent) (cands : list Z)
    (b : Builder) (xs : list nat) :
  NoDup cands ->
  forall (i : nat) (s : Z), cands !! i = Some s ->
    b_x_vars (vars_loop buf ev cands b xs).1 !! (id ev, s)
    = Some (length (b_vars b) + i)%nat
    /\ (overlap ev = false ->
        event_interval buf ev s (length (b_vars b) + i)
        ∈ b_intervals (vars_loop buf ev cands b xs).1).
Proof.
  revert b xs. induction cands as [|s0 rest IH]; intros b xs Hnd i s Hi;
    [discriminate|].
  apply NoDup_cons in Hnd as [Hfresh Hnd]. cbn [vars_loop].
  destruct i as [|i].
  - cbn in Hi. injection Hi as ->. split.
    + rewrite vars_loop_frame.
      * cbn [b_x_vars]. rewrite lookup_insert_eq. f_equal. lia.
      * intros s' Hs' [= ->]. contradiction.
    + intros Ho. apply vars_loop_intervals_mono. cbn [b_intervals].
      rewrite Ho. cbn [negb]. apply elem_of_app. right.
      rewrite Nat.add_0_r. unfold event_interval. left.
  - cbn in Hi.
    match goal with |- context [vars_loop buf ev rest ?b1 ?xs1] =>
      destruct (IH b1 xs1 Hnd i s Hi) as [Hl Hiv] end.
    cbn [b_vars] in Hl, Hiv. rewrite length_app in Hl, Hiv. cbn in Hl, Hiv.
    replace (length (b_vars b) + 1 + i)%nat with (length (b_vars b) + S i)%nat
      in Hl, Hiv by lia.
    auto.
Qed.

Lemma vars_loop_intervals_origin (buf : Z) (ev : FlexibleEvent) (cands : list Z)
    (b : Builder) (xs : list nat) (iv : IntervalVar) :
  iv ∈ b_intervals (vars_loop buf ev cands b xs).1 ->
  iv ∈ b_intervals b
  \/ (overlap ev = false
      /\ exists s v, s ∈ cands /\ iv = event_interval buf ev s v).
Proof.
  revert b xs. induction cands as [|s0 rest IH]; intros b xs; cbn [vars_loop];
    [auto|].
  intros Hin. apply IH in Hin as [Hin | (Ho & s & v & Hs & ->)].
  - cbn [b_intervals] in Hin. destruct (overlap ev) eqn:Ho; cbn [negb] in Hin;
      [auto|].
    apply elem_of_app in Hin as [Hin | Hin]; [auto|].
    apply list_elem_of_singleton in Hin. right. split; [reflexivity|].
    exists s0, (length (b_vars b)). split; [left | exact Hin].
  - right. split; [assumption|]. exists s, v. split; [right; assumption | reflexivity].
Qed.

Lemma vars_loop_bounded (buf : Z) (ev : FlexibleEvent) (cands : list Z)
    (b : Builder) (xs : list nat) :
  vars_bounded b -> vars_bounded (vars_loop buf ev cands b xs).1.
Proof.
  revert b xs. induction cands as [|s rest IH]; intros b xs Hb; cbn [vars_loop];
    [assumption|].
  apply IH. intros k v. cbn [b_x_vars b_vars]. rewrite length_app. cbn.
  destruct (decide (k = (id ev, s))) as [->|Hne].
  - rewrite lookup_insert_eq. intros [= <-]. lia.
  - rewrite lookup_insert_ne by congruence. intros Hk. specialize (Hb k v Hk). lia.
Qed.

Lemma vars_loop_injective (buf : Z) (ev : FlexibleEvent) (cands : list Z)
    (b : Builder) (xs : list nat) :
  vars_bounded b -> vars_injective (b_x_vars b) ->
  vars_injective (b_x_vars (vars_loop buf ev cands b xs).1).
Proof.
  revert b xs. induction cands as [|s rest IH]; intros b xs Hb Hinj; cbn [vars_loop];
    [assumption|].
  apply IH.
  - intros k v. cbn [b_x_vars b_vars]. rewrite length_app. cbn.
    destruct (decide (k = (id ev, s))) as [->|Hne].
    + rewrite lookup_insert_eq. intros [= <-]. lia.
    + rewrite lookup_insert_ne by congruence. intros Hk. specialize (Hb k v Hk). lia.
  - intros k1 k2 v. cbn [b_x_vars].
    destruct (decide (k1 = (id ev, s))) as [->|Hne1];
      destruct (decide (k2 = (id ev, s))) as [->|Hne2]; [reflexivity | | |].
    + rewrite lookup_insert_eq, lookup_insert_ne by congruence.
      intros [= <-] Hk. specialize (Hb k2 _ Hk). lia.
    + rewrite lookup_insert_eq, lookup_insert_ne by congruence.
      intros Hk [= <-]. specialize (Hb k1 _ Hk). lia.
    + rewrite !lookup_insert_ne by congruence. apply Hinj.
Qed.

Lemma events_loop_cons (buf : Z) (candidates : gmap string (list Z))
    (ev : FlexibleEvent) (rest : list FlexibleEvent) (b b' : Builder) :
  events_loop buf candidates (ev :: rest) b = Some b' ->
  exists cands,
    candidates !! id ev = Some cands
    /\ events_loop buf candidates rest
         {| b_vars := b_vars (vars_loop buf ev cands b []).1;
            b_x_vars := b_x_vars (vars_loop buf ev cands b []).1;
            b_intervals := b_intervals (vars_loop buf ev cands b []).1;
            b_sums := b_sums (vars_loop buf ev cands b []).1
                      ++ [(vars_loop buf ev cands b []).2] |}
       = Some b'.
Proof.
  cbn [events_loop]. destruct (candidates !! id ev) as [cands|]; [|discriminate].
  cbn. intros H. exists cands. split; [reflexivity|]. revert H.
  destruct (vars_loop buf ev cands b []) as [b1 xs]. cbn. auto.
Qed.

Lemma events_loop_frame (buf : Z) (candidates : gmap string (list Z))
    (flex : list FlexibleEvent) (b b' : Builder) (k : string * Z) :
  events_loop buf candidates flex b = Some b' ->
  k.1 ∉ (id <$> flex) ->
  b_x_vars b' !! k = b_x_vars b !! k.
Proof.
  revert b. induction flex as [|ev rest IH]; intros b H Hk.
  - cbn in H. injection H as <-. reflexivity.
  - apply events_loop_cons in H as (cands & _ & H).
    rewrite fmap_cons, not_elem_of_cons in Hk. destruct Hk as [Hne Hk].
    rewrite (IH _ H Hk). cbn [b_x_vars]. apply vars_loop_frame.
    intros s _ ->. apply Hne. reflexivity.
Qed.

Lemma events_loop_mono (buf : Z) (candidates : gmap string (list Z))
    (flex : list FlexibleEvent) (b b' : Builder) :
  events_loop buf candidates flex b = Some b' ->
  (forall iv, iv ∈ b_intervals b -> iv ∈ b_intervals b')
  /\ (forall xs, xs ∈ b_sums b -> xs ∈ b_sums b').
Proof.
  revert b. induction flex as [|ev rest IH]; intros b H.
  - cbn in H. injection H as <-. auto.
  - apply events_loop_cons in H as (cands & _ & H).
    destruct (IH _ H) as [Hiv Hxs]. cbn [b_intervals b_sums] in Hiv, Hxs. split.
    + intros iv Hin. apply Hiv. apply vars_loop_intervals_mono. assumption.
    + intros xs Hin. apply Hxs. apply elem_of_app. left.
      destruct (vars_loop_vars buf ev cands b []) as (_ & _ & ->). assumption.
Qed.

Lemma events_loop_invariants (buf : Z) (candidates : gmap string (list Z))
    (flex : list FlexibleEvent) (b b' : Builder) :
  events_loop buf candidates flex b = Some b' ->
  vars_bounded b -> vars_injective (b_x_vars b) ->
  vars_bounded b' /\ vars_injective (b_x_vars b').
Proof.
  revert b. induction flex as [|ev rest IH]; intros b H Hb Hinj.
  - cbn in H. injection H as <-. auto.
  - apply events_loop_cons in H as (cands & _ & H).
    apply (IH _ H).
    + exact (vars_loop_bounded buf ev cands b [] Hb).
    + exact (vars_loop_injective buf ev cands b [] Hb Hinj).
Qed.

Lemma events_loop_counts (buf : Z) (candidates : gmap string (list Z))
    (flex : list FlexibleEvent) (b b' : Builder) :
  events_loop buf candidates flex b = Some b' ->
  length (b_vars b') = (length (b_vars b) + candidate_total candidates flex)%nat
  /\ length (b_sums b') = (length (b_sums b) + length flex)%nat.
Proof.
  revert b. induction flex as [|ev rest IH]; intros b H.
  - cbn in H. injection H as <-. unfold candidate_total. cbn [foldr length].
    split; lia.
  - apply events_loop_cons in H as (cands & Hc & H).
    destruct (IH _ H) as [Hv Hs]. cbn [b_vars b_sums] in Hv, Hs.
    destruct (vars_loop_vars buf ev cands b []) as (Ev & _ & Es).
    rewrite Ev, length_app, length_fmap in Hv.
    rewrite Es, length_app in Hs. cbn in Hs.
    cbn [candidate_total foldr length]. rewrite Hc. cbn [default].
    fold (candidate_total candidates rest).
    change (Datatypes.id cands) with cands. lia.
Qed.

Lemma events_loop_intervals_origin (buf : Z) (candidates : gmap string (list Z))
    (flex : list FlexibleEvent) (b b' : Builder) (iv : IntervalVar) :
  events_loop buf candidates flex b = Some b' ->
  iv ∈ b_intervals b' ->
  iv ∈ b_intervals b
  \/ exists ev cands s v,
       ev ∈ flex /\ overlap ev = false /\ candidates !! id ev = Some cands
       /\ s ∈ cands /\ iv = event_interval buf ev s v.
Proof.
  revert b. induction flex as [|ev rest IH]; intros b H Hin.
  - cbn in H. injection H as <-. auto.
  - apply events_loop_cons in H as (cands & Hc & H).
    destruct (IH _ H Hin) as [Hin1 | (ev' & cands' & s & v & Hev & Ho & Hc' & Hs & ->)].
    + cbn [b_intervals] in Hin1.
      apply vars_loop_intervals_origin in Hin1 as [Hin1 | (Ho & s & v & Hs & ->)];
        [auto|].
      right. exists ev, cands, s, v. split; [left | auto].
    + right. exists ev', cands', s, v. split; [right; assumption | auto].
Qed.

Lemma event_modelled_kept (buf : Z) (candidates : gmap string (list Z))
    (flex : list FlexibleEvent) (b b' : Builder) (ev : FlexibleEvent) :
  events_loop buf candidates flex b = Some b' ->
  id ev ∉ (id <$> flex) ->
  event_modelled buf candidates b ev -> event_modelled buf candidates b' ev.
Proof.
  intros H Hid (cands & xs & Hc & Hxs & Hv & Hs).
  destruct (events_loop_mono _ _ _ _ _ H) as [Hiv Hsum].
  assert (Hl : forall s, b_x_vars b' !! (id ev, s) = b_x_vars b !! (id ev, s)).
  { intros s. apply (events_loop_frame _ _ _ _ _ (id ev, s) H). exact Hid. }
  exists cands, xs. split; [assumption|]. split; [auto|]. split.
  - intros v. rewrite Hv. split; intros (s & Hin & Hk); exists s;
      (split; [assumption|]); [rewrite Hl | rewrite <- Hl]; assumption.
  - intros s Hin. destruct (Hs s Hin) as (v & Hk & Ho).
    exists v. rewrite Hl. auto.
Qed.

(** Every event the builder walks over is modelled in the result, when
    identifiers are distinct and candidate lists duplicate-free. *)
Lemma events_loop_modelled (buf : Z) (candidates : gmap string (list Z))
    (flex : list FlexibleEvent) (b b' : Builder) :
  events_loop buf candidates flex b = Some b' ->
  NoDup (id <$> flex) ->
  candidates_ready candidates flex ->
  forall ev, ev ∈ flex -> event_modelled buf candidates b' ev.
Proof.
  revert b. induction flex as [|ev0 rest IH]; intros b H Hnd Hready ev Hin;
    [inversion Hin|].
  rewrite fmap_cons in Hnd. apply NoDup_cons in Hnd as [Hfresh Hnd].
  pose proof H as H0. apply events_loop_cons in H as (cands & Hc & H).
  assert (Hready' : candidates_ready candidates rest).
  { intros e He. apply Hready. right. assumption. }
  apply elem_of_cons in Hin as [-> | Hin]; [|exact (IH _ H Hnd Hready' ev Hin)].
  apply (event_modelled_kept _ _ _ _ _ _ H Hfresh).
  destruct (Hready ev0 ltac:(left)) as (cands' & Hc' & Hndc).
  rewrite Hc in Hc'. injection Hc' as <-.
  pose proof (vars_loop_positions buf ev0 cands b [] Hndc) as Hpos.
  destruct (vars_loop_vars buf ev0 cands b []) as (_ & Hxs & _).
  exists cands, (vars_loop buf ev0 cands b []).2.
  split; [assumption|]. cbn [b_sums b_x_vars b_intervals]. split.
  { apply elem_of_app. right. left. }
  split.
  - intros v. rewrite Hxs. cbn [app]. rewrite list_elem_of_In, in_seq. split.
    + intros Hv.
      destruct (lookup_lt_is_Some_2 cands (v - length (b_vars b))%nat) as [s Hs];
        [lia|].
      exists s. split; [eapply list_elem_of_lookup_2; eassumption|].
      destruct (Hpos _ _ Hs) as [Hl _]. rewrite Hl. f_equal. lia.
    + intros (s & Hs & Hk). apply list_elem_of_lookup_1 in Hs as [i Hi].
      destruct (Hpos _ _ Hi) as [Hl _]. rewrite Hl in Hk. injection Hk as <-.
      apply lookup_lt_Some in Hi. lia.
  - intros s Hs. apply list_elem_of_lookup_1 in Hs as [i Hi].
    destruct (Hpos _ _ Hi) as [Hl Hiv]. eauto.
Qed.

Lemma objective_inner_spec (costs : gmap (string * Z) Costs)
    (x_vars : gmap (string * Z) nat) (ev : FlexibleEvent) (cands : list Z)
    (obj_terms terms : list (Z * nat)) :
  objective_inner costs x_vars ev cands obj_terms = Some terms ->
  forall c v,
    (c, v) ∈ terms
    <-> (c, v) ∈ obj_terms
        \/ exists s, s ∈ cands /\ total <$> costs !! (id ev, s) = Some c /\ c <> 0
                     /\ x_vars !! (id ev, s) = Some v.
Proof.
  revert obj_terms. induction cands as [|s0 rest IH]; intros obj_terms H c v.
  - cbn in H. injection H as <-. split; [auto|].
    intros [Hin | (s & Hs & _)]; [assumption | inversion Hs].
  - cbn in H. destruct (total <$> costs !! (id ev, s0)) as [c0|] eqn:Ec; [|discriminate].
    cbn in H. destruct (Z.eqb_spec c0 0) as [Hz|Hnz].
    + rewrite (IH _ H). split.
      * intros [Hin | (s & Hs & Hrest)]; [auto|].
        right. exists s. split; [right; assumption | assumption].
      * intros [Hin | (s & Hs & Hc & Hne & Hv)]; [auto|].
        apply elem_of_cons in Hs as [-> | Hs].
        -- rewrite Ec in Hc. injection Hc as <-. contradiction.
        -- right. exists s. auto.
    + destruct (x_vars !! (id ev, s0)) as [v0|] eqn:Ev; [|discriminate]. cbn in H.
      rewrite (IH _ H), elem_of_app, list_elem_of_singleton. split.
      * intros [[Hin | [= -> ->]] | (s & Hs & Hrest)]; [auto | |].
        -- right. exists s0. split; [left | auto].
        -- right. exists s. split; [right; assumption | assumption].
      * intros [Hin | (s & Hs & Hc & Hne & Hv)]; [auto|].
        apply elem_of_cons in Hs as [-> | Hs].
        -- rewrite Ec in Hc. injection Hc as <-. rewrite Ev in Hv. injection Hv as <-.
           left. right. reflexivity.
        -- right. exists s. auto.
Qed.

Lemma objective_loop_spec (candidates : gmap string (list Z))
    (costs : gmap (string * Z) Costs) (x_vars : gmap (string * Z) nat)
    (flex : list FlexibleEvent) (obj_terms terms : list (Z * nat)) :
  objective_loop candidates costs x_vars flex obj_terms = Some terms ->
  forall c v,
    (c, v) ∈ terms
    <-> (c, v) ∈ obj_terms
        \/ exists ev starts s,
             ev ∈ flex /\ candidates !! id ev = Some starts /\ s ∈ starts
             /\ total <$> costs !! (id ev, s) = Some c /\ c <> 0
             /\ x_vars !! (id ev, s) = Some v.
Proof.
  revert obj_terms. induction flex as [|ev rest IH]; intros obj_terms H c v.
  - cbn in H. injection H as <-. split; [auto|].
    intros [Hin | (ev & starts & s & Hev & _)]; [assumption | inversion Hev].
  - cbn in H. destruct (candidates !! id ev) as [cands|] eqn:Ec; [|discriminate].
    cbn in H.
    destruct (objective_inner costs x_vars ev cands obj_terms) as [t1|] eqn:E1;
      [|discriminate].
    cbn in H. rewrite (IH _ H), (objective_inner_spec _ _ _ _ _ _ E1). split.
    + intros [[Hin | (s & Hs & Hrest)] | (ev' & starts & s & Hev & Hrest)]; [auto | |].
      * right. exists ev, cands, s. split; [left | auto].
      * right. exists ev', starts, s. split; [right; assumption | assumption].
    + intros [Hin | (ev' & starts & s & Hev & Hst & Hs & Hrest)]; [auto|].
      apply elem_of_cons in Hev as [-> | Hev].
      * rewrite Ec in Hst. injection Hst as <-. left. right. exists s. auto.
      * right. exists ev', starts, s. auto.
Qed.

Lemma build_model_inv (buf : Z) (blocking : list FixedEvent)
    (candidates : gmap string (list Z)) (costs : gmap (string * Z) Costs)
    (flex : list FlexibleEvent) (model : CpModel) (x_vars : gmap (string * Z) nat) :
  build_model buf blocking candidates costs flex = Some (model, x_vars) ->
  exists b,
    events_loop buf candidates flex
      {| b_vars := []; b_x_vars := ∅; b_intervals := []; b_sums := [] |} = Some b
    /\ objective_loop candidates costs (b_x_vars b) flex [] = Some (minimize model)
    /\ bool_vars model = b_vars b
    /\ sum_eq_one model = b_sums b
    /\ no_overlap model
       = match b_intervals b ++ (fixed_interval <$> blocking) with
         | [] => []
         | _ => [b_intervals b ++ (fixed_interval <$> blocking)]
         end
    /\ x_vars = b_x_vars b.
Proof.
  unfold build_model.
  destruct (events_loop buf candidates flex _) as [b|] eqn:Eb; [|discriminate]. cbn.
  destruct (objective_loop candidates costs (b_x_vars b) flex []) as [obj|] eqn:Eo;
    [|discriminate].
  cbn. intros [= <- <-]. exists b. cbn. auto 10.
Qed.

Lemma model_of_inv (now_local : datetime) (p : Payload)
    (candidates : gmap string (list Z)) (costs : gmap (string * Z) Costs)
    (model : CpModel) (x_vars : gmap (string * Z) nat) :
  tables_of now_local p = Some (candidates, costs) ->
  model_of now_local p = Some (model, x_vars) ->
  build_model (buffer_slots (env_of now_local p)) (fixed_blocking (env_of now_local p))
    candidates costs (with_candidates candidates (ingest_flex (horizon_of p) p))
  = Some (model, x_vars).
Proof.
  intros Ht Hm. unfold model_of in Hm. rewrite Ht in Hm. exact Hm.
Qed.

Lemma empty_builder_ok :
  vars_bounded {| b_vars := []; b_x_vars := ∅; b_intervals := []; b_sums := [] |}
  /\ vars_injective (∅ : gmap (string * Z) nat).
Proof.
  split.
  - intros k v. cbn. rewrite lookup_empty. discriminate.
  - intros k1 k2 v. rewrite lookup_empty. discriminate.
Qed.

(** X16: the model has one Boolean variable per candidate of the events
    that have candidates and one exactly-one constraint per such event;
    the literal table is one-to-one into the created variables; and the
    objective has a term exactly for the candidates whose total cost is not
    zero, with that cost as coefficient. *)
Theorem X16_model_size_and_objective (now_local : datetime) (p : Payload)
    (candidates : gmap string (list Z)) (costs : gmap (string * Z) Costs)
    (model : CpModel) (x_vars : gmap (string * Z) nat) :
  tables_of now_local p = Some (candidates, costs) ->
  model_of now_local p = Some (model, x_vars) ->
  let modelled := with_candidates candidates (ingest_flex (horizon_of p) p) in
  length (bool_vars model) = candidate_total candidates modelled
  /\ length (sum_eq_one model) = length modelled
  /\ (forall k v, x_vars !! k = Some v -> (v < length (bool_vars model))%nat)
  /\ (forall k1 k2 v, x_vars !! k1 = Some v -> x_vars !! k2 = Some v -> k1 = k2)
  /\ forall c v,
       (c, v) ∈ minimize model
       <-> exists ev starts s,
             ev ∈ modelled /\ candidates !! id ev = Some starts /\ s ∈ starts
             /\ total <$> costs !! (id ev, s) = Some c /\ c <> 0
             /\ x_vars !! (id ev, s) = Some v.
Proof.
  intros Ht Hm modelled.
  destruct (build_model_inv _ _ _ _ _ _ _ (model_of_inv _ _ _ _ _ _ Ht Hm))
    as (b & Hb & Hobj & Hvars & Hsums & _ & ->).
  destruct empty_builder_ok as [Hb0 Hi0].
  destruct (events_loop_invariants _ _ _ _ _ Hb Hb0 Hi0) as [Hbound Hinj].
  destruct (events_loop_counts _ _ _ _ _ Hb) as [Hnv Hns]. cbn in Hnv, Hns.
  rewrite Hvars, Hsums. split; [exact Hnv|]. split; [exact Hns|].
  split; [exact Hbound|]. split; [exact Hinj|].
  intros c v. rewrite (objective_loop_spec _ _ _ _ _ _ Hobj c v). split.
  - intros [Hin | H]; [inversion Hin | exact H].
  - intros H. right. exact H.
Qed.

Lemma X16_model_size_and_objective_witness :
  exists candidates costs model x_vars,
    tables_of (at_time 8 0) clash_payload = Some (candidates, costs)
    /\ model_of (at_time 8 0) clash_payload = Some (model, x_vars)
    /\ length (bool_vars model)
       = candidate_total candidates
           (with_candidates candidates
              (ingest_flex (horizon_of clash_payload) clash_payload))
    /\ length (sum_eq_one model)
       = length (with_candidates candidates
                   (ingest_flex (horizon_of clash_payload) clash_payload)).
Proof.
  destruct (tables_of (at_time 8 0) clash_payload) as [[candidates costs]|] eqn:Et;
    [|vm_compute in Et; discriminate].
  destruct (model_of (at_time 8 0) clash_payload) as [[model x_vars]|] eqn:Em;
    [|vm_compute in Em; discriminate].
  destruct (X16_model_size_and_objective (at_time 8 0) clash_payload
              candidates costs model x_vars Et Em) as (H1 & H2 & _).
  exists candidates, costs, model, x_vars. auto.
Defined.

(** X17: the single no-overlap constraint holds only the mandatory
    intervals [start_slot, end_slot) of the blocking fixed events and the
    optional intervals [s, s + duration + buffer) of candidates of events
    that may not overlap; an event that may overlap contributes none, and
    without such intervals no constraint is added. *)
Theorem X17_no_overlap_intervals (now_local : datetime) (p : Payload)
    (candidates : gmap string (list Z)) (costs : gmap (string * Z) Costs)
    (model : CpModel) (x_vars : gmap (string * Z) nat) :
  tables_of now_local p = Some (candidates, costs) ->
  model_of now_local p = Some (model, x_vars) ->
  let env := env_of now_local p in
  let modelled := with_candidates candidates (ingest_flex (horizon_of p) p) in
  (length (no_overlap model) <= 1)%nat
  /\ (forall ivs iv, ivs ∈ no_overlap model -> iv ∈ ivs ->
        (exists f, f ∈ fixed_blocking env /\ blocks_capacity f = true
                   /\ iv = fixed_interval f)
        \/ (exists ev starts s v,
              ev ∈ modelled /\ overlap ev = false
              /\ candidates !! id ev = Some starts /\ s ∈ starts
              /\ iv = event_interval (buffer_slots env) ev s v))
  /\ (forall f, f ∈ fixed_blocking env ->
        exists ivs, ivs ∈ no_overlap model /\ fixed_interval f ∈ ivs)
  /\ (fixed_blocking env = [] -> (forall ev, ev ∈ modelled -> overlap ev = true) ->
      no_overlap model = []).
Proof.
  intros Ht Hm env modelled.
  destruct (build_model_inv _ _ _ _ _ _ _ (model_of_inv _ _ _ _ _ _ Ht Hm))
    as (b & Hb & _ & _ & _ & Hno & _).
  fold env in Hb, Hno. fold modelled in Hb.
  assert (Horigin : forall iv,
             iv ∈ b_intervals b ++ (fixed_interval <$> fixed_blocking env) ->
             (exists f, f ∈ fixed_blocking env /\ blocks_capacity f = true
                        /\ iv = fixed_interval f)
             \/ (exists ev starts s v,
                   ev ∈ modelled /\ overlap ev = false
                   /\ candidates !! id ev = Some starts /\ s ∈ starts
                   /\ iv = event_interval (buffer_slots env) ev s v)).
  { intros iv [Hin | Hin]%elem_of_app.
    - right.
      destruct (events_loop_intervals_origin _ _ _ _ _ iv Hb Hin)
        as [Hin0 | (ev & starts & s & v & H)]; [inversion Hin0|].
      exists ev, starts, s, v. tauto.
    - left. apply list_elem_of_fmap in Hin as (f & -> & Hf).
      exists f. split; [assumption|]. split; [|reflexivity].
      apply elem_of_blocking_of in Hf. tauto. }
  rewrite Hno.
  destruct (b_intervals b ++ (fixed_interval <$> fixed_blocking env)) as [|iv0 l] eqn:E.
  - split; [cbn; lia|]. split; [intros ivs iv Hin; inversion Hin|]. split; [|auto].
    intros f Hf. exfalso.
    assert (Hin : fixed_interval f ∈ b_intervals b ++ (fixed_interval <$> fixed_blocking env)).
    { apply elem_of_app. right. apply list_elem_of_fmap. eauto. }
    rewrite E in Hin. inversion Hin.
  - split; [cbn; lia|]. split; [|split].
    + intros ivs iv Hivs Hiv. apply list_elem_of_singleton in Hivs. subst ivs.
      apply Horigin. assumption.
    + intros f Hf. exists (iv0 :: l). split; [left|]. rewrite <- E.
      apply elem_of_app. right. apply list_elem_of_fmap. eauto.
    + intros Hnf Hall. exfalso.
      destruct (Horigin iv0 ltac:(left)) as [(f & Hf & _) | (ev & _ & _ & _ & Hev & Ho & _)].
      * rewrite Hnf in Hf. inversion Hf.
      * rewrite (Hall ev Hev) in Ho. discriminate.
Qed.

Lemma X17_no_overlap_intervals_witness :
  exists candidates costs model x_vars,
    tables_of (at_time 8 0) no_domain_payload = Some (candidates, costs)
    /\ model_of (at_time 8 0) no_domain_payload = Some (model, x_vars)
    /\ (length (no_overlap model) <= 1)%nat
    /\ forall f, f ∈ fixed_blocking (env_of (at_time 8 0) no_domain_payload) ->
         exists ivs, ivs ∈ no_overlap model /\ fixed_interval f ∈ ivs.
Proof.
  destruct (tables_of (at_time 8 0) no_domain_payload) as [[candidates costs]|] eqn:Et;
    [|vm_compute in Et; discriminate].
  destruct (model_of (at_time 8 0) no_domain_payload) as [[model x_vars]|] eqn:Em;
    [|vm_compute in Em; discriminate].
  destruct (X17_no_overlap_intervals (at_time 8 0) no_domain_payload
              candidates costs model x_vars Et Em) as (H1 & _ & H3 & _).
  exists candidates, costs, model, x_vars. auto.
Defined.

(** ** What a sound solver guarantees *)

Lemma unique_by_id (l : list FlexibleEvent) (e1 e2 : FlexibleEvent) :
  NoDup (id <$> l) -> e1 ∈ l -> e2 ∈ l -> id e1 = id e2 -> e1 = e2.
Proof.
  induction l as [|e l IH]; intros Hnd H1 H2 Hid; [inversion H1|].
  rewrite fmap_cons in Hnd. apply NoDup_cons in Hnd as [Hfresh Hnd].
  apply elem_of_cons in H1 as [-> | H1]; apply elem_of_cons in H2 as [-> | H2].
  - reflexivity.
  - exfalso. apply Hfresh. rewrite Hid. apply list_elem_of_fmap. eauto.
  - exfalso. apply Hfresh. rewrite <- Hid. apply list_elem_of_fmap. eauto.
  - auto.
Qed.

Lemma NoDup_ids_filter (f : FlexibleEvent -> bool) (l : list FlexibleEvent) :
  NoDup (id <$> l) -> NoDup (id <$> List.filter f l).
Proof.
  induction l as [|e l IH]; intros Hnd; [constructor|].
  rewrite fmap_cons in Hnd. apply NoDup_cons in Hnd as [Hfresh Hnd].
  cbn. destruct (f e); [|auto]. rewrite fmap_cons. apply NoDup_cons. split; [|auto].
  intros Hin. apply Hfresh. apply list_elem_of_fmap in Hin as (e' & -> & He').
  apply elem_of_List_filter in He' as [He' _]. apply list_elem_of_fmap. eauto.
Qed.

Lemma tables_candidates_ready (now_local : datetime) (p : Payload)
    (candidates : gmap string (list Z)) (costs : gmap (string * Z) Costs) :
  tables_of now_local p = Some (candidates, costs) ->
  candidates_ready candidates
    (with_candidates candidates (ingest_flex (horizon_of p) p)).
Proof.
  intros Ht ev [Hev _]%with_candidates_has.
  assert (Hid : id ev ∈ (id <$> ingest_flex (horizon_of p) p))
    by (apply list_elem_of_fmap; eauto).
  destruct (candidates_loop_last _ _ _ _ _ Ht Hid) as (e' & _ & _ & Hdom & _).
  cbn in Hdom. exists (domain_of (env_of now_local p) e'). split; [assumption|].
  apply StronglySorted_lt_NoDup, domain_of_strictly_sorted.
Qed.

(** With distinct identifiers the table holds each event's own domain. *)
Lemma tables_own_domain (now_local : datetime) (p : Payload)
    (candidates : gmap string (list Z)) (costs : gmap (string * Z) Costs)
    (e : FlexibleEvent) :
  tables_of now_local p = Some (candidates, costs) ->
  NoDup (id <$> ingest_flex (horizon_of p) p) ->
  e ∈ ingest_flex (horizon_of p) p ->
  candidates !! id e = Some (domain_of (env_of now_local p) e).
Proof.
  intros Ht Hnd He.
  assert (Hid : id e ∈ (id <$> ingest_flex (horizon_of p) p))
    by (apply list_elem_of_fmap; eauto).
  destruct (candidates_loop_last _ _ _ _ _ Ht Hid) as (e' & He' & Hide & Hdom & _).
  rewrite (unique_by_id _ _ _ Hnd He' He Hide) in Hdom. exact Hdom.
Qed.

Lemma no_overlap_pair (val : nat -> Z) (ivs : list IntervalVar) (a b : IntervalVar) :
  no_overlap_holds val ivs ->
  a ∈ ivs -> b ∈ ivs -> a <> b ->
  interval_active val a -> interval_active val b ->
  intervals_disjoint a b.
Proof.
  intros Hno Ha Hb Hne Hacta Hactb.
  apply list_elem_of_lookup_1 in Ha as [i Hi].
  apply list_elem_of_lookup_1 in Hb as [j Hj].
  destruct (Nat.lt_trichotomy i j) as [Hlt | [-> | Hgt]].
  - exact (Hno i j a b Hlt Hi Hj Hacta Hactb).
  - congruence.
  - pose proof (Hno j i b a Hgt Hj Hi Hactb Hacta) as Hd.
    unfold intervals_disjoint in *. tauto.
Qed.

Lemma sum_one_has_one (val : nat -> Z) (xs : list nat) :
  (forall v, v ∈ xs -> val v = 0 \/ val v = 1) ->
  foldr (fun v acc => val v + acc) 0 xs = 1 ->
  exists v, v ∈ xs /\ val v = 1.
Proof.
  induction xs as [|x xs IH]; intros Hb Hs; [cbn in Hs; lia|].
  cbn in Hs. destruct (Hb x ltac:(left)) as [H0 | H1].
  - destruct IH as (v & Hv & H1).
    + intros v Hv. apply Hb. right. assumption.
    + lia.
    + exists v. split; [right; assumption | assumption].
  - exists x. split; [left | assumption].
Qed.

Lemma chosen_start_finds (resp : CpSolverResponse) (x_vars : gmap (string * Z) nat)
    (costs : gmap (string * Z) Costs) (ev : FlexibleEvent) (cands : list Z) (s : Z) (v : nat) :
  (forall s', s' ∈ cands -> is_Some (costs !! (id ev, s')) /\ is_Some (x_vars !! (id ev, s'))) ->
  s ∈ cands -> x_vars !! (id ev, s) = Some v -> Value resp v = 1 ->
  exists sc, chosen_start resp x_vars costs ev cands = Some (Some sc).
Proof.
  induction cands as [|s0 rest IH]; intros Hcov Hs Hv Hone; [inversion Hs|].
  cbn. destruct (Hcov s0 ltac:(left)) as [[c0 Ec0] [v0 Ev0]]. rewrite Ev0. cbn.
  destruct (Z.eqb_spec (Value resp v0) 1) as [H1|Hn1].
  - rewrite Ec0. cbn. eauto.
  - apply elem_of_cons in Hs as [-> | Hs].
    + rewrite Ev0 in Hv. injection Hv as ->. contradiction.
    + apply IH; try assumption. intros s' Hs'. apply Hcov. right. assumption.
Qed.

(** The invariants of a run with distinct identifiers, gathered. *)
Lemma run_modelled (now_local : datetime) (p : Payload)
    (candidates : gmap string (list Z)) (costs : gmap (string * Z) Costs)
    (model : CpModel) (x_vars : gmap (string * Z) nat) :
  tables_of now_local p = Some (candidates, costs) ->
  model_of now_local p = Some (model, x_vars) ->
  NoDup (id <$> ingest_flex (horizon_of p) p) ->
  exists b,
    bool_vars model = b_vars b /\ sum_eq_one model = b_sums b /\ x_vars = b_x_vars b
    /\ no_overlap model
       = match b_intervals b
               ++ (fixed_interval <$> fixed_blocking (env_of now_local p)) with
         | [] => []
         | _ => [b_intervals b
                 ++ (fixed_interval <$> fixed_blocking (env_of now_local p))]
         end
    /\ vars_bounded b /\ vars_injective (b_x_vars b)
    /\ forall ev, ev ∈ with_candidates candidates (ingest_flex (horizon_of p) p) ->
                  event_modelled (buffer_slots (env_of now_local p)) candidates b ev.
Proof.
  intros Ht Hm Hnd.
  destruct (build_model_inv _ _ _ _ _ _ _ (model_of_inv _ _ _ _ _ _ Ht Hm))
    as (b & Hb & _ & Hvars & Hsums & Hno & Hx).
  destruct empty_builder_ok as [Hb0 Hi0].
  destruct (events_loop_invariants _ _ _ _ _ Hb Hb0 Hi0) as [Hbound Hinj].
  exists b. repeat (split; [assumption|]).
  apply (events_loop_modelled _ _ _ _ _ Hb).
  - apply NoDup_ids_filter. assumption.
  - eapply tables_candidates_ready. eassumption.
Qed.

(** A satisfying assignment sets a literal of every modelled event, so
    the projector finds a start for it. *)
Lemma satisfied_event_chosen (now_local : datetime) (p : Payload)
    (candidates : gmap string (list Z)) (costs : gmap (string * Z) Costs)
    (model : CpModel) (x_vars : gmap (string * Z) nat)
    (resp : CpSolverResponse) (ev : FlexibleEvent) :
  tables_of now_local p = Some (candidates, costs) ->
  model_of now_local p = Some (model, x_vars) ->
  NoDup (id <$> ingest_flex (horizon_of p) p) ->
  cp_satisfies (Value resp) model ->
  ev ∈ with_candidates candidates (ingest_flex (horizon_of p) p) ->
  is_Some (choice resp candidates costs x_vars ev).
Proof.
  intros Ht Hm Hnd (Hbool & Hsums & _) Hev.
  destruct (run_modelled _ _ _ _ _ _ Ht Hm Hnd)
    as (b & Hvars & Hs & Hx & _ & Hbound & _ & Hmod).
  destruct (Hmod ev Hev) as (cands & xs & Hc & Hxs & Hiff & Hall).
  rewrite Hs, Forall_forall in Hsums. pose proof (Hsums xs Hxs) as Hsum.
  destruct (sum_one_has_one (Value resp) xs) as (v & Hv & Hone).
  - intros v Hv. apply Hbool. rewrite Hvars.
    apply Hiff in Hv as (s & _ & Hk). eapply Hbound; eassumption.
  - exact Hsum.
  - apply Hiff in Hv as (s & Hs' & Hk).
    destruct (chosen_start_finds resp x_vars costs ev cands s v) as [sc Hsc].
    + intros s' Hs''. split.
      * eapply tables_of_cover; eassumption.
      * subst x_vars. destruct (Hall s' Hs'') as (v' & Hv' & _). eauto.
    + assumption.
    + subst x_vars. assumption.
    + assumption.
    + unfold choice. rewrite Hc. cbn. rewrite Hsc. eauto.
Qed.

Lemma all_chosen_outputs (h : Horizon) (resp : CpSolverResponse)
    (candidates : gmap string (list Z)) (costs : gmap (string * Z) Costs)
    (x_vars : gmap (string * Z) nat) (flex : list FlexibleEvent) :
  (forall ev, ev ∈ flex -> is_Some (choice resp candidates costs x_vars ev)) ->
  unchosen_of resp candidates costs x_vars flex = []
  /\ pl_id <$> placed_of h resp candidates costs x_vars flex = id <$> flex.
Proof.
  induction flex as [|ev rest IH]; intros Hall; [split; reflexivity|].
  destruct IH as [IHu IHp]; [intros ev' Hev'; apply Hall; right; assumption|].
  destruct (Hall ev ltac:(left)) as [sc Hsc].
  unfold unchosen_of, placed_of in *. cbn. rewrite Hsc. cbn.
  split; [exact IHu | f_equal; exact IHp].
Qed.

(** The interval of a chosen start is in the model and active. *)
Lemma chosen_interval (now_local : datetime) (p : Payload)
    (candidates : gmap string (list Z)) (costs : gmap (string * Z) Costs)
    (model : CpModel) (x_vars : gmap (string * Z) nat)
    (resp : CpSolverResponse) (ev : FlexibleEvent) (s c : Z) :
  tables_of now_local p = Some (candidates, costs) ->
  model_of now_local p = Some (model, x_vars) ->
  NoDup (id <$> ingest_flex (horizon_of p) p) ->
  ev ∈ with_candidates candidates (ingest_flex (horizon_of p) p) ->
  overlap ev = false ->
  choice resp candidates costs x_vars ev = Some (s, c) ->
  exists v ivs,
    x_vars !! (id ev, s) = Some v /\ Value resp v = 1
    /\ no_overlap model = [ivs]
    /\ event_interval (buffer_slots (env_of now_local p)) ev s v ∈ ivs
    /\ forall f, f ∈ fixed_blocking (env_of now_local p) -> fixed_interval f ∈ ivs.
Proof.
  intros Ht Hm Hnd Hev Hov Hch.
  destruct (run_modelled _ _ _ _ _ _ Ht Hm Hnd)
    as (b & _ & _ & Hx & Hno & _ & _ & Hmod).
  destruct (choice_spec _ _ _ _ _ _ _ Hch) as (starts & v & cst & Hc & Hs & Hv & Hone & _).
  destruct (Hmod ev Hev) as (cands & xs & Hc' & _ & _ & Hall).
  rewrite Hc in Hc'. injection Hc' as <-.
  destruct (Hall s Hs) as (v' & Hv' & Hiv). rewrite <- Hx, Hv in Hv'. injection Hv' as <-.
  specialize (Hiv Hov).
  exists v, (b_intervals b ++ (fixed_interval <$> fixed_blocking (env_of now_local p))).
  split; [assumption|]. split; [assumption|]. split.
  - rewrite Hno.
    destruct (b_intervals b ++ (fixed_interval <$> fixed_blocking (env_of now_local p)))
      eqn:E; [|reflexivity].
    apply app_eq_nil in E as [E _]. rewrite E in Hiv. inversion Hiv.
  - split; [apply elem_of_app; left; assumption|].
    intros f Hf. apply elem_of_app. right. apply list_elem_of_fmap. eauto.
Qed.

(** X18: when the assignment the solver returns with a success status
    satisfies the model and the identifiers are distinct, every flexible
    event that has candidates is placed: [unplaced] holds only the events
    without candidates (no [NoChosenStart] record), and [placed] has one
    record per event with candidates, in input order. *)
Theorem X18_satisfying_answer_places_all (Solve : CpModel -> CpSolverResponse)
    (now_local : datetime) (p : Payload)
    (candidates : gmap string (list Z)) (costs : gmap (string * Z) Costs)
    (model : CpModel) (x_vars : gmap (string * Z) nat) :
  post_init (horizon_of p) = true ->
  no_ui_conflict p ->
  tables_of now_local p = Some (candidates, costs) ->
  model_of now_local p = Some (model, x_vars) ->
  NoDup (id <$> ingest_flex (horizon_of p) p) ->
  status_ok (status (Solve model)) = true ->
  cp_satisfies (Value (Solve model)) model ->
  exists out,
    solve_schedule Solve now_local p = Some out
    /\ unplaced out = immediate_unplaced_of candidates (ingest_flex (horizon_of p) p)
    /\ pl_id <$> placed out
       = id <$> with_candidates candidates (ingest_flex (horizon_of p) p)
    /\ forall r, r ∈ unplaced out -> un_reason r = "NoFeasibleCandidates".
Proof.
  intros Hpost Hui Ht Hm Hnd Hok Hsat.
  pose proof (solve_schedule_success Solve now_local p candidates costs model x_vars
                Hpost Hui Ht Hm Hok) as Hrun. cbv zeta in Hrun.
  destruct (all_chosen_outputs (horizon_of p) (Solve model) candidates costs x_vars
              (with_candidates candidates (ingest_flex (horizon_of p) p)))
    as [Hun Hpl].
  { intros ev Hev. eapply satisfied_event_chosen; eassumption. }
  eexists. split; [exact Hrun|]. cbn [unplaced placed].
  rewrite Hun, app_nil_r. split; [reflexivity|]. split; [exact Hpl|].
  intros r Hr. unfold immediate_unplaced_of in Hr.
  apply list_elem_of_fmap in Hr as (ev & -> & _). reflexivity.
Qed.

(** X19: under the same conditions nothing is double-booked: the starts
    read back for two different events that may not overlap leave each
    event's duration and buffer free of the other, and the start of such
    an event leaves its duration and buffer free of every blocking fixed
    interval. *)
Theorem X19_no_double_booking (resp : CpSolverResponse)
    (now_local : datetime) (p : Payload)
    (candidates : gmap string (list Z)) (costs : gmap (string * Z) Costs)
    (model : CpModel) (x_vars : gmap (string * Z) nat) :
  tables_of now_local p = Some (candidates, costs) ->
  model_of now_local p = Some (model, x_vars) ->
  NoDup (id <$> ingest_flex (horizon_of p) p) ->
  cp_satisfies (Value resp) model ->
  let buf := buffer_slots (env_of now_local p) in
  let modelled := with_candidates candidates (ingest_flex (horizon_of p) p) in
  (forall ev1 ev2 s1 c1 s2 c2,
     ev1 ∈ modelled -> ev2 ∈ modelled -> ev1 <> ev2 ->
     overlap ev1 = false -> overlap ev2 = false ->
     choice resp candidates costs x_vars ev1 = Some (s1, c1) ->
     choice resp candidates costs x_vars ev2 = Some (s2, c2) ->
     s1 + (duration_slots ev1 + buf) <= s2 \/ s2 + (duration_slots ev2 + buf) <= s1)
  /\ (forall ev s c f,
        ev ∈ modelled -> overlap ev = false ->
        choice resp candidates costs x_vars ev = Some (s, c) ->
        f ∈ fixed_blocking (env_of now_local p) ->
        s + (duration_slots ev + buf) <= start_slot f \/ end_slot f <= s).
Proof.
  intros Ht Hm Hnd Hsat buf modelled.
  pose proof Hsat as (_ & _ & Hno).
  destruct (run_modelled _ _ _ _ _ _ Ht Hm Hnd)
    as (b & _ & _ & Hx & _ & _ & Hinj & _).
  split.
  - intros ev1 ev2 s1 c1 s2 c2 He1 He2 Hne Ho1 Ho2 Hc1 Hc2.
    destruct (chosen_interval _ _ _ _ _ _ resp ev1 s1 c1 Ht Hm Hnd He1 Ho1 Hc1)
      as (v1 & ivs & Hv1 & H1 & Hivs & Hin1 & _).
    destruct (chosen_interval _ _ _ _ _ _ resp ev2 s2 c2 Ht Hm Hnd He2 Ho2 Hc2)
      as (v2 & ivs' & Hv2 & H2 & Hivs' & Hin2 & _).
    rewrite Hivs in Hivs'. injection Hivs' as <-.
    rewrite Hivs in Hno. apply Forall_cons in Hno as [Hno _].
    apply (no_overlap_pair (Value resp) ivs _ _ Hno Hin1 Hin2); [|exact H1|exact H2].
    intros Heq. apply Hne.
    assert (Hv : v1 = v2) by (unfold event_interval in Heq; congruence).
    subst v2. rewrite Hx in Hv1, Hv2.
    pose proof (Hinj _ _ _ Hv1 Hv2) as Hk. injection Hk as Hid _.
    apply with_candidates_has in He1 as [He1 _].
    apply with_candidates_has in He2 as [He2 _].
    eapply unique_by_id; eassumption.
  - intros ev s c f Hev Hov Hc Hf.
    destruct (chosen_interval _ _ _ _ _ _ resp ev s c Ht Hm Hnd Hev Hov Hc)
      as (v & ivs & Hv & H1 & Hivs & Hin & Hfix).
    rewrite Hivs in Hno. apply Forall_cons in Hno as [Hno _].
    apply (no_overlap_pair (Value resp) ivs _ _ Hno Hin (Hfix f Hf));
      [|exact H1|exact I].
    unfold event_interval, fixed_interval. congruence.
Qed.

(** Satisfaction of a model with at most three intervals, by cases. *)
Ltac small_no_overlap :=
  let i := fresh "i" in let j := fresh "j" in
  let Hlt := fresh "Hlt" in let Hi := fresh "Hi" in let Hj := fresh "Hj" in
  intros i j ? ? Hlt Hi Hj _ _;
  destruct i as [|[|[|i]]]; destruct j as [|[|[|j]]];
  try (exfalso; lia); cbn in Hi, Hj; try discriminate;
  injection Hi as <-; injection Hj as <-;
  unfold intervals_disjoint; cbn; lia.

Ltac small_satisfies :=
  split; [intros v _; cbn; destruct (bool_decide _); auto|];
  split; [repeat (constructor; [vm_compute; reflexivity|]); constructor|];
  constructor; [small_no_overlap | constructor].

Lemma X18_satisfying_answer_places_all_witness :
  exists out,
    solve_schedule (solver_setting [0%nat; 1%nat]) (at_time 8 0) pair_payload = Some out
    /\ unplaced out = []
    /\ pl_id <$> placed out = ["a"; "b"].
Proof.
  let t := eval vm_compute in (tables_of (at_time 8 0) pair_payload) in
  let m := eval vm_compute in (model_of (at_time 8 0) pair_payload) in
  match t with
  | Some (?c, ?k) =>
      match m with
      | Some (?mo, ?xv) =>
          destruct (X18_satisfying_answer_places_all (solver_setting [0%nat; 1%nat])
                      (at_time 8 0) pair_payload c k mo xv)
            as (out & Hrun & Hun & Hpl & _)
      end
  end.
  - reflexivity.
  - vm_compute. reflexivity.
  - vm_compute. reflexivity.
  - vm_compute. reflexivity.
  - apply (bool_decide_unpack _). vm_compute. exact I.
  - reflexivity.
  - small_satisfies.
  - exists out. split; [exact Hrun|]. split.
    + rewrite Hun. vm_compute. reflexivity.
    + rewrite Hpl. vm_compute. reflexivity.
Defined.

Lemma X19_no_double_booking_witness :
  exists candidates costs x_vars,
    (tables_of (at_time 8 0) pair_payload ≫= fun t => Some t.1) = Some candidates
    /\ forall s1 c1 s2 c2,
         choice (solver_setting [0%nat; 1%nat] (Build_CpModel [] [] [] []))
           candidates costs x_vars pair_a = Some (s1, c1) ->
         choice (solver_setting [0%nat; 1%nat] (Build_CpModel [] [] [] []))
           candidates costs x_vars pair_b = Some (s2, c2) ->
         s1 + (duration_slots pair_a + 0) <= s2 \/ s2 + (duration_slots pair_b + 0) <= s1.
Proof.
  let t := eval vm_compute in (tables_of (at_time 8 0) pair_payload) in
  let m := eval vm_compute in (model_of (at_time 8 0) pair_payload) in
  match t with
  | Some (?c, ?k) =>
      match m with
      | Some (?mo, ?xv) =>
          destruct (X19_no_double_booking
                      (solver_setting [0%nat; 1%nat] (Build_CpModel [] [] [] []))
                      (at_time 8 0) pair_payload c k mo xv)
            as [Hpair _]; [ | | | |
            exists c, k, xv; split; [vm_compute; reflexivity|];
            intros s1 c1 s2 c2 H1 H2;
            apply (Hpair pair_a pair_b s1 c1 s2 c2)]
      end
  end.
  - vm_compute. reflexivity.
  - vm_compute. reflexivity.
  - apply (bool_decide_unpack _). vm_compute. exact I.
  - small_satisfies.
  - vm_compute. left.
  - vm_compute. right. left.
  - intros H. apply (f_equal id) in H. vm_compute in H. discriminate.
  - reflexivity.
  - reflexivity.
  - exact H1.
  - exact H2.
Defined.

(** ** The result as a whole *)

(** What a returned result was made from. *)
Lemma solve_schedule_inv (Solve : CpModel -> CpSolverResponse)
    (now_local : datetime) (p : Payload) (out : Output) :
  solve_schedule Solve now_local p = Some out ->
  post_init (horizon_of p) = true
  /\ ((exists m l, hard_conflicts_of (blocking_of (fixed_of p)) = m :: l
                   /\ out = ui_conflict_output (m :: l))
      \/ (no_ui_conflict p
          /\ exists candidates costs model x_vars,
               tables_of now_local p = Some (candidates, costs)
               /\ model_of now_local p = Some (model, x_vars))).
Proof.
  intros H.
  destruct (post_init (horizon_of p)) eqn:Hh;
    [|unfold solve_schedule in H; rewrite Hh in H; discriminate].
  split; [reflexivity|].
  destruct (hard_conflicts_of (blocking_of (fixed_of p))) as [|m l] eqn:Ehc.
  - right. split; [exact Ehc|].
    destruct (tables_of now_local p) as [[candidates costs]|] eqn:Ht.
    + destruct (model_of_total _ _ _ _ Ht) as (model & x_vars & Hm & _). eauto 6.
    + exfalso. unfold solve_schedule in H. rewrite Hh, Ehc in H. cbn in H.
      unfold tables_of in Ht. rewrite Ht in H. discriminate.
  - left. unfold solve_schedule in H. rewrite Hh, Ehc in H. cbn in H.
    injection H as <-. eauto.
Qed.

Lemma slot_to_dt_inj (h : Horizon) (s t : Z) :
  post_init h = true -> slot_to_dt h s = slot_to_dt h t -> s = t.
Proof.
  intros Hh E. rewrite <- (dt_to_slot_to_dt h Hh s), <- (dt_to_slot_to_dt h Hh t).
  rewrite E. reflexivity.
Qed.


(** X21: a moved record is emitted only for a movable event that has a
    current start and was placed elsewhere: its [fromStart] is the current
    start rounded down to the grid, its [toStart] is the start of the placed
    record of the same event and differs from [fromStart], and its reason is
    [RepositionedByPolicy]. *)
Theorem X21_moved_records (Solve : CpModel -> CpSolverResponse)
    (now_local : datetime) (p : Payload) (out : Output) (m : MovedRec) :
  solve_schedule Solve now_local p = Some out ->
  m ∈ moved out ->
  mv_reason m = "RepositionedByPolicy"
  /\ mv_fromStart m <> mv_toStart m
  /\ (exists r, r ∈ placed out /\ pl_id r = mv_id m /\ pl_start r = mv_toStart m)
  /\ exists j cs,
       j ∈ ev_movable p /\ ej_id j = mv_id m /\ ej_currentStart j = Some cs
       /\ mv_fromStart m = slot_to_dt (horizon_of p) (dt_to_slot (horizon_of p) cs).
Proof.
  intros H Hm.
  destruct (solve_schedule_inv _ _ _ _ H)
    as [Hh [(m0 & l & _ & ->) | (Hui & candidates & costs & model & x_vars & Ht & Hmo)]];
    [inversion Hm|].
  destruct (status_ok (status (Solve model))) eqn:Est.
  2:{ rewrite (solve_schedule_infeasible _ _ _ _ _ _ _ Hh Hui Ht Hmo Est) in H.
      injection H as <-. inversion Hm. }
  rewrite (solve_schedule_success _ _ _ _ _ _ _ Hh Hui Ht Hmo Est) in H.
  injection H as <-. cbn [moved placed] in *.
  split; [|split; [|split]].
  3:{ eapply moved_of_placed. eassumption. }
  all: unfold moved_of in Hm; rewrite list_elem_of_In, in_flat_map in Hm;
    destruct Hm as (ev & Hev & Hm); apply list_elem_of_In in Hev;
    destruct (choice (Solve model) candidates costs x_vars ev) as [[s c]|];
      [|inversion Hm];
    unfold moved_record in Hm; cbn in Hm;
    destruct (current_start_slot ev) as [c0|] eqn:Ecur; [|inversion Hm];
    destruct (Z.eqb_spec c0 s) as [|Hne]; [inversion Hm|];
    destruct Hm as [<- | []]; cbn.
  - reflexivity.
  - intros E. apply Hne. eapply slot_to_dt_inj; eassumption.
  - apply with_candidates_has in Hev as [Hev _].
    unfold ingest_flex in Hev. apply elem_of_app in Hev as [Hev | Hev];
      apply list_elem_of_fmap in Hev as (j & -> & Hj).
    + cbn in Ecur. destruct (ej_currentStart j) as [cs|] eqn:Ecs; [|discriminate].
      cbn in Ecur. injection Ecur as <-. exists j, cs. auto.
    + cbn in Ecur. discriminate.
Qed.

(** The finished table holds, under every recorded candidate, the record of
    an event of the input with that identifier. *)
Lemma table_entry_spec (now_local : datetime) (p : Payload)
    (candidates : gmap string (list Z)) (costs : gmap (string * Z) Costs)
    (i : string) (starts : list Z) (s : Z) (c : Costs) :
  tables_of now_local p = Some (candidates, costs) ->
  i ∈ (id <$> ingest_flex (horizon_of p) p) ->
  candidates !! i = Some starts -> s ∈ starts ->
  costs !! (i, s) = Some c ->
  exists e, e ∈ ingest_flex (horizon_of p) p /\ id e = i
            /\ cost_spec (env_of now_local p) e s c.
Proof.
  intros Ht Hi Hc Hs Hk.
  destruct (candidates_loop_last _ _ _ _ _ Ht Hi) as (e & He & Hid & Hdom & Hcost).
  cbn in Hdom, Hcost. rewrite Hc in Hdom. injection Hdom as ->.
  destruct (Hcost s Hs) as [_ Hrec]. rewrite Hk in Hrec.
  exists e. split; [assumption|]. split; [assumption|].
  apply candidate_cost_spec; [|congruence].
  eapply ingest_flex_duration; eassumption.
Qed.

Lemma cost_of_nonneg (now_local : datetime) (p : Payload)
    (candidates : gmap string (list Z)) (costs : gmap (string * Z) Costs)
    (resp : CpSolverResponse) (x_vars : gmap (string * Z) nat)
    (flex : list FlexibleEvent) :
  tables_of now_local p = Some (candidates, costs) ->
  weights_nonneg (weights p) ->
  (forall ev, ev ∈ flex -> ev ∈ ingest_flex (horizon_of p) p) ->
  0 <= cost_of resp candidates costs x_vars flex.
Proof.
  intros Ht Hw. unfold cost_of.
  induction flex as [|ev rest IH]; intros Hsub; [cbn; lia|].
  assert (IH' : 0 <= sum_list
                       (omap (fun ev => snd <$> choice resp candidates costs x_vars ev) rest))
    by (apply IH; intros ev' Hev'; apply Hsub; right; assumption).
  assert (Hcons : forall f : FlexibleEvent -> option Z,
            omap f (ev :: rest)
            = match f ev with Some y => y :: omap f rest | None => omap f rest end)
    by reflexivity.
  rewrite Hcons.
  destruct (choice resp candidates costs x_vars ev) as [[s c]|] eqn:Ech; [|exact IH'].
  cbn [fmap option_fmap option_map snd]. rewrite sum_list_cons.
  destruct (choice_spec _ _ _ _ _ _ _ Ech) as (starts & v & cst & Hc & Hs & _ & _ & Hk & <-).
  destruct (table_entry_spec _ _ _ _ (id ev) starts s cst Ht) as (e & _ & _ & Hspec);
    try assumption.
  { apply list_elem_of_fmap. exists ev. split; [reflexivity|]. apply Hsub. left. }
  destruct Hspec as (Htot & _ & _ & _ & _ & _ & _ & Hnn).
  destruct (Hnn Hw) as (? & ? & ? & ?). lia.
Qed.

(** X22: with non-negative weights the score of a result is never
    negative. *)
Theorem X22_score_nonneg (Solve : CpModel -> CpSolverResponse)
    (now_local : datetime) (p : Payload) (out : Output) (sc : Z) :
  solve_schedule Solve now_local p = Some out ->
  weights_nonneg (weights p) ->
  score out = Some sc ->
  0 <= sc.
Proof.
  intros H Hw Hsc.
  destruct (solve_schedule_inv _ _ _ _ H)
    as [Hh [(m0 & l & _ & ->) | (Hui & candidates & costs & model & x_vars & Ht & Hmo)]];
    [discriminate|].
  destruct (status_ok (status (Solve model))) eqn:Est.
  2:{ rewrite (solve_schedule_infeasible _ _ _ _ _ _ _ Hh Hui Ht Hmo Est) in H.
      injection H as <-. discriminate. }
  rewrite (solve_schedule_success _ _ _ _ _ _ _ Hh Hui Ht Hmo Est) in H.
  injection H as <-. cbn in Hsc. injection Hsc as <-.
  eapply cost_of_nonneg; try eassumption.
  intros ev Hev. apply with_candidates_has in Hev as [Hev _]. exact Hev.
Qed.

Lemma per_priority_nonneg (uni inu : Z) (k : string) (v : Z) :
  0 <= uni -> 0 <= inu -> per_priority uni inu !! k = Some v -> 0 <= v.
Proof.
  intros Hu Hi. unfold per_priority.
  destruct (decide (k = "UnI")) as [->|Hk1].
  - rewrite lookup_insert_eq. intros [= <-]. assumption.
  - rewrite lookup_insert_ne by congruence.
    destruct (decide (k = "InU")) as [->|Hk2].
    + rewrite lookup_insert_eq. intros [= <-]. assumption.
    + rewrite lookup_insert_ne by congruence. rewrite lookup_empty. discriminate.
Qed.

Lemma sample_weights_nonneg : weights_nonneg sample_weights.
Proof.
  intros m k v Hm Hk. cbn in Hm.
  repeat (apply elem_of_cons in Hm as [-> | Hm];
          [eapply per_priority_nonneg; [| |exact Hk]; lia|]).
  inversion Hm.
Qed.

Lemma X21_moved_records_witness :
  exists out m,
    solve_schedule (solver_setting [1%nat]) (at_time 8 0) shift_payload = Some out
    /\ moved out = [m]
    /\ mv_reason m = "RepositionedByPolicy"
    /\ mv_fromStart m = at_time 10 0
    /\ mv_toStart m = at_time 10 30
    /\ mv_fromStart m <> mv_toStart m.
Proof.
  let o := eval vm_compute in
             (solve_schedule (solver_setting [1%nat]) (at_time 8 0) shift_payload) in
  match o with
  | Some ?out =>
      match eval vm_compute in (moved out) with
      | [?m] =>
          assert (Hrun : solve_schedule (solver_setting [1%nat]) (at_time 8 0)
                           shift_payload = Some out) by (vm_compute; reflexivity);
          destruct (X21_moved_records (solver_setting [1%nat]) (at_time 8 0)
                      shift_payload out m Hrun) as (Hreason & Hne & _);
          [ left
          | exists out, m; split; [exact Hrun|];
            split; [reflexivity|]; split; [exact Hreason|];
            split; [vm_compute; reflexivity|];
            split; [vm_compute; reflexivity | exact Hne] ]
      end
  end.
Defined.

Lemma X22_score_nonneg_witness :
  exists out sc,
    solve_schedule (solver_setting [1%nat]) (at_time 8 0) shift_payload = Some out
    /\ score out = Some sc
    /\ 0 <= sc.
Proof.
  let o := eval vm_compute in
             (solve_schedule (solver_setting [1%nat]) (at_time 8 0) shift_payload) in
  match o with
  | Some ?out =>
      match eval vm_compute in (score out) with
      | Some ?sc =>
          assert (Hrun : solve_schedule (solver_setting [1%nat]) (at_time 8 0)
                           shift_payload = Some out) by (vm_compute; reflexivity);
          exists out, sc; split; [exact Hrun|]; split; [reflexivity|];
          apply (X22_score_nonneg (solver_setting [1%nat]) (at_time 8 0)
                   shift_payload out sc Hrun);
          [exact sample_weights_nonneg | reflexivity]
      end
  end.
Defined.
